(** * wicked: requirement checks, extension commands and sysfs list attributes

    A shallow embedding of three pieces of the wicked network configuration
    daemon, and the properties its design document states about them:

    - [client/reachable.c]: the reachability requirement of the FSM,
    - [src/extension.c]: running the start and stop commands of an extension,
    - [src/sysfs.c]: updating a bonding list attribute through sysfs.

    The C functions talk to the outside (resolver, network probes, stdio,
    fork and waitpid).  Each such call is a field of a type class over an
    abstract external state [W]; the embedded functions thread a [world]
    made of that state and of the list of calls done so far, so that
    statements such as "no process was spawned" can be read off the trace.
    The text of diagnostic output (ni_error, ni_debug_*, ni_trace) is not
    part of the model; the array reads that build it are. *)

From Stdlib Require Import ZArith Lia String Ascii List.
From stdpp Require Import base list strings gmap.

Local Open Scope string_scope.
Local Open Scope Z_scope.

(** ** State passing with a trace of external calls *)

Module Effects.

Record world (W E : Type) : Type := World { ext : W; trace : list E }.
Arguments World {W E} _ _.
Arguments ext {W E} _.
Arguments trace {W E} _.

Definition M (S A : Type) : Type := S -> A * S.

Definition ret {S A : Type} (a : A) : M S A := fun s => (a, s).

Definition bind {S A B : Type} (m : M S A) (k : A -> M S B) : M S B :=
  fun s => let (a, s') := m s in k a s'.

(** An external call: run the oracle [f] on the external state and record
    the event built from its result. *)
Definition call {W E A : Type} (ev : A -> E) (f : W -> A * W) : M (world W E) A :=
  fun s => let (a, w') := f (ext s) in (a, World w' (trace s ++ [ev a])).

(** The events recorded between two worlds of one run. *)
Definition new_events {W E : Type} (s s' : world W E) : list E :=
  drop (length (trace s)) (trace s').

End Effects.

Import Effects.

Declare Scope io_scope.
Delimit Scope io_scope with io.
Notation "'let*' x ':=' m 'in' k" := (bind m (fun x => k))
  (at level 10, x name, m at level 100, k at level 200) : io_scope.
Notation "m1 ';;;' m2" := (bind m1 (fun _ => m2))
  (at level 100, m2 at level 200, right associativity) : io_scope.
Local Open Scope io_scope.

(** ** src/sysfs.c: bonding list attributes *)

Module Sysfs.

(** Calls into stdio.  A stream is named by the path it was opened on: the
    functions below have one stream open at a time. *)
Inductive event : Type :=
| EvFopenRead (path : string) (stream : option string)
| EvFopenWrite (path : string) (ok : bool)
| EvVfprintf (path text : string)
| EvFclose (path : string) (rc : Z).

(** [fopen_read p] is fopen(p, "r"): [None] for NULL, otherwise the bytes
    the stream delivers up to end of file.  [fopen_write p] is
    fopen(p, "w"), [false] for NULL.  [vfprintf p text] writes the formatted
    text to the stream, [fclose p] flushes and closes it and returns the C
    result (0, or EOF = -1). *)
Class Stdio (W : Type) : Type := {
  fopen_read : string -> W -> option string * W;
  fopen_write : string -> W -> bool * W;
  vfprintf : string -> string -> W -> unit * W;
  fclose : string -> W -> Z * W
}.

(** The calls that write to the backend: opening a file for writing
    (which truncates it) and printing to it. *)
Definition is_write (e : event) : bool :=
  match e with
  | EvFopenWrite _ _ | EvVfprintf _ _ => true
  | EvFopenRead _ _ | EvFclose _ _ => false
  end.

Definition LF : string := String "010" "".

Definition _PATH_SYS_CLASS_NET : string := "/sys/class/net".

(** PATH_MAX of <limits.h> on Linux. *)
Definition PATH_MAX : nat := 4096.

(** snprintf(buf, size, ...) keeps the first size - 1 characters. *)
Definition snprintf (size : nat) (formatted : string) : string :=
  String.substring 0 (size - 1) formatted.

(** Modelled from the spec: ni_string_array_comm (src/util.c) is not among
    the sources.  It partitions two string arrays into the strings unique to
    the first ("in current, not in desired"), unique to the second ("in
    desired, not in current") and common to both ("in both"), "each
    preserving source order"; the common ones are taken in the order of the
    first array. *)
Definition ni_string_array_comm (a b : list string)
  : list string * list string * list string :=
  (filter (fun s => s ∉ b) a, filter (fun s => s ∉ a) b, filter (fun s => s ∈ b) a).

Section WithStdio.
Context {W : Type} `{!Stdio W}.

Definition IO := M (world W event).

(** [__ni_sysfs_printf pathname text], with [text] the formatted line. *)
Definition __ni_sysfs_printf (pathname text : string) : IO Z :=
  let* fp := call (EvFopenWrite pathname) (fopen_write pathname) in
  if negb fp then ret (-1)
  else
    call (fun _ => EvVfprintf pathname text) (vfprintf pathname text) ;;;
    let* rc := call (EvFclose pathname) (fclose pathname) in
    if rc <? 0 then ret (-1) else ret 0.

(** fgets(buffer, size, fp) on the bytes [s] the stream still holds, with
    [room] = size - 1: it stores at most [room] bytes and stops after a
    newline.  The result is the bytes stored and the bytes left. *)
Fixpoint fgets_bytes (room : nat) (s : string) : string * string :=
  match room, s with
  | O, _ => ("", s)
  | _, EmptyString => ("", "")
  | S room', String c s' =>
      if Ascii.eqb c "010" then (String c "", s')
      else let (line, rest) := fgets_bytes room' s' in (String c line, rest)
  end.

(** The buffer as the C string strtok sees: up to the first NUL byte. *)
Fixpoint c_str (s : string) : string :=
  match s with
  | EmptyString => ""
  | String c s' => if Ascii.eqb c "000" then "" else String c (c_str s')
  end.

(** The delimiters " \t\n" of the strtok calls. *)
Definition is_delim (c : ascii) : bool :=
  Ascii.eqb c " " || Ascii.eqb c "009" || Ascii.eqb c "010".

(** The tokens strtok(buffer, delim), strtok(NULL, delim), ... return:
    the maximal runs of bytes that are not delimiters.  [tok] is the token
    being read. *)
Fixpoint strtok_all (s tok : string) : list string :=
  match s with
  | EmptyString => if String.eqb tok "" then [] else [tok]
  | String c s' =>
      if is_delim c
      then (if String.eqb tok "" then strtok_all s' "" else tok :: strtok_all s' "")
      else strtok_all s' (tok ++ String c "")
  end.

(** while (fgets(buffer, sizeof(buffer), fp) != NULL) with buffer[256];
    every round on a stream that is not at its end takes at least one byte,
    so the length of the stream bounds the number of rounds. *)
Fixpoint read_list_loop (rounds : nat) (stream : string) (result : list string)
  : list string :=
  match rounds with
  | O => result
  | S rounds' =>
      if String.eqb stream "" then result
      else
        let (buffer, rest) := fgets_bytes 255 stream in
        read_list_loop rounds' rest (result ++ strtok_all (c_str buffer) "")
  end.

Definition __ni_sysfs_read_list (pathname : string) (result : list string)
  : IO (Z * list string) :=
  let* fp := call (EvFopenRead pathname) (fopen_read pathname) in
  match fp with
  | None => ret (-1, result)
  | Some stream =>
      call (EvFclose pathname) (fclose pathname) ;;;
      ret (0, read_list_loop (String.length stream) stream result)
  end.

(** for (i = 0; i < values.count; ++i)
      if (__ni_sysfs_printf(pathbuf, "<sign>%s\n", values.data[i]) < 0) goto done;
    [false] stands for the jump to done. *)
Fixpoint write_each (pathname sign : string) (values : list string) : IO bool :=
  match values with
  | [] => ret true
  | v :: rest =>
      let* rc := __ni_sysfs_printf pathname (sign ++ v ++ LF) in
      if rc <? 0 then ret false else write_each pathname sign rest
  end.

Definition attr_path (ifname attr_name : string) : string :=
  snprintf PATH_MAX (_PATH_SYS_CLASS_NET ++ "/" ++ ifname ++ "/bonding/" ++ attr_name).

(** for (i = 0; i < count; ++i) ni_trace(fmt, array.data[i]), from index
    [i] on, over an array whose elements are [data]: [false] when a read
    array.data[i] falls past the last element of the array. *)
Fixpoint trace_each (data : list string) (i count : nat) : bool :=
  match count with
  | O => true
  | S count' =>
      match data !! i with
      | Some _ => trace_each data (S i) count'
      | None => false
      end
  end.

(** The three loops of the trace block.  The last one runs up to
    unchanged.count and reads add.data[i]. *)
Definition trace_update (delete add unchanged : list string) : bool :=
  trace_each delete 0 (length delete)
  && trace_each add 0 (length add)
  && trace_each add 0 (length unchanged).

(** How a call of ni_sysfs_bonding_set_list_attr ends: it returns [rv], or
    it comes to a read of add.data[i] past the last element of the array;
    what the program does from there on is not defined by the sources and
    is not followed. *)
Inductive outcome : Type :=
| Returned (rv : Z)
| OutOfBounds.

(** ni_debug is the global debug mask and NI_TRACE_IFCONFIG the bit of the
    ifconfig facility, both of <wicked/logging.h>, which is not among the
    sources. *)
Variables ni_debug NI_TRACE_IFCONFIG : Z.

Definition ni_sysfs_bonding_set_list_attr (ifname attr_name : string)
    (list : list string) : IO outcome :=
  let pathbuf := attr_path ifname attr_name in
  let* r := __ni_sysfs_read_list pathbuf [] in
  let '(rc, current) := r in
  if rc <? 0 then ret (Returned (-1))
  else
    let '(delete, add, unchanged) := ni_string_array_comm current list in
    if (length add =? 0)%nat && (length delete =? 0)%nat then ret (Returned 0)
    else
      let traced :=
        if negb (Z.land ni_debug NI_TRACE_IFCONFIG =? 0)
        then trace_update delete add unchanged else true in
      if negb traced then ret OutOfBounds
      else
      let* removed := write_each pathbuf "-" delete in
      if negb removed then ret (Returned (-1))
      else
        let* added := write_each pathbuf "+" add in
        if negb added then ret (Returned (-1)) else ret (Returned 0).

(** The lines an update writes: a removal per entry of [delete], then an
    addition per entry of [add]. *)
Definition update_lines (delete add : list string) : list string :=
  map (fun v => "-" ++ v ++ LF) delete ++ map (fun v => "+" ++ v ++ LF) add.

(** [lines_written path lines w w']: from [w], one __ni_sysfs_printf per
    line, in order, each returning 0, leads to [w']. *)
Inductive lines_written (pathname : string)
  : list string -> world W event -> world W event -> Prop :=
| lines_written_nil w : lines_written pathname [] w w
| lines_written_cons line lines w w1 w2 :
    __ni_sysfs_printf pathname line w = (0, w1) ->
    lines_written pathname lines w1 w2 ->
    lines_written pathname (line :: lines) w w2.

(** __ni_sysfs_netif_attrpath: the path of an attribute of an interface. *)
Definition __ni_sysfs_netif_attrpath (ifname attr_name : string) : string :=
  snprintf PATH_MAX (_PATH_SYS_CLASS_NET ++ "/" ++ ifname ++ "/" ++ attr_name).

(** buffer[strcspn(buffer, "\\n")] = 0: the C string up to its first
    newline. *)
Fixpoint cut_at_newline (s : string) : string :=
  match s with
  | EmptyString => ""
  | String c s' => if Ascii.eqb c "010" then "" else String c (cut_at_newline s')
  end.

(** What one fgets(buffer, sizeof(buffer), fp) with buffer[256] followed by
    that cut leaves in the buffer; [None] when fgets returns NULL, at the
    end of the stream. *)
Definition first_line (stream : string) : option string :=
  if String.eqb stream "" then None
  else Some (cut_at_newline (c_str (fst (fgets_bytes 255 stream)))).

(** The result is the string in the static buffer, [None] for NULL. *)
Definition __ni_sysfs_netif_get_attr (ifname attr_name : string) : IO (option string) :=
  let filename := __ni_sysfs_netif_attrpath ifname attr_name in
  let* fp := call (EvFopenRead filename) (fopen_read filename) in
  match fp with
  | None => ret None
  | Some stream =>
      call (EvFclose filename) (fclose filename) ;;;
      ret (first_line stream)
  end.

(** ni_string_dup and ni_string_free (util.c) are not among the sources.
    They act on the string behind a char **, here an [option string] with
    [None] for NULL: [ni_string_dup old value] is what ni_string_dup leaves
    behind a pointer that held [old], [ni_string_free old] what
    ni_string_free leaves. *)
Section Strings.
Variable ni_string_dup : option string -> string -> option string.
Variable ni_string_free : option string -> option string.

(** The result is the value returned and the string behind [result]. *)
Definition ni_sysfs_netif_get_string (ifname attr_name : string)
    (result : option string) : IO (Z * option string) :=
  let* attr := __ni_sysfs_netif_get_attr ifname attr_name in
  match attr with
  | None => ret (-1, result)
  | Some attr => ret (0, ni_string_dup result attr)
  end.

Definition __ni_sysfs_read_string (pathname : string) (result : option string)
  : IO (Z * option string) :=
  let* fp := call (EvFopenRead pathname) (fopen_read pathname) in
  match fp with
  | None => ret (-1, result)
  | Some stream =>
      let result := ni_string_free result in
      let result :=
        match first_line stream with
        | Some buffer => ni_string_dup result buffer
        | None => result
        end in
      call (EvFclose pathname) (fclose pathname) ;;;
      ret (0, result)
  end.

Definition ni_sysfs_bonding_get_attr (ifname attr_name : string)
    (result : option string) : IO (Z * option string) :=
  __ni_sysfs_read_string (attr_path ifname attr_name) result.

End Strings.

Definition ni_sysfs_bonding_set_attr (ifname attr_name attr_value : string) : IO Z :=
  __ni_sysfs_printf (attr_path ifname attr_name) attr_value.

Definition ni_sysfs_bonding_get_masters (list : list string)
  : IO (Z * Datatypes.list string) :=
  __ni_sysfs_read_list "/sys/class/net/bonding_masters" list.

Definition ni_sysfs_bonding_add_master (ifname : string) : IO Z :=
  __ni_sysfs_printf "/sys/class/net/bonding_masters" ("+" ++ ifname ++ LF).

Definition ni_sysfs_bonding_delete_master (ifname : string) : IO Z :=
  __ni_sysfs_printf "/sys/class/net/bonding_masters" ("-" ++ ifname ++ LF).

Definition ni_sysfs_bonding_get_slaves (master : string) (list : list string)
  : IO (Z * Datatypes.list string) :=
  __ni_sysfs_read_list (__ni_sysfs_netif_attrpath master "bonding/slaves") list.

Definition ni_sysfs_bonding_add_slave (master slave : string) : IO Z :=
  __ni_sysfs_printf (__ni_sysfs_netif_attrpath master "bonding/slaves") ("+" ++ slave).

Definition ni_sysfs_bonding_delete_slave (master slave : string) : IO Z :=
  __ni_sysfs_printf (__ni_sysfs_netif_attrpath master "bonding/slaves") ("-" ++ slave).

Definition ni_sysfs_bonding_get_arp_targets (master : string) (result : list string)
  : IO (Z * list string) :=
  __ni_sysfs_read_list (__ni_sysfs_netif_attrpath master "bonding/arp_ip_target") result.

Definition ni_sysfs_bonding_add_arp_target (master ipaddress : string) : IO Z :=
  __ni_sysfs_printf (__ni_sysfs_netif_attrpath master "bonding/arp_ip_target")
    ("+" ++ ipaddress ++ LF).

Definition ni_sysfs_bonding_delete_arp_target (master ipaddress : string) : IO Z :=
  __ni_sysfs_printf (__ni_sysfs_netif_attrpath master "bonding/arp_ip_target")
    ("-" ++ ipaddress ++ LF).

(** Every byte of a string passes a test. *)
Fixpoint string_forall (p : ascii -> bool) (s : string) : bool :=
  match s with
  | EmptyString => true
  | String c s' => p c && string_forall p s'
  end.

(** A byte that can be part of a token: not a delimiter and not NUL. *)
Definition token_byte (c : ascii) : bool := negb (is_delim c) && negb (Ascii.eqb c "000").

(** A token is not empty and is made of token bytes. *)
Definition good_token (t : string) : Prop :=
  t <> "" /\ string_forall token_byte t = true.

(** Every line of the stream, its newline included, fits into one
    fgets(buffer, 256): [left] is the room left for the line being read. *)
Fixpoint lines_fit (left : nat) (s : string) : bool :=
  match s with
  | EmptyString => true
  | String c s' =>
      match left with
      | O => false
      | S left' => if Ascii.eqb c "010" then lines_fit 255 s' else lines_fit left' s'
      end
  end.

(** The string ends with a delimiter. *)
Fixpoint ends_with_delim (s : string) : bool :=
  match s with
  | EmptyString => false
  | String c EmptyString => is_delim c
  | String _ s' => ends_with_delim s'
  end.

(** A byte of a line: neither newline nor NUL. *)
Definition line_byte (c : ascii) : bool :=
  negb (Ascii.eqb c "010") && negb (Ascii.eqb c "000").


End WithStdio.

End Sysfs.

(** ** client/reachable.c: the reachability requirement *)

Module Reachable.

(** The two event kinds the check looks at (the enumeration of
    <wicked/netinfo.h> has more). *)
Inductive ni_event_t : Type :=
| NI_EVENT_ADDRESS_ACQUIRED
| NI_EVENT_RESOLVER_UPDATED.

(** The fields of the FSM the check reads: the global event sequence and,
    per event kind, the sequence number of its last occurrence (unsigned
    int, only compared here). *)
Record ni_objectmodel_fsm_t : Type := {
  fsm_event_seq : Z;
  last_event_seq : ni_event_t -> Z
}.

Record ni_reachability_check_t (sockaddr : Type) : Type := {
  hostname : string;
  family : Z;
  address_valid : bool;
  address : sockaddr
}.
Arguments hostname {sockaddr} _.
Arguments family {sockaddr} _.
Arguments address_valid {sockaddr} _.
Arguments address {sockaddr} _.

(** A requirement: the sequence number of its last evaluation and the data
    of the check (req->user_data). *)
Record ni_fsm_require_t (sockaddr : Type) : Type := {
  event_seq : Z;
  user_data : ni_reachability_check_t sockaddr
}.
Arguments event_seq {sockaddr} _.
Arguments user_data {sockaddr} _.

Inductive event (sockaddr : Type) : Type :=
| EvResolve (host : string) (af : Z) (timeout : Z) (rc : Z)
| EvReachable (host : string) (addr : sockaddr) (rc : Z).
Arguments EvResolve {sockaddr} _ _ _ _.
Arguments EvReachable {sockaddr} _ _ _.

(** The count a call returned. *)
Definition event_rc {sockaddr : Type} (e : event sockaddr) : Z :=
  match e with
  | EvResolve _ _ _ rc => rc
  | EvReachable _ _ rc => rc
  end.

Definition is_resolve {sockaddr : Type} (e : event sockaddr) : bool :=
  match e with
  | EvResolve _ _ _ _ => true
  | EvReachable _ _ _ => false
  end.

(** [ni_resolve_hostname_timed host af addr timeout] returns the count and
    the content of the address buffer after the call;
    [ni_host_is_reachable host addr] returns the count. *)
Class Network (sockaddr W : Type) : Type := {
  ni_resolve_hostname_timed : string -> Z -> sockaddr -> Z -> W -> (Z * sockaddr) * W;
  ni_host_is_reachable : string -> sockaddr -> W -> Z * W
}.

Section WithNetwork.
Context {sockaddr W : Type} `{!Network sockaddr W}.

Definition IO := M (world W (event sockaddr)).

Definition set_address_valid (v : bool) (check : ni_reachability_check_t sockaddr) :=
  {| hostname := hostname check; family := family check;
     address_valid := v; address := address check |}.

Definition set_address (a : sockaddr) (check : ni_reachability_check_t sockaddr) :=
  {| hostname := hostname check; family := family check;
     address_valid := address_valid check; address := a |}.

(** Lines 58 to 67: the address is valid, probe it. *)
Definition probe_address (seq : Z) (check : ni_reachability_check_t sockaddr)
  : IO (bool * ni_fsm_require_t sockaddr) :=
  let check := set_address_valid true check in
  let req := {| event_seq := seq; user_data := check |} in
  let* rc := call (EvReachable (hostname check) (address check))
                  (ni_host_is_reachable (hostname check) (address check)) in
  if rc <=? 0 then ret (false, req) else ret (true, req).

(** The check returns its verdict; the requirement is returned with it
    since the check writes to req->event_seq and to *req->user_data.  The
    worker argument of the C function is not used by it. *)
Definition ni_fsm_require_check_reachable (fsm : ni_objectmodel_fsm_t)
    (req : ni_fsm_require_t sockaddr) : IO (bool * ni_fsm_require_t sockaddr) :=
  let check := user_data req in
  if event_seq req =? last_event_seq fsm NI_EVENT_ADDRESS_ACQUIRED then
    ret (false, req)
  else
    let check :=
      if event_seq req <? last_event_seq fsm NI_EVENT_RESOLVER_UPDATED
      then set_address_valid false check else check in
    let seq := fsm_event_seq fsm in
    if negb (address_valid check) then
      let* r := call (fun r => EvResolve (hostname check) (family check) 1 (fst r))
                     (ni_resolve_hostname_timed (hostname check) (family check)
                                                (address check) 1) in
      let check := set_address (snd r) check in
      if fst r <=? 0 then ret (false, {| event_seq := seq; user_data := check |})
      else probe_address seq check
    else probe_address seq check.

(** The caller polls: one evaluation per FSM state it goes through. *)
Fixpoint evaluate_each (fsms : list ni_objectmodel_fsm_t)
    (req : ni_fsm_require_t sockaddr) : IO (list bool * ni_fsm_require_t sockaddr) :=
  match fsms with
  | [] => ret ([], req)
  | fsm :: later =>
      let* r := ni_fsm_require_check_reachable fsm req in
      let* rs := evaluate_each later (snd r) in
      ret (fst r :: fst rs, snd rs)
  end.

(** The invalidation property as the design document words it: the
    evaluation "attempts fresh resolution", that is, calls the resolver. *)
Definition attempts_resolution (fsm : ni_objectmodel_fsm_t)
    (req : ni_fsm_require_t sockaddr) (w : world W (event sockaddr)) : Prop :=
  exists e, e ∈ new_events w (snd (ni_fsm_require_check_reachable fsm req w))
            /\ is_resolve e = true.

(** The caching property as the design document words it: an evaluation
    followed by a second one, with no event in between, "reproduces the
    same boolean outcome without re-invoking the underlying predicate". *)
Definition reproduces_without_call (fsm : ni_objectmodel_fsm_t)
    (req : ni_fsm_require_t sockaddr) (w : world W (event sockaddr)) : Prop :=
  let '((b1, req1), w1) := ni_fsm_require_check_reachable fsm req w in
  let '((b2, _), w2) := ni_fsm_require_check_reachable fsm req1 w1 in
  b2 = b1 /\ new_events w1 w2 = [].

(** ni_ifworker_reachability_check_new builds the requirement from an XML
    node.  The node type, xml_node_get_attr, ni_addrfamily_name_to_type and
    ni_fsm_require_new belong to files that are not among the sources: the
    node is taken through its character data and its attribute lookup, the
    name lookup as a function to int, and ni_fsm_require_new through the
    event sequence [new_event_seq] it gives a new requirement.
    [zero_address] is the zeroed address that calloc leaves in the check. *)
Section Constructor.
Context {xml_node_t : Type}.
Variable cdata : xml_node_t -> option string.
Variable xml_node_get_attr : xml_node_t -> string -> option string.
Variable ni_addrfamily_name_to_type : string -> Z.
Variable new_event_seq : Z.
Variable zero_address : sockaddr.

(** AF_UNSPEC of <sys/socket.h>. *)
Definition AF_UNSPEC : Z := 0.

Definition ni_ifworker_reachability_check_new (node : xml_node_t)
  : option (ni_fsm_require_t sockaddr) :=
  match cdata node with
  | None => None
  | Some hostname =>
      let build afhint :=
        Some {| event_seq := new_event_seq;
                user_data := {| hostname := hostname; family := afhint;
                                address_valid := false;
                                address := zero_address |} |} in
      match xml_node_get_attr node "address-family" with
      | Some attr =>
          let afhint := ni_addrfamily_name_to_type attr in
          if afhint <? 0 then None else build afhint
      | None => build AF_UNSPEC
      end
  end.

End Constructor.


End WithNetwork.

End Reachable.

(** ** src/extension.c: running extension commands *)

Module Extension.

(** The status macros of <sys/wait.h> (glibc) and EINTR of <errno.h>. *)
Definition WEXITSTATUS (status : Z) : Z := Z.shiftr (Z.land status 0xff00) 8.
Definition WTERMSIG (status : Z) : Z := Z.land status 0x7f.
Definition WIFEXITED (status : Z) : bool := WTERMSIG status =? 0.
Definition WIFSTOPPED (status : Z) : bool := Z.land status 0xff =? 0x7f.
Definition EINTR : Z := 4.

(** The extension descriptor; expressions are values of the type
    [xpath_format] of the expression evaluator.  The link to the next
    extension of the registry is left out. *)
Record ni_extension_t (xpath_format : Type) : Type := {
  name : string;
  type : Z;
  supported_af : Z;
  pid_file_path : option xpath_format;
  start_command : option xpath_format;
  stop_command : option xpath_format;
  environment : list xpath_format
}.
Arguments name {xpath_format} _.
Arguments type {xpath_format} _.
Arguments supported_af {xpath_format} _.
Arguments pid_file_path {xpath_format} _.
Arguments start_command {xpath_format} _.
Arguments stop_command {xpath_format} _.
Arguments environment {xpath_format} _.

Inductive event (xpath_format : Type) : Type :=
| EvXpathEval (fmt : xpath_format) (ok : bool) (values : list string)
| EvSignal
| EvFork (pid : Z)
| EvPutenv (assignment : string)
| EvExecl (path : string) (argv : list string)
| EvWaitpid (pid : Z) (reaped status errno : Z)
| EvAccess (path : string) (rc : Z).
Arguments EvXpathEval {xpath_format} _ _ _.
Arguments EvSignal {xpath_format}.
Arguments EvFork {xpath_format} _.
Arguments EvPutenv {xpath_format} _.
Arguments EvExecl {xpath_format} _ _.
Arguments EvWaitpid {xpath_format} _ _ _ _.
Arguments EvAccess {xpath_format} _ _.

Definition is_xpath_eval {xpath_format : Type} (e : event xpath_format) : bool :=
  match e with
  | EvXpathEval _ _ _ => true
  | _ => false
  end.

(** [xpath_format_eval fmt xml] returns the C result and the strings it
    appended to the (empty) result array.  [signal_dfl] is
    signal(SIGCHLD, SIG_DFL).  [waitpid pid] returns the pid reaped, the
    status and errno.  [access path] is access(path, F_OK).  [putenv] and
    [execl] run in the child; [execl] returns only when it fails. *)
Class System (xpath_format xml_node W : Type) : Type := {
  xpath_format_eval : xpath_format -> xml_node -> W -> (bool * list string) * W;
  signal_dfl : W -> unit * W;
  fork : W -> Z * W;
  putenv : string -> W -> unit * W;
  execl : string -> list string -> W -> unit * W;
  waitpid : Z -> W -> (Z * Z * Z) * W;
  access : string -> W -> Z * W
}.

(** What the caller of a run sees: the value returned; nothing in the
    child, which becomes the shell or dies in ni_fatal; or a wait loop that
    has not ended after the rounds given. *)
Inductive outcome : Type :=
| Returned (rv : Z)
| NoReturn
| StillWaiting.

Inductive waited : Type :=
| WaitStatus (status : Z)
| WaitError
| WaitPending.

Section WithSystem.
Context {xpath_format xml_node W : Type} `{!System xpath_format xml_node W}.

Definition IO := M (world W (event xpath_format)).

Definition eval (fmt : xpath_format) (xml : xml_node) : IO (bool * list string) :=
  call (fun r => EvXpathEval fmt (fst r) (snd r)) (xpath_format_eval fmt xml).

(** ni_extension_active: 1 when the pid file exists, else 0. *)
Definition ni_extension_active (ex : ni_extension_t xpath_format)
    (ifname : string) (xml : xml_node) : IO Z :=
  match pid_file_path ex with
  | None => ret 0
  | Some pid_file =>
      let* r := eval pid_file xml in
      if negb (fst r) || negb (length (snd r) =? 1)%nat then ret 0
      else
        let path := hd "" (snd r) in
        let* rc := call (EvAccess path) (access path) in
        if rc =? 0 then ret 1 else ret 0
  end.

(** Lines 142 to 154: the loop over ex->environment; [None] stands for the
    jump to done, [env] is the array built so far. *)
Fixpoint expand_environment (exprs : list xpath_format) (xml : xml_node)
    (env : list string) : IO (option (list string)) :=
  match exprs with
  | [] => ret (Some env)
  | e :: rest =>
      let* r := eval e xml in
      if negb (fst r) || (1 <? length (snd r))%nat then ret None
      else
        expand_environment rest xml
          (if negb (length (snd r) =? 0)%nat then env ++ [hd "" (snd r)] else env)
  end.

(** Lines 178 and 179 (child): putenv of every string of [env]. *)
Fixpoint putenv_each (env : list string) : IO unit :=
  match env with
  | [] => ret tt
  | s :: rest => call (fun _ => EvPutenv s) (putenv s) ;;; putenv_each rest
  end.

(** Lines 186 to 201: the waitpid loop, for at most [rounds] calls. *)
Fixpoint wait_for_child (rounds : nat) (pid : Z) : IO waited :=
  match rounds with
  | O => ret WaitPending
  | S rounds' =>
      let* r := call (fun r => EvWaitpid pid (fst (fst r)) (snd (fst r)) (snd r))
                     (waitpid pid) in
      let reaped := fst (fst r) in
      let status := snd (fst r) in
      let errno := snd r in
      if reaped <? 0 then
        (if errno =? EINTR then wait_for_child rounds' pid else ret WaitError)
      else if negb (reaped =? pid) then wait_for_child rounds' pid
      else if WIFSTOPPED status then wait_for_child rounds' pid
      else ret (WaitStatus status)
  end.

(** Lines 203 to 223: the verdict on the status of the child. *)
Definition check_status (ex : ni_extension_t xpath_format) (ifname : string)
    (xml : xml_node) (command_name : string) (status : Z) : IO Z :=
  if negb (WIFEXITED status) then ret (-1)
  else if negb (WEXITSTATUS status =? 0) then ret (-1)
  else
    match pid_file_path ex with
    | Some _ =>
        let* is_active := ni_extension_active ex ifname xml in
        if String.eqb command_name "start" && (is_active =? 0) then ret (-1)
        else if String.eqb command_name "stop" && negb (is_active =? 0) then ret (-1)
        else ret 0
    | None => ret 0
    end.

Definition __ni_extension_run (rounds : nat) (ex : ni_extension_t xpath_format)
    (ifname : string) (xml : xml_node) (command_name : string)
    (command : option xpath_format) : IO outcome :=
  match command with
  | None => ret (Returned 0)
  | Some command =>
      let* env := expand_environment (environment ex) xml [] in
      match env with
      | None => ret (Returned (-1))
      | Some env =>
          let* r := eval command xml in
          if negb (fst r) || negb (length (snd r) =? 1)%nat then ret (Returned (-1))
          else
            let command_string := hd "" (snd r) in
            call (fun _ => EvSignal) signal_dfl ;;;
            let* pid := call EvFork fork in
            if pid <? 0 then ret (Returned (-1))
            else if pid =? 0 then
              putenv_each env ;;;
              call (fun _ => EvExecl "/bin/sh" ["sh"; "-c"; command_string])
                   (execl "/bin/sh" ["sh"; "-c"; command_string]) ;;;
              ret NoReturn
            else
              let* w := wait_for_child rounds pid in
              match w with
              | WaitPending => ret StillWaiting
              | WaitError => ret (Returned (-1))
              | WaitStatus status =>
                  let* rv := check_status ex ifname xml command_name status in
                  ret (Returned rv)
              end
      end
  end.

Definition ni_extension_start (rounds : nat) (ex : ni_extension_t xpath_format)
    (ifname : string) (xml : xml_node) : IO outcome :=
  __ni_extension_run rounds ex ifname xml "start" (start_command ex).

Definition ni_extension_stop (rounds : nat) (ex : ni_extension_t xpath_format)
    (ifname : string) (xml : xml_node) : IO outcome :=
  __ni_extension_run rounds ex ifname xml "stop" (stop_command ex).

(** [child_exit_status rounds ex xml command w w' status]: from [w], the
    run of [command] gets through the expressions, forks a child, and its
    wait loop ends in [w'] with the [status] of that child. *)
Definition child_exit_status (rounds : nat) (ex : ni_extension_t xpath_format)
    (xml : xml_node) (command : xpath_format)
    (w w' : world W (event xpath_format)) (status : Z) : Prop :=
  exists env w1 command_string w2 w3 pid w4,
    expand_environment (environment ex) xml [] w = (Some env, w1)
    /\ eval command xml w1 = ((true, [command_string]), w2)
    /\ call (fun _ => EvSignal) signal_dfl w2 = (tt, w3)
    /\ call EvFork fork w3 = (pid, w4)
    /\ 0 < pid
    /\ wait_for_child rounds pid w4 = (WaitStatus status, w').

(** The strings an expression evaluation produced. *)
Definition event_values (e : event xpath_format) : list string :=
  match e with
  | EvXpathEval _ _ values => values
  | _ => []
  end.

(** What the wait loop does with an answer of waitpid when it goes round
    again: interrupted by a signal, another process reaped, or the child
    stopped but not ended. *)
Definition keeps_waiting (pid : Z) (answer : Z * Z * Z) : bool :=
  let reaped := fst (fst answer) in
  let status := snd (fst answer) in
  let errno := snd answer in
  if reaped <? 0 then errno =? EINTR
  else if negb (reaped =? pid) then true
  else WIFSTOPPED status.

(** [waited_in_vain pid n w w']: from [w], [n] calls of waitpid in a row
    got answers on which the loop goes round again, and led to [w']. *)
Inductive waited_in_vain (pid : Z)
  : nat -> world W (event xpath_format) -> world W (event xpath_format) -> Prop :=
| waited_none w : waited_in_vain pid 0 w w
| waited_more n w answer w1 w2 :
    call (fun r => EvWaitpid pid (fst (fst r)) (snd (fst r)) (snd r)) (waitpid pid) w
    = (answer, w1) ->
    keeps_waiting pid answer = true ->
    waited_in_vain pid n w1 w2 ->
    waited_in_vain pid (S n) w w2.

(** The process a call of waitpid waited for. *)
Definition waited_pid (e : event xpath_format) : option Z :=
  match e with
  | EvWaitpid pid _ _ _ => Some pid
  | _ => None
  end.


End WithSystem.

(** Address families of <sys/socket.h> on Linux. *)
Definition AF_UNSPEC : Z := 0.
Definition AF_INET : Z := 2.
Definition AF_INET6 : Z := 10.

(** The registry of extensions: the list linked through ex->next, in
    declaration order.  NI_AF_MASK_IPV4 and NI_AF_MASK_IPV6 are constants of
    <wicked/netinfo.h>, which is not among the sources. *)
Section Registry.
Context {xpath_format : Type}.
Variables NI_AF_MASK_IPV4 NI_AF_MASK_IPV6 : Z.

(** ni_extension_new: a zeroed descriptor with its type and name, linked
    behind the last one.  The result is the list and the new descriptor. *)
Definition ni_extension_new (list : list (ni_extension_t xpath_format))
    (name : string) (type : Z)
  : Datatypes.list (ni_extension_t xpath_format) * ni_extension_t xpath_format :=
  let ex := {| name := name; type := type; supported_af := 0;
               pid_file_path := None; start_command := None;
               stop_command := None; environment := [] |} in
  ((list ++ [ex])%list, ex).

(** The mask of the switch on [af]: ~0 as unsigned int, a family mask, or
    [None] for the default case, which returns NULL. *)
Definition af_mask (af : Z) : option Z :=
  if af =? AF_UNSPEC then Some 0xffffffff
  else if af =? AF_INET then Some NI_AF_MASK_IPV4
  else if af =? AF_INET6 then Some NI_AF_MASK_IPV6
  else None.

(** (ex->supported_af & mask) && ex->type == type.  The type field is
    declared in a header that is not among the sources; for an int as for
    an unsigned int field, the comparison with the int argument holds when
    the two values agree modulo 2^32. *)
Definition matches (mask type : Z) (ex : ni_extension_t xpath_format) : bool :=
  negb (Z.land (supported_af ex) mask =? 0)
  && (Extension.type ex mod 2 ^ 32 =? type mod 2 ^ 32).

(** for (ex = head; ex; ex = ex->next) if (...) return ex; *)
Fixpoint first_match (mask type : Z) (list : list (ni_extension_t xpath_format))
  : option (ni_extension_t xpath_format) :=
  match list with
  | [] => None
  | ex :: next => if matches mask type ex then Some ex else first_match mask type next
  end.

Definition ni_extension_list_find (head : list (ni_extension_t xpath_format))
    (type af : Z) : option (ni_extension_t xpath_format) :=
  match af_mask af with
  | Some mask => first_match mask type head
  | None => None
  end.

End Registry.


End Extension.

(** ** src/buffer.h: byte buffers *)

Module Buffer.

(** size_t has 64 bits (LP64) and unsigned int 32; sums and differences of
    size_t values wrap around. *)
Definition size_t_wrap (z : Z) : Z := z mod 2 ^ 64.
Definition uint_wrap (z : Z) : Z := z mod 2 ^ 32.

(** EOF of <stdio.h>. *)
Definition EOF : Z := -1.

(** The buffer descriptor.  [base] is the content of the memory region that
    bp->base points to ([[]] for a null pointer); pointers into the region
    are offsets from its start. *)
Record ni_buffer_t : Type := {
  base : list Byte.byte;
  head : Z;
  tail : Z;
  size : Z;
  overflow : bool;
  underflow : bool;
  allocated : bool
}.

Definition set_tail (t : Z) (bp : ni_buffer_t) : ni_buffer_t :=
  {| base := base bp; head := head bp; tail := t; size := size bp;
     overflow := overflow bp; underflow := underflow bp; allocated := allocated bp |}.

Definition set_head (h : Z) (bp : ni_buffer_t) : ni_buffer_t :=
  {| base := base bp; head := h; tail := tail bp; size := size bp;
     overflow := overflow bp; underflow := underflow bp; allocated := allocated bp |}.

Definition set_base (b : list Byte.byte) (bp : ni_buffer_t) : ni_buffer_t :=
  {| base := b; head := head bp; tail := tail bp; size := size bp;
     overflow := overflow bp; underflow := underflow bp; allocated := allocated bp |}.

Definition set_overflow (bp : ni_buffer_t) : ni_buffer_t :=
  {| base := base bp; head := head bp; tail := tail bp; size := size bp;
     overflow := true; underflow := underflow bp; allocated := allocated bp |}.

Definition set_underflow (bp : ni_buffer_t) : ni_buffer_t :=
  {| base := base bp; head := head bp; tail := tail bp; size := size bp;
     overflow := overflow bp; underflow := true; allocated := allocated bp |}.

(** memcpy and memset into the region: [len] bytes at offset [off].  [None]
    when the bytes do not lie inside the region (undefined behaviour in C). *)
Definition region_write (region : list Byte.byte) (off len : Z) (bytes : list Byte.byte)
  : option (list Byte.byte) :=
  if (0 <=? off) && (0 <=? len) && (off + len <=? Z.of_nat (length region))
     && (Z.of_nat (length bytes) =? len)
  then Some (take (Z.to_nat off) region ++ bytes
             ++ drop (Z.to_nat (off + len)) region)%list
  else None.

(** memcpy out of the region. *)
Definition region_read (region : list Byte.byte) (off len : Z) : option (list Byte.byte) :=
  if (0 <=? off) && (0 <=? len) && (off + len <=? Z.of_nat (length region))
  then Some (take (Z.to_nat len) (drop (Z.to_nat off) region))
  else None.

Definition ni_buffer_init (region : list Byte.byte) (size : Z) : ni_buffer_t :=
  {| base := region; head := 0; tail := 0; size := size;
     overflow := false; underflow := false; allocated := false |}.

Definition ni_buffer_destroy (bp : ni_buffer_t) : ni_buffer_t :=
  {| base := []; head := 0; tail := 0; size := 0;
     overflow := false; underflow := false; allocated := false |}.

Definition ni_buffer_init_reader (region : list Byte.byte) (size : Z) : ni_buffer_t :=
  {| base := region; head := 0; tail := size; size := size;
     overflow := false; underflow := false; allocated := false |}.

Definition ni_buffer_clear (bp : ni_buffer_t) : ni_buffer_t :=
  set_head 0 (set_tail 0 bp).

(** [data] is [None] for a null pointer, else the bytes at the pointer.
    [None] as result: an access outside the region or past [data]. *)
Definition ni_buffer_put (bp : ni_buffer_t) (data : option (list Byte.byte)) (len : Z)
  : option ni_buffer_t :=
  if size_t_wrap (tail bp + len) >? size bp then Some (set_overflow bp)
  else
    match data with
    | Some bytes =>
        if len <=? Z.of_nat (length bytes) then
          match region_write (base bp) (tail bp) len (take (Z.to_nat len) bytes) with
          | Some region => Some (set_tail (size_t_wrap (tail bp + len)) (set_base region bp))
          | None => None
          end
        else None
    | None => Some (set_tail (size_t_wrap (tail bp + len)) bp)
    end.

Definition ni_buffer_putc (bp : ni_buffer_t) (cc : Byte.byte) : option ni_buffer_t :=
  ni_buffer_put bp (Some [cc]) 1.

Definition ni_buffer_pad (bp : ni_buffer_t) (min_size : Z) (padbyte : Byte.byte)
  : option ni_buffer_t :=
  if tail bp >=? min_size then Some bp
  else
    let len := size_t_wrap (min_size - tail bp) in
    match region_write (base bp) (tail bp) len (replicate (Z.to_nat len) padbyte) with
    | Some region => Some (set_tail min_size (set_base region bp))
    | None => None
    end.

(** The pointers returned by ni_buffer_head and ni_buffer_tail, as offsets. *)
Definition ni_buffer_head (bp : ni_buffer_t) : Z := head bp.
Definition ni_buffer_tail (bp : ni_buffer_t) : Z := tail bp.

Definition ni_buffer_count (bp : ni_buffer_t) : Z :=
  if tail bp >? head bp then uint_wrap (size_t_wrap (tail bp - head bp)) else 0.

Definition ni_buffer_tailroom (bp : ni_buffer_t) : Z :=
  if size bp >? tail bp then uint_wrap (size_t_wrap (size bp - tail bp)) else 0.

(** The result is the value returned, the bytes copied to [data] and the
    buffer. *)
Definition ni_buffer_get (bp : ni_buffer_t) (len : Z)
  : option (Z * list Byte.byte * ni_buffer_t) :=
  if size_t_wrap (head bp + len) >? tail bp then Some (-1, [], set_underflow bp)
  else
    match region_read (base bp) (head bp) len with
    | Some bytes => Some (0, bytes, set_head (size_t_wrap (head bp + len)) bp)
    | None => None
    end.

Definition ni_buffer_getc (bp : ni_buffer_t) : option (Z * ni_buffer_t) :=
  if head bp >=? tail bp then Some (EOF, bp)
  else
    match (if 0 <=? head bp then base bp !! Z.to_nat (head bp) else None) with
    | Some b => Some (Z.of_N (Byte.to_N b), set_head (size_t_wrap (head bp + 1)) bp)
    | None => None
    end.

Definition ni_buffer_reserve_head (bp : ni_buffer_t) (headroom : Z)
  : Z * ni_buffer_t :=
  if negb (head bp =? tail bp) then (-1, bp)
  else
    let t := size_t_wrap (tail bp + headroom) in
    (0, set_head t (set_tail t bp)).

(** The pointer results of the push and pull functions: [None] for NULL,
    else the offset into the region. *)
Definition ni_buffer_push_head (bp : ni_buffer_t) (count : Z)
  : option Z * ni_buffer_t :=
  if head bp <? count then (None, set_overflow bp)
  else
    let h := size_t_wrap (head bp - count) in
    (Some h, set_head h bp).

Definition ni_buffer_push_tail (bp : ni_buffer_t) (count : Z)
  : option Z * ni_buffer_t :=
  if size_t_wrap (size bp - tail bp) <? count then (None, set_overflow bp)
  else (Some (tail bp), set_tail (size_t_wrap (tail bp + count)) bp).

Definition ni_buffer_pull_head (bp : ni_buffer_t) (count : Z)
  : option Z * ni_buffer_t :=
  if size_t_wrap (tail bp - head bp) <? count then (None, set_overflow bp)
  else (Some (head bp), set_head (size_t_wrap (head bp + count)) bp).

(** The bytes the buffer holds: those from head to tail. *)
Definition content (bp : ni_buffer_t) : list Byte.byte :=
  take (Z.to_nat (tail bp - head bp)) (drop (Z.to_nat (head bp)) (base bp)).

(** The descriptor is consistent with its region, which lies in the
    address space. *)
Definition consistent (bp : ni_buffer_t) : Prop :=
  0 <= head bp /\ head bp <= tail bp /\ tail bp <= size bp
  /\ size bp <= Z.of_nat (length (base bp))
  /\ Z.of_nat (length (base bp)) < 2 ^ 64.

(** The operations that check head and tail against the bounds, for
    stating what all of them keep. *)
Inductive operation : Type :=
| Put (data : option (list Byte.byte)) (len : Z)
| Putc (cc : Byte.byte)
| Get (len : Z)
| Getc
| PushHead (count : Z)
| PushTail (count : Z)
| PullHead (count : Z)
| Clear.

Definition perform (op : operation) (bp : ni_buffer_t) : option ni_buffer_t :=
  match op with
  | Put data len => ni_buffer_put bp data len
  | Putc cc => ni_buffer_putc bp cc
  | Get len => option_map snd (ni_buffer_get bp len)
  | Getc => option_map snd (ni_buffer_getc bp)
  | PushHead count => Some (snd (ni_buffer_push_head bp count))
  | PushTail count => Some (snd (ni_buffer_push_tail bp count))
  | PullHead count => Some (snd (ni_buffer_pull_head bp count))
  | Clear => Some (ni_buffer_clear bp)
  end.

(** The size_t argument of an operation. *)
Definition argument (op : operation) : Z :=
  match op with
  | Put _ len | Get len => len
  | PushHead count | PushTail count | PullHead count => count
  | Putc _ | Getc | Clear => 0
  end.

Fixpoint perform_all (ops : list operation) (bp : ni_buffer_t) : option ni_buffer_t :=
  match ops with
  | [] => Some bp
  | op :: later =>
      match perform op bp with
      | Some bp' => perform_all later bp'
      | None => None
      end
  end.

End Buffer.


(** ** Concrete systems, to run the embedded functions on *)

Module Sim.

(** A sysfs file: reads deliver [content]; a line of [rejected] makes the
    fclose after it fail; [accepted] collects the lines written. *)
Record sysfs : Type := {
  content : string;
  rejected : list string;
  pending : string;
  accepted : list string
}.

#[global] Instance sysfs_stdio : Sysfs.Stdio sysfs := {|
  Sysfs.fopen_read := fun _ w => (Some (content w), w);
  Sysfs.fopen_write := fun _ w => (true, w);
  Sysfs.vfprintf := fun _ text w =>
    (tt, {| content := content w; rejected := rejected w;
            pending := text; accepted := accepted w |});
  Sysfs.fclose := fun _ w =>
    if bool_decide (pending w ∈ rejected w)
    then (-1, {| content := content w; rejected := rejected w;
                 pending := ""; accepted := accepted w |})
    else (0, {| content := content w; rejected := rejected w; pending := "";
                accepted := if String.eqb (pending w) "" then accepted w
                            else accepted w ++ [pending w] |})
|}.

(** A value for the bit NI_TRACE_IFCONFIG, and a debug mask that has it
    set. *)
Definition trace_ifconfig : Z := 1.
Definition debug_ifconfig : Z := 1.

Definition sysfs_world (text : string) (bad : list string)
  : world sysfs Sysfs.event :=
  World {| content := text; rejected := bad; pending := ""; accepted := [] |} [].

(** A scripted network: every call takes the next count of the script (0
    when it is at its end); a resolution that succeeds writes its count as
    the address.  Addresses are numbers. *)
#[global] Instance scripted_network : Reachable.Network Z (list Z) := {|
  Reachable.ni_resolve_hostname_timed := fun _ _ addr _ script =>
    match script with
    | [] => ((0, addr), [])
    | rc :: script' => ((rc, if 0 <? rc then rc else addr), script')
    end;
  Reachable.ni_host_is_reachable := fun _ _ script =>
    match script with
    | [] => (0, [])
    | rc :: script' => (rc, script')
    end
|}.

(** A network on which no name resolves and no host answers. *)
#[global] Instance dead_network : Reachable.Network Z unit := {|
  Reachable.ni_resolve_hostname_timed := fun _ _ addr _ w => ((0, addr), w);
  Reachable.ni_host_is_reachable := fun _ _ w => (0, w)
|}.

Definition fsm_at (seq acquired updated : Z) : Reachable.ni_objectmodel_fsm_t :=
  {| Reachable.fsm_event_seq := seq;
     Reachable.last_event_seq := fun e =>
       match e with
       | Reachable.NI_EVENT_ADDRESS_ACQUIRED => acquired
       | Reachable.NI_EVENT_RESOLVER_UPDATED => updated
       end |}.

Definition requirement (seq : Z) (host : string) (valid : bool) (addr : Z)
  : Reachable.ni_fsm_require_t Z :=
  {| Reachable.event_seq := seq;
     Reachable.user_data :=
       {| Reachable.hostname := host; Reachable.family := 0;
          Reachable.address_valid := valid; Reachable.address := addr |} |}.

Definition scripted_world (script : list Z) : world (list Z) (Reachable.event Z) :=
  World script [].

Definition dead_world : world unit (Reachable.event Z) := World tt [].

(** An expression is given by what it evaluates to; the document is not
    looked at.  The system forks the child [child_pid], answers waitpid
    from a script and knows the files that exist. *)
Definition expr : Type := bool * list string.

Record host : Type := {
  child_pid : Z;
  waits : list (Z * Z * Z);
  files : list string
}.

#[global] Instance host_system : Extension.System expr unit host := {|
  Extension.xpath_format_eval := fun e _ w => (e, w);
  Extension.signal_dfl := fun w => (tt, w);
  Extension.fork := fun w => (child_pid w, w);
  Extension.putenv := fun _ w => (tt, w);
  Extension.execl := fun _ _ w => (tt, w);
  Extension.waitpid := fun _ w =>
    match waits w with
    | [] => ((-1, 0, 10), w)
    | r :: later => (r, {| child_pid := child_pid w; waits := later; files := files w |})
    end;
  Extension.access := fun path w =>
    (if bool_decide (path ∈ files w) then 0 else -1, w)
|}.

Definition host_world (pid : Z) (script : list (Z * Z * Z)) (present : list string)
  : world host (Extension.event expr) :=
  World {| child_pid := pid; waits := script; files := present |} [].

Definition extension (pid_file : option expr) (start stop : option expr)
    (env : list expr) : Extension.ni_extension_t expr :=
  {| Extension.name := "dhcp4"; Extension.type := 0; Extension.supported_af := 1;
     Extension.pid_file_path := pid_file;
     Extension.start_command := start; Extension.stop_command := stop;
     Extension.environment := env |}.

(** A DHCP client extension: a pid file, two commands, and an environment
    of three expressions, the second of which yields no string. *)
Definition dhcp_pid_file : expr := (true, ["/var/run/dhcpcd-eth0.pid"]).
Definition dhcp_start : expr := (true, ["dhcpcd eth0"]).
Definition dhcp_stop : expr := (true, ["dhcpcd -k eth0"]).
Definition dhcp_environment : list expr :=
  [(true, ["IFNAME=eth0"]); (true, []); (true, ["MTU=1500"])].

Definition dhcp : Extension.ni_extension_t expr :=
  extension (Some dhcp_pid_file) (Some dhcp_start) (Some dhcp_stop) dhcp_environment.

(** The same with an environment whose second expression yields two
    strings, and with a pid file expression that does not evaluate. *)
Definition dhcp_bad_environment : Extension.ni_extension_t expr :=
  extension (Some dhcp_pid_file) (Some dhcp_start) (Some dhcp_stop)
    [(true, ["IFNAME=eth0"]); (true, ["A=1"; "B=2"]); (true, ["MTU=1500"])].

Definition unevaluable : expr := (false, []).
Definition no_string : expr := (true, []).

Definition dhcp_bad_pid_file : Extension.ni_extension_t expr :=
  extension (Some unevaluable) (Some dhcp_start) (Some dhcp_stop) dhcp_environment.

(** The child 77 is reaped with status 0 after an interrupted wait. *)
Definition child_exits_zero (present : list string)
  : world host (Extension.event expr) :=
  host_world 77 [(-1, 0, 4); (77, 0, 0)] present.

(** The bytes of a string, and a zeroed region of memory. *)
Definition bytes (s : string) : list Byte.byte := String.list_byte_of_string s.

Definition zeroed (n : nat) : list Byte.byte := replicate n Byte.x00.

(** A run of buffer operations, some of which do not fit. *)
Definition buffer_script : list Buffer.operation :=
  [Buffer.Put (Some (bytes "abcdef")) 6; Buffer.Get 2; Buffer.Putc Byte.x21;
   Buffer.Put None 9; Buffer.PullHead 1; Buffer.Getc; Buffer.PushTail 1;
   Buffer.Get 7; Buffer.PushHead 3; Buffer.Clear; Buffer.Putc Byte.x21].

(** Extensions for the registry: clients of type 1 under a name, supporting
    the address families of a mask (1 for IPv4, 2 for IPv6). *)
Definition client (name : string) (families : Z) : Extension.ni_extension_t expr :=
  {| Extension.name := name; Extension.type := 1; Extension.supported_af := families;
     Extension.pid_file_path := None; Extension.start_command := Some dhcp_start;
     Extension.stop_command := Some dhcp_stop; Extension.environment := [] |}.

Definition registry : list (Extension.ni_extension_t expr) :=
  [client "dhcp4" 1; client "dhcp6" 2; client "dhcp4-fallback" 1].

(** A DHCP client extension without a pid file expression, a host on which
    fork returns 0 (the run is the child), and hosts whose child exits with
    code 1 or is killed by signal 9. *)
Definition dhcp_no_pid_file : Extension.ni_extension_t expr :=
  extension None (Some dhcp_start) (Some dhcp_stop) dhcp_environment.

Definition in_child : world host (Extension.event expr) := host_world 0 [] [].

Definition child_exits_one : world host (Extension.event expr) :=
  host_world 77 [(77, 0x100, 0)] ["/var/run/dhcpcd-eth0.pid"].

Definition child_killed : world host (Extension.event expr) :=
  host_world 77 [(78, 0, 0); (77, 0x137f, 0); (77, 9, 0)] [].

(** XML nodes for the requirement constructor: the character data and the
    attributes; and the names of two address families. *)
Definition node : Type := option string * list (string * string).

Definition node_cdata (n : node) : option string := fst n.

Fixpoint assoc (attrs : list (string * string)) (name : string) : option string :=
  match attrs with
  | [] => None
  | (k, v) :: rest => if String.eqb k name then Some v else assoc rest name
  end.

Definition node_attr (n : node) (name : string) : option string := assoc (snd n) name.

Definition family_of_name (name : string) : Z :=
  if String.eqb name "ipv4" then 2 else if String.eqb name "ipv6" then 10 else -1.

Definition reachable_node : node :=
  (Some "example.org", [("address-family", "ipv6")]).

(** A sysfs without files: every fopen fails; the state counts the calls. *)
#[global] Instance missing_sysfs : Sysfs.Stdio nat := {|
  Sysfs.fopen_read := fun _ n => (None, S n);
  Sysfs.fopen_write := fun _ n => (false, S n);
  Sysfs.vfprintf := fun _ _ n => (tt, S n);
  Sysfs.fclose := fun _ n => (-1, S n)
|}.


End Sim.

(** * Properties *)

(** ** The trace only grows *)

Section TraceFacts.
Context {W E : Type}.
Implicit Types s : world W E.

Lemma new_events_app s s' (tr : list E) :
  trace s' = (trace s ++ tr)%list -> new_events s s' = tr.
Proof. unfold new_events. intros ->. apply drop_app_length. Qed.


Lemma call_trace {A : Type} (ev : A -> E) (f : W -> A * W) s a s' :
  call ev f s = (a, s') -> trace s' = (trace s ++ [ev a])%list.
Proof.
  unfold call. destruct (f (ext s)) as [a0 w0]. now intros [= <- <-].
Qed.

End TraceFacts.

(** ** The bonding list attribute *)

(** C1.  The partition of (current, desired) into the entries to remove, the
    entries to add and the unchanged ones: the entries to remove and to add
    are disjoint; those to remove together with the unchanged ones are, as a
    set, the current entries; those to add together with the unchanged ones
    are, as a set, the desired entries; and each part is a subsequence of the
    array it is taken from. *)
Theorem comm_partition (current desired : list string) :
  let '(to_remove, to_add, unchanged) :=
    Sysfs.ni_string_array_comm current desired in
  (list_to_set to_remove : gset string) ∩ list_to_set to_add = ∅
  /\ list_to_set (to_remove ++ unchanged) =@{gset string} list_to_set current
  /\ list_to_set (to_add ++ unchanged) =@{gset string} list_to_set desired
  /\ to_remove `sublist_of` current
  /\ to_add `sublist_of` desired
  /\ unchanged `sublist_of` current.
Proof.
  unfold Sysfs.ni_string_array_comm.
  repeat split; try apply sublist_filter.
  - apply set_eq. intros s.
    rewrite elem_of_intersection, !elem_of_list_to_set, !list_elem_of_filter.
    rewrite elem_of_empty. tauto.
  - apply set_eq. intros s.
    rewrite !elem_of_list_to_set, elem_of_app, !list_elem_of_filter.
    destruct (decide (s ∈ desired)); tauto.
  - apply set_eq. intros s.
    rewrite !elem_of_list_to_set, elem_of_app, !list_elem_of_filter.
    destruct (decide (s ∈ current)); tauto.
Qed.

(** The bound on the rounds of the read loop is enough: a call of fgets on
    a stream that is not at its end takes at least one byte, so more rounds
    than the stream has bytes change nothing. *)
Lemma fgets_bytes_rest (room : nat) (s : string) :
  (String.length (snd (Sysfs.fgets_bytes room s)) <= String.length s)%nat.
Proof.
  revert s. induction room as [|room IH]; intros s.
  - destruct s; cbn; lia.
  - destruct s as [|c s]; cbn; [lia|].
    destruct (Ascii.eqb c "010"); cbn; [lia|].
    specialize (IH s). destruct (Sysfs.fgets_bytes room s). cbn in *. lia.
Qed.

Lemma fgets_bytes_progress (room : nat) (c : ascii) (s : string) :
  (String.length (snd (Sysfs.fgets_bytes (S room) (String c s)))
   < String.length (String c s))%nat.
Proof.
  cbn. destruct (Ascii.eqb c "010"); cbn; [lia|].
  pose proof (fgets_bytes_rest room s) as Hle.
  destruct (Sysfs.fgets_bytes room s). cbn in *. lia.
Qed.

Lemma read_list_loop_rounds (n m : nat) (stream : string) (result : list string) :
  (String.length stream <= n)%nat ->
  (String.length stream <= m)%nat ->
  Sysfs.read_list_loop n stream result = Sysfs.read_list_loop m stream result.
Proof.
  revert m stream result.
  induction n as [|n IH]; intros m stream result Hn Hm.
  - destruct stream; [|cbn in Hn; lia]. now destruct m.
  - destruct stream as [|c s]; [now destruct m|].
    destruct m as [|m]; [cbn in Hm; lia|].
    cbn [Sysfs.read_list_loop String.eqb].
    pose proof (fgets_bytes_progress 254 c s) as Hlt.
    destruct (Sysfs.fgets_bytes 255 (String c s)) as [buffer rest].
    cbn [snd] in Hlt. apply IH; lia.
Qed.

(** Two lines of a sysfs file, read as a list. *)
Example read_list_loop_example :
  Sysfs.read_list_loop 32 ("eth0 eth1" ++ Sysfs.LF ++ " eth2" ++ Sysfs.LF) []
  = ["eth0"; "eth1"; "eth2"].
Proof. reflexivity. Qed.

Section SysfsProperties.
Context {W : Type} `{!Sysfs.Stdio W}.
Variables ni_debug NI_TRACE_IFCONFIG : Z.
Implicit Types w : world W Sysfs.event.

Lemma sysfs_printf_rc pathname text w rc w' :
  Sysfs.__ni_sysfs_printf pathname text w = (rc, w') -> rc = 0 \/ rc = -1.
Proof.
  unfold Sysfs.__ni_sysfs_printf, bind, ret.
  destruct (call _ _ w) as [[] w1]; cbn.
  - destruct (call _ _ w1) as [[] w2].
    destruct (call _ _ w2) as [rc' w3].
    destruct (rc' <? 0); intros [= <- _]; auto.
  - intros [= <- _]; auto.
Qed.

Lemma sysfs_read_list_events pathname result w r w1 :
  Sysfs.__ni_sysfs_read_list pathname result w = (r, w1) ->
  Forall (fun e => Sysfs.is_write e = false) (new_events w w1).
Proof.
  unfold Sysfs.__ni_sysfs_read_list, bind, ret.
  destruct (call _ _ w) as [fp w0] eqn:Hopen.
  apply call_trace in Hopen.
  destruct fp as [stream|].
  - destruct (call _ _ w0) as [rc w2] eqn:Hclose.
    apply call_trace in Hclose. intros [= _ <-].
    rewrite (new_events_app w w2 [Sysfs.EvFopenRead pathname (Some stream);
                                  Sysfs.EvFclose pathname rc]).
    + repeat constructor.
    + rewrite Hclose, Hopen, <- app_assoc. reflexivity.
  - intros [= _ <-].
    rewrite (new_events_app w w0 [Sysfs.EvFopenRead pathname None]) by assumption.
    repeat constructor.
Qed.

Lemma comm_same_set (current desired : list string) :
  list_to_set current =@{gset string} list_to_set desired ->
  filter (fun s => s ∉ desired) current = [] /\
  filter (fun s => s ∉ current) desired = [].
Proof.
  intros Hset.
  assert (Hin : forall s, s ∈ current <-> s ∈ desired).
  { intros s. rewrite <- !(elem_of_list_to_set (C := gset string)), Hset. tauto. }
  split.
  - apply elem_of_nil_inv. intros s [Hn Hs]%list_elem_of_filter.
    apply Hn, Hin, Hs.
  - apply elem_of_nil_inv. intros s [Hn Hs]%list_elem_of_filter.
    apply Hn, Hin, Hs.
Qed.

(** C6.  When the read of the attribute succeeds and there is nothing to
    remove and nothing to add (as when the desired entries are, as a set,
    the current ones), the update returns 0 in the world the read left: no
    call that writes is made. *)
Theorem set_list_attr_unchanged ifname attr_name (list current : list string) w w1 :
  Sysfs.__ni_sysfs_read_list (Sysfs.attr_path ifname attr_name) [] w
    = ((0, current), w1) ->
  (let '(to_remove, to_add, _) := Sysfs.ni_string_array_comm current list in
   to_remove = [] /\ to_add = [])
  \/ list_to_set current =@{gset string} list_to_set list ->
  Sysfs.ni_sysfs_bonding_set_list_attr ni_debug NI_TRACE_IFCONFIG
    ifname attr_name list w = (Sysfs.Returned 0, w1)
  /\ Forall (fun e => Sysfs.is_write e = false) (new_events w w1).
Proof.
  intros Hread Hsame. split.
  - assert (Hnil : filter (fun s => s ∉ list) current = [] /\
                   filter (fun s => s ∉ current) list = []).
    { destruct Hsame as [Hnil | Hset]; [exact Hnil | now apply comm_same_set]. }
    destruct Hnil as [Hdel Hadd].
    unfold Sysfs.ni_sysfs_bonding_set_list_attr, bind.
    rewrite Hread. cbn. rewrite Hdel, Hadd. reflexivity.
  - eapply sysfs_read_list_events, Hread.
Qed.

Lemma lines_written_app pathname (l1 l2 : list string) w w1 w2 :
  Sysfs.lines_written pathname l1 w w1 ->
  Sysfs.lines_written pathname l2 w1 w2 ->
  Sysfs.lines_written pathname (l1 ++ l2) w w2.
Proof.
  induction 1 as [|line lines w w0 w1 Hline _ IH]; intros Hrest; cbn.
  - exact Hrest.
  - econstructor; [exact Hline | exact (IH Hrest)].
Qed.

(** The calls behind a line that was written: the file was opened for
    writing, the line printed and the stream closed. *)
Lemma sysfs_printf_written pathname text w w' :
  Sysfs.__ni_sysfs_printf pathname text w = (0, w') ->
  exists rc,
    trace w' = (trace w ++ [Sysfs.EvFopenWrite pathname true;
                            Sysfs.EvVfprintf pathname text;
                            Sysfs.EvFclose pathname rc])%list.
Proof.
  unfold Sysfs.__ni_sysfs_printf, bind, ret.
  destruct (call _ _ w) as [[] w1] eqn:Hopen; cbn; [|discriminate].
  destruct (call _ _ w1) as [[] w2] eqn:Hprint.
  destruct (call _ _ w2) as [rc w3] eqn:Hclose.
  apply call_trace in Hopen, Hprint, Hclose.
  destruct (rc <? 0); [discriminate|]. intros [= <-].
  exists rc. rewrite Hclose, Hprint, Hopen, <- !app_assoc. reflexivity.
Qed.

(** The calls that write, behind the lines written: per line, in order, one
    fopen for writing and one vfprintf of the line. *)
Lemma lines_written_events pathname (lines : list string) w w' :
  Sysfs.lines_written pathname lines w w' ->
  filter (fun e => Sysfs.is_write e = true) (new_events w w')
  = flat_map (fun line => [Sysfs.EvFopenWrite pathname true;
                           Sysfs.EvVfprintf pathname line]) lines.
Proof.
  intros Hlines.
  enough (exists tr,
            trace w' = (trace w ++ tr)%list
            /\ filter (fun e => Sysfs.is_write e = true) tr
               = flat_map (fun line => [Sysfs.EvFopenWrite pathname true;
                                        Sysfs.EvVfprintf pathname line]) lines)
    as (tr & Htrace & Hwrites).
  { now rewrite (new_events_app w w' tr Htrace). }
  induction Hlines as [w|line lines w w1 w2 Hline _ (tr & Htrace & Hwrites)].
  - exists []. split; [now rewrite app_nil_r | reflexivity].
  - destruct (sysfs_printf_written _ _ _ _ Hline) as (rc & Hone).
    exists ([Sysfs.EvFopenWrite pathname true; Sysfs.EvVfprintf pathname line;
             Sysfs.EvFclose pathname rc] ++ tr)%list.
    split; [rewrite Htrace, Hone, <- app_assoc; reflexivity|].
    rewrite filter_app, Hwrites. reflexivity.
Qed.

(** The loop over an array either writes every line, or stops at the first
    line whose write fails, after the lines before it. *)
Lemma write_each_spec pathname sign (values : list string) w :
  let line v := (sign ++ v ++ Sysfs.LF)%string in
  match Sysfs.write_each pathname sign values w with
  | (true, w') => Sysfs.lines_written pathname (map line values) w w'
  | (false, w') =>
      exists before v after w2,
        values = (before ++ v :: after)%list
        /\ Sysfs.lines_written pathname (map line before) w w2
        /\ Sysfs.__ni_sysfs_printf pathname (line v) w2 = (-1, w')
  end.
Proof.
  intros line. revert w.
  induction values as [|v rest IH]; intros w; cbn.
  - constructor.
  - unfold bind.
    destruct (Sysfs.__ni_sysfs_printf pathname (sign ++ v ++ Sysfs.LF)%string w)
      as [rc w1] eqn:Hprintf.
    destruct (sysfs_printf_rc _ _ _ _ _ Hprintf) as [-> | ->]; cbn.
    + specialize (IH w1).
      destruct (Sysfs.write_each pathname sign rest w1) as [[] w'].
      * econstructor; [exact Hprintf | exact IH].
      * destruct IH as (before & v' & after & w2 & -> & Hbefore & Hfail).
        exists (v :: before), v', after, w2. repeat split.
        -- econstructor; [exact Hprintf | exact Hbefore].
        -- exact Hfail.
    + exists [], v, rest, w. repeat split; [constructor | exact Hprintf].
Qed.

(** A trace loop stays inside the array exactly when its last index does. *)
Lemma trace_each_inside (data : list string) (i count : nat) :
  (i + count <= length data)%nat -> Sysfs.trace_each data i count = true.
Proof.
  revert i. induction count as [|count IH]; intros i Hfit; [reflexivity|].
  cbn. destruct (data !! i) eqn:Hread.
  - apply IH. lia.
  - apply lookup_ge_None in Hread. lia.
Qed.

Lemma trace_each_outside (data : list string) (i count : nat) :
  (i <= length data < i + count)%nat -> Sysfs.trace_each data i count = false.
Proof.
  revert i. induction count as [|count IH]; intros i Hpast; [lia|].
  cbn. destruct (data !! i) eqn:Hread; [|reflexivity].
  apply lookup_lt_Some in Hread. apply IH. lia.
Qed.

(** The trace block reads outside an array exactly when there are more
    unchanged entries than entries to add. *)
Lemma trace_update_spec (delete add unchanged : list string) :
  Sysfs.trace_update delete add unchanged
  = bool_decide (length unchanged <= length add)%nat.
Proof.
  unfold Sysfs.trace_update.
  rewrite !trace_each_inside by lia. cbn.
  case_bool_decide as Hfit.
  - apply trace_each_inside. lia.
  - apply trace_each_outside. lia.
Qed.

(** C4.  With the ifconfig trace enabled, an update that has something to
    remove or to add, and more unchanged entries than entries to add, does
    not apply its removals.  The loop that traces the unchanged entries
    reads add.data[i] for every i below unchanged.count, and so comes to a
    read past the last element of the add array before the first
    __ni_sysfs_printf: no call that writes is made, the world is the one
    the read of the attribute left. *)
Theorem set_list_attr_trace_out_of_bounds ifname attr_name
    (current to_remove to_add unchanged list : list string) w w1 :
  Sysfs.__ni_sysfs_read_list (Sysfs.attr_path ifname attr_name) [] w
    = ((0, current), w1) ->
  Sysfs.ni_string_array_comm current list = (to_remove, to_add, unchanged) ->
  to_remove <> [] \/ to_add <> [] ->
  Z.land ni_debug NI_TRACE_IFCONFIG <> 0 ->
  (length to_add < length unchanged)%nat ->
  Sysfs.ni_sysfs_bonding_set_list_attr ni_debug NI_TRACE_IFCONFIG
    ifname attr_name list w = (Sysfs.OutOfBounds, w1)
  /\ Forall (fun e => Sysfs.is_write e = false) (new_events w w1).
Proof.
  intros Hread Hcomm Hdiff Htrace Hmore.
  split; [|eapply sysfs_read_list_events, Hread].
  unfold Sysfs.ni_sysfs_bonding_set_list_attr, bind.
  rewrite Hread.
  cbn -[Sysfs.ni_string_array_comm Sysfs.write_each Sysfs.trace_update Z.land].
  rewrite Hcomm.
  assert (Hgo : ((length to_add =? 0)%nat && (length to_remove =? 0)%nat) = false).
  { destruct to_remove, to_add; cbn; try reflexivity. now destruct Hdiff. }
  rewrite Hgo. apply Z.eqb_neq in Htrace. rewrite Htrace. cbn [negb].
  rewrite trace_update_spec, bool_decide_eq_false_2 by lia. reflexivity.
Qed.

(** Outside that case (the trace is off, or the unchanged entries are no
    more than the entries to add) an update with something to remove or to
    add writes the removal lines in the order of the entries to remove and
    then the addition lines in the order of the entries to add.  Either
    every write returns 0 and the update returns 0, the calls that write
    being an fopen and a vfprintf per line, in that order; or the update
    returns -1 in the world left by the first write that fails: the lines
    before it stay written and no line after it is tried. *)
Lemma set_list_attr_order ifname attr_name
    (current to_remove to_add unchanged list : list string) w w1 :
  let pathname := Sysfs.attr_path ifname attr_name in
  let lines := Sysfs.update_lines to_remove to_add in
  Sysfs.__ni_sysfs_read_list pathname [] w = ((0, current), w1) ->
  Sysfs.ni_string_array_comm current list = (to_remove, to_add, unchanged) ->
  to_remove <> [] \/ to_add <> [] ->
  Z.land ni_debug NI_TRACE_IFCONFIG = 0
  \/ (length unchanged <= length to_add)%nat ->
  let '(rv, w') :=
    Sysfs.ni_sysfs_bonding_set_list_attr ni_debug NI_TRACE_IFCONFIG
      ifname attr_name list w in
  (rv = Sysfs.Returned 0 /\ Sysfs.lines_written pathname lines w1 w'
   /\ filter (fun e => Sysfs.is_write e = true) (new_events w1 w')
      = flat_map (fun line => [Sysfs.EvFopenWrite pathname true;
                               Sysfs.EvVfprintf pathname line]) lines)
  \/ (rv = Sysfs.Returned (-1) /\
      exists before line after w2,
        lines = (before ++ line :: after)%list
        /\ Sysfs.lines_written pathname before w1 w2
        /\ Sysfs.__ni_sysfs_printf pathname line w2 = (-1, w')).
Proof.
  intros pathname lines Hread Hcomm Hdiff Hquiet.
  unfold Sysfs.ni_sysfs_bonding_set_list_attr, bind.
  fold pathname. rewrite Hread.
  cbn -[Sysfs.ni_string_array_comm Sysfs.write_each Sysfs.trace_update Z.land].
  rewrite Hcomm.
  assert (Hgo : ((length to_add =? 0)%nat && (length to_remove =? 0)%nat) = false).
  { destruct to_remove, to_add; cbn; try reflexivity. now destruct Hdiff. }
  rewrite Hgo.
  assert (Htraced : (if negb (Z.land ni_debug NI_TRACE_IFCONFIG =? 0)
                     then Sysfs.trace_update to_remove to_add unchanged
                     else true) = true).
  { destruct Hquiet as [-> | Hfit]; [reflexivity|].
    destruct (negb _); [|reflexivity].
    rewrite trace_update_spec. now apply bool_decide_eq_true_2. }
  rewrite Htraced. cbn [negb].
  pose proof (write_each_spec pathname "-" to_remove w1) as Hdel. cbn zeta in Hdel.
  destruct (Sysfs.write_each pathname "-" to_remove w1) as [[] w2]; cbn.
  - pose proof (write_each_spec pathname "+" to_add w2) as Hadd. cbn zeta in Hadd.
    destruct (Sysfs.write_each pathname "+" to_add w2) as [[] w3]; cbn.
    + left. split; [reflexivity|].
      assert (Hall : Sysfs.lines_written pathname lines w1 w3)
        by (eapply lines_written_app; [exact Hdel | exact Hadd]).
      split; [exact Hall | now apply lines_written_events].
    + right. split; [reflexivity|].
      destruct Hadd as (before & v & after & w4 & -> & Hbefore & Hfail).
      exists (map (fun v => "-" ++ v ++ Sysfs.LF)%string to_remove
              ++ map (fun v => "+" ++ v ++ Sysfs.LF)%string before)%list,
             ("+" ++ v ++ Sysfs.LF)%string,
             (map (fun v => "+" ++ v ++ Sysfs.LF)%string after), w4.
      repeat split.
      * unfold lines, Sysfs.update_lines.
        rewrite map_app, <- app_assoc. reflexivity.
      * eapply lines_written_app; [exact Hdel | exact Hbefore].
      * exact Hfail.
  - right. split; [reflexivity|].
    destruct Hdel as (before & v & after & w4 & -> & Hbefore & Hfail).
    exists (map (fun v => "-" ++ v ++ Sysfs.LF)%string before),
           ("-" ++ v ++ Sysfs.LF)%string,
           (map (fun v => "-" ++ v ++ Sysfs.LF)%string after
            ++ map (fun v => "+" ++ v ++ Sysfs.LF)%string to_add)%list, w4.
    repeat split.
    + unfold lines, Sysfs.update_lines.
      rewrite map_app, <- app_assoc. reflexivity.
    + exact Hbefore.
    + exact Hfail.
Qed.

End SysfsProperties.

(** Example 1 of the design document, through the theorem: the attribute
    holds ethN and ethN is asked for. *)
Lemma set_list_attr_unchanged_witness :
  Sysfs.ni_sysfs_bonding_set_list_attr Sim.debug_ifconfig Sim.trace_ifconfig
    "bond0" "slaves" ["ethN"] (Sim.sysfs_world ("ethN" ++ Sysfs.LF) [])
  = (Sysfs.Returned 0,
     snd (Sysfs.__ni_sysfs_read_list (Sysfs.attr_path "bond0" "slaves") []
            (Sim.sysfs_world ("ethN" ++ Sysfs.LF) [])))
  /\ Forall (fun e => Sysfs.is_write e = false)
       (new_events
          (Sim.sysfs_world ("ethN" ++ Sysfs.LF) [])
          (snd (Sysfs.__ni_sysfs_read_list (Sysfs.attr_path "bond0" "slaves") []
                  (Sim.sysfs_world ("ethN" ++ Sysfs.LF) [])))).
Proof.
  apply (set_list_attr_unchanged Sim.debug_ifconfig Sim.trace_ifconfig
           "bond0" "slaves" ["ethN"] ["ethN"]).
  - vm_compute. reflexivity.
  - left. vm_compute. split; reflexivity.
Defined.

(** The trace is on, eth0 and eth1 are there and eth1 alone is asked for:
    eth0 is to remove, nothing is to add and eth1 is unchanged.  The loop
    over the unchanged entries reads add.data[0] of the empty add array,
    and the removal of eth0 is not written. *)
Lemma set_list_attr_trace_out_of_bounds_witness :
  Sysfs.ni_sysfs_bonding_set_list_attr Sim.debug_ifconfig Sim.trace_ifconfig
    "bond0" "slaves" ["eth1"] (Sim.sysfs_world ("eth0 eth1" ++ Sysfs.LF) [])
  = (Sysfs.OutOfBounds,
     snd (Sysfs.__ni_sysfs_read_list (Sysfs.attr_path "bond0" "slaves") []
            (Sim.sysfs_world ("eth0 eth1" ++ Sysfs.LF) [])))
  /\ Forall (fun e => Sysfs.is_write e = false)
       (new_events
          (Sim.sysfs_world ("eth0 eth1" ++ Sysfs.LF) [])
          (snd (Sysfs.__ni_sysfs_read_list (Sysfs.attr_path "bond0" "slaves") []
                  (Sim.sysfs_world ("eth0 eth1" ++ Sysfs.LF) [])))).
Proof.
  apply (set_list_attr_trace_out_of_bounds Sim.debug_ifconfig Sim.trace_ifconfig
           "bond0" "slaves" ["eth0"; "eth1"] ["eth0"] [] ["eth1"] ["eth1"]).
  - vm_compute. reflexivity.
  - vm_compute. reflexivity.
  - left. discriminate.
  - vm_compute. discriminate.
  - cbn. lia.
Defined.

(** The same update, run with the trace on and with the trace off: with
    the trace on nothing reaches the backend; with the trace off the
    removal of eth0 is written and the update returns 0. *)
Example set_list_attr_trace_on_and_off :
  let run debug :=
    Sysfs.ni_sysfs_bonding_set_list_attr debug Sim.trace_ifconfig
      "bond0" "slaves" ["eth1"] (Sim.sysfs_world ("eth0 eth1" ++ Sysfs.LF) []) in
  (fst (run Sim.debug_ifconfig) = Sysfs.OutOfBounds
   /\ Sim.accepted (ext (snd (run Sim.debug_ifconfig))) = []
   /\ trace (snd (run Sim.debug_ifconfig))
      = [Sysfs.EvFopenRead "/sys/class/net/bond0/bonding/slaves"
           (Some ("eth0 eth1" ++ Sysfs.LF)%string);
         Sysfs.EvFclose "/sys/class/net/bond0/bonding/slaves" 0])
  /\ (fst (run 0) = Sysfs.Returned 0
      /\ Sim.accepted (ext (snd (run 0))) = ["-eth0" ++ Sysfs.LF]%string
      /\ trace (snd (run 0))
         = [Sysfs.EvFopenRead "/sys/class/net/bond0/bonding/slaves"
              (Some ("eth0 eth1" ++ Sysfs.LF)%string);
            Sysfs.EvFclose "/sys/class/net/bond0/bonding/slaves" 0;
            Sysfs.EvFopenWrite "/sys/class/net/bond0/bonding/slaves" true;
            Sysfs.EvVfprintf "/sys/class/net/bond0/bonding/slaves"
              ("-eth0" ++ Sysfs.LF);
            Sysfs.EvFclose "/sys/class/net/bond0/bonding/slaves" 0]).
Proof. vm_compute. repeat split; reflexivity. Qed.

(** Example 2 of the design document, with the trace off: eth0 and eth1 are
    there, eth1 and eth2 are asked for. *)
Lemma set_list_attr_order_example :
  let pathname := Sysfs.attr_path "bond0" "slaves" in
  let w := Sim.sysfs_world ("eth0 eth1" ++ Sysfs.LF) [] in
  let w1 := snd (Sysfs.__ni_sysfs_read_list pathname [] w) in
  let lines := Sysfs.update_lines ["eth0"] ["eth2"] in
  let '(rv, w') :=
    Sysfs.ni_sysfs_bonding_set_list_attr 0 Sim.trace_ifconfig
      "bond0" "slaves" ["eth1"; "eth2"] w in
  (rv = Sysfs.Returned 0 /\ Sysfs.lines_written pathname lines w1 w'
   /\ filter (fun e => Sysfs.is_write e = true) (new_events w1 w')
      = flat_map (fun line => [Sysfs.EvFopenWrite pathname true;
                               Sysfs.EvVfprintf pathname line]) lines)
  \/ (rv = Sysfs.Returned (-1) /\
      exists before line after w2,
        lines = (before ++ line :: after)%list
        /\ Sysfs.lines_written pathname before w1 w2
        /\ Sysfs.__ni_sysfs_printf pathname line w2 = (-1, w')).
Proof.
  apply (set_list_attr_order 0 Sim.trace_ifconfig "bond0" "slaves"
           ["eth0"; "eth1"] ["eth0"] ["eth2"] ["eth1"] ["eth1"; "eth2"]).
  - vm_compute. reflexivity.
  - vm_compute. reflexivity.
  - left. discriminate.
  - left. reflexivity.
Defined.

(** Example 2, run: the removal of eth0 is written before the addition of
    eth2. *)
Example set_list_attr_example_2 :
  let '(rv, w') :=
    Sysfs.ni_sysfs_bonding_set_list_attr 0 Sim.trace_ifconfig
      "bond0" "slaves" ["eth1"; "eth2"]
      (Sim.sysfs_world ("eth0 eth1" ++ Sysfs.LF) []) in
  rv = Sysfs.Returned 0
  /\ Sim.accepted (ext w') = ["-eth0" ++ Sysfs.LF; "+eth2" ++ Sysfs.LF]%string.
Proof. vm_compute. split; reflexivity. Qed.

(** A write that fails: the backend rejects the addition of eth2; the
    removal of eth0 stays and eth3 is not tried. *)
Example set_list_attr_partial :
  let '(rv, w') :=
    Sysfs.ni_sysfs_bonding_set_list_attr 0 Sim.trace_ifconfig
      "bond0" "slaves" ["eth1"; "eth2"; "eth3"]
      (Sim.sysfs_world ("eth0 eth1" ++ Sysfs.LF) ["+eth2" ++ Sysfs.LF]%string) in
  rv = Sysfs.Returned (-1) /\ Sim.accepted (ext w') = ["-eth0" ++ Sysfs.LF]%string
  /\ filter (fun e => bool_decide (Sysfs.is_write e = true)) (trace w')
     = [Sysfs.EvFopenWrite "/sys/class/net/bond0/bonding/slaves" true;
        Sysfs.EvVfprintf "/sys/class/net/bond0/bonding/slaves" ("-eth0" ++ Sysfs.LF);
        Sysfs.EvFopenWrite "/sys/class/net/bond0/bonding/slaves" true;
        Sysfs.EvVfprintf "/sys/class/net/bond0/bonding/slaves" ("+eth2" ++ Sysfs.LF)].
Proof. vm_compute. repeat split; reflexivity. Qed.

(** ** The reachability requirement *)

Section ReachableProperties.
Context {sockaddr W : Type} `{!Reachable.Network sockaddr W}.
Implicit Types (w : world W (Reachable.event sockaddr))
               (req : Reachable.ni_fsm_require_t sockaddr)
               (fsm : Reachable.ni_objectmodel_fsm_t).

Local Abbreviation ACQUIRED := Reachable.NI_EVENT_ADDRESS_ACQUIRED.
Local Abbreviation UPDATED := Reachable.NI_EVENT_RESOLVER_UPDATED.

(** The probe of a valid address: one call, whose count decides. *)
Lemma probe_address_spec seq (check : Reachable.ni_reachability_check_t sockaddr) w :
  let host := Reachable.hostname check in
  let addr := Reachable.address check in
  let '(rc, x) := Reachable.ni_host_is_reachable host addr (ext w) in
  Reachable.probe_address seq check w
  = ((0 <? rc,
      {| Reachable.event_seq := seq;
         Reachable.user_data := Reachable.set_address_valid true check |}),
     World x (trace w ++ [Reachable.EvReachable host addr rc])).
Proof.
  cbn zeta. unfold Reachable.probe_address, bind, call, ret. cbn.
  destruct (Reachable.ni_host_is_reachable _ _ (ext w)) as [rc x].
  rewrite Z.leb_antisym. now destruct (0 <? rc).
Qed.

(** When the skip rule applies the check returns FALSE and touches neither
    the requirement nor the world. *)
Lemma check_reachable_skip fsm req w :
  Reachable.event_seq req = Reachable.last_event_seq fsm ACQUIRED ->
  Reachable.ni_fsm_require_check_reachable fsm req w = ((false, req), w).
Proof.
  intros Hskip. unfold Reachable.ni_fsm_require_check_reachable.
  now rewrite Hskip, Z.eqb_refl.
Qed.

(** With no valid address to use, the check starts with the resolver. *)
Lemma check_reachable_resolves fsm req w :
  Reachable.event_seq req <> Reachable.last_event_seq fsm ACQUIRED ->
  Reachable.address_valid (Reachable.user_data req) = false
  \/ Reachable.event_seq req < Reachable.last_event_seq fsm UPDATED ->
  let check := Reachable.user_data req in
  let host := Reachable.hostname check in
  let af := Reachable.family check in
  let seq := Reachable.fsm_event_seq fsm in
  let '((rc, addr), x) :=
    Reachable.ni_resolve_hostname_timed host af (Reachable.address check) 1 (ext w) in
  let check' := Reachable.set_address addr (Reachable.set_address_valid false check) in
  let w1 := World x (trace w ++ [Reachable.EvResolve host af 1 rc]) in
  Reachable.ni_fsm_require_check_reachable fsm req w
  = if rc <=? 0
    then ((false, {| Reachable.event_seq := seq; Reachable.user_data := check' |}), w1)
    else Reachable.probe_address seq check' w1.
Proof.
  intros Hskip Hinvalid. cbn zeta.
  unfold Reachable.ni_fsm_require_check_reachable.
  apply Z.eqb_neq in Hskip. rewrite Hskip.
  destruct req as [seq0 [host af valid addr0]]; cbn in *.
  assert (Hvalid : Reachable.address_valid
            (if seq0 <? Reachable.last_event_seq fsm UPDATED
             then Reachable.set_address_valid false
                    {| Reachable.hostname := host; Reachable.family := af;
                       Reachable.address_valid := valid; Reachable.address := addr0 |}
             else {| Reachable.hostname := host; Reachable.family := af;
                     Reachable.address_valid := valid; Reachable.address := addr0 |})
          = false).
  { destruct (seq0 <? Reachable.last_event_seq fsm UPDATED) eqn:Hstale; [reflexivity|].
    destruct Hinvalid as [-> | Hlt]; [reflexivity|].
    apply Z.ltb_ge in Hstale. lia. }
  rewrite Hvalid. cbn.
  destruct (seq0 <? Reachable.last_event_seq fsm UPDATED) eqn:Hstale; cbn in *.
  - unfold bind, call; cbn.
    destruct (Reachable.ni_resolve_hostname_timed host af addr0 1 (ext w))
      as [[rc addr] x]; cbn.
    destruct (rc <=? 0); reflexivity.
  - subst valid. unfold bind, call; cbn.
    destruct (Reachable.ni_resolve_hostname_timed host af addr0 1 (ext w))
      as [[rc addr] x]; cbn.
    destruct (rc <=? 0); reflexivity.
Qed.

(** With a valid address that no resolver update has overtaken, the check
    goes to the probe at once. *)
Lemma check_reachable_cached fsm req w :
  Reachable.event_seq req <> Reachable.last_event_seq fsm ACQUIRED ->
  Reachable.address_valid (Reachable.user_data req) = true ->
  Reachable.last_event_seq fsm UPDATED <= Reachable.event_seq req ->
  Reachable.ni_fsm_require_check_reachable fsm req w
  = Reachable.probe_address (Reachable.fsm_event_seq fsm) (Reachable.user_data req) w.
Proof.
  intros Hskip Hvalid Hfresh.
  unfold Reachable.ni_fsm_require_check_reachable.
  apply Z.eqb_neq in Hskip. apply Z.ltb_ge in Hfresh.
  now rewrite Hskip, Hfresh, Hvalid.
Qed.

(** A real evaluation stores the global event sequence in the requirement. *)
Lemma check_reachable_marks fsm req w :
  Reachable.event_seq req <> Reachable.last_event_seq fsm ACQUIRED ->
  Reachable.event_seq (snd (fst (Reachable.ni_fsm_require_check_reachable fsm req w)))
  = Reachable.fsm_event_seq fsm.
Proof.
  intros Hskip.
  destruct (Reachable.address_valid (Reachable.user_data req)) eqn:Hvalid.
  - destruct (Z.lt_ge_cases (Reachable.event_seq req)
                (Reachable.last_event_seq fsm UPDATED)) as [Hstale | Hfresh].
    + pose proof (check_reachable_resolves fsm req w Hskip (or_intror Hstale)) as Hrun.
      cbn zeta in Hrun.
      destruct (Reachable.ni_resolve_hostname_timed _ _ _ _ _) as [[rc addr] x].
      rewrite Hrun. destruct (rc <=? 0); [reflexivity|].
      match goal with |- context [Reachable.probe_address ?s ?c ?v] =>
        pose proof (probe_address_spec s c v) as Hprobe end.
      cbn zeta in Hprobe.
      destruct (Reachable.ni_host_is_reachable _ _ _) as [rc' x'].
      now rewrite Hprobe.
    + rewrite (check_reachable_cached fsm req w Hskip Hvalid Hfresh).
      pose proof (probe_address_spec (Reachable.fsm_event_seq fsm)
                    (Reachable.user_data req) w) as Hprobe.
      cbn zeta in Hprobe.
      destruct (Reachable.ni_host_is_reachable _ _ _) as [rc' x'].
      now rewrite Hprobe.
  - pose proof (check_reachable_resolves fsm req w Hskip (or_introl Hvalid)) as Hrun.
    cbn zeta in Hrun.
    destruct (Reachable.ni_resolve_hostname_timed _ _ _ _ _) as [[rc addr] x].
    rewrite Hrun. destruct (rc <=? 0); [reflexivity|].
    match goal with |- context [Reachable.probe_address ?s ?c ?v] =>
      pose proof (probe_address_spec s c v) as Hprobe end.
    cbn zeta in Hprobe.
    destruct (Reachable.ni_host_is_reachable _ _ _) as [rc' x'].
    now rewrite Hprobe.
Qed.


(** For a requirement with a valid cached address and a resolver update
    later than its last evaluation: when the skip rule does not apply, the
    evaluation first calls the resolver, and the requirement afterwards
    holds what the resolver wrote, valid exactly when the count was
    positive; when the skip rule applies, the evaluation reports FALSE and
    the cached address stays as it is. *)
Lemma stale_address_resolved_again fsm req w :
  Reachable.address_valid (Reachable.user_data req) = true ->
  Reachable.event_seq req < Reachable.last_event_seq fsm UPDATED ->
  (Reachable.event_seq req <> Reachable.last_event_seq fsm ACQUIRED ->
   let check := Reachable.user_data req in
   let '((rc, addr), _) :=
     Reachable.ni_resolve_hostname_timed (Reachable.hostname check)
       (Reachable.family check) (Reachable.address check) 1 (ext w) in
   let '((_, req'), w') := Reachable.ni_fsm_require_check_reachable fsm req w in
   (exists later,
      new_events w w'
      = Reachable.EvResolve (Reachable.hostname check) (Reachable.family check) 1 rc
          :: later)
   /\ Reachable.address (Reachable.user_data req') = addr
   /\ Reachable.address_valid (Reachable.user_data req') = (0 <? rc))
  /\ (Reachable.event_seq req = Reachable.last_event_seq fsm ACQUIRED ->
      Reachable.ni_fsm_require_check_reachable fsm req w = ((false, req), w)).
Proof.
  intros Hvalid Hstale. split; [|now apply check_reachable_skip].
  intros Hskip. cbn zeta.
  pose proof (check_reachable_resolves fsm req w Hskip (or_intror Hstale)) as Hrun.
  cbn zeta in Hrun.
  destruct (Reachable.ni_resolve_hostname_timed _ _ _ _ _) as [[rc addr] x].
  rewrite Hrun. destruct (rc <=? 0) eqn:Hrc.
  - repeat split.
    + eexists. apply new_events_app. reflexivity.
    + cbn. symmetry. apply Z.ltb_ge. now apply Z.leb_le.
  - match goal with |- context [Reachable.probe_address ?s ?c ?v] =>
      pose proof (probe_address_spec s c v) as Hprobe end.
    cbn zeta in Hprobe.
    destruct (Reachable.ni_host_is_reachable _ _ _) as [rc' x'].
    rewrite Hprobe. repeat split.
    + eexists. apply new_events_app. cbn. rewrite <- app_assoc. reflexivity.
    + cbn. symmetry. apply Z.ltb_lt. apply Z.leb_gt in Hrc. exact Hrc.
Qed.

(** A requirement without a valid address stays so when resolution fails,
    and reports FALSE. *)
Lemma check_reachable_unresolved fsm req w :
  (forall host af addr timeout x,
     fst (fst (Reachable.ni_resolve_hostname_timed host af addr timeout x)) <= 0) ->
  Reachable.address_valid (Reachable.user_data req) = false ->
  let '((b, req'), _) := Reachable.ni_fsm_require_check_reachable fsm req w in
  b = false /\ Reachable.address_valid (Reachable.user_data req') = false.
Proof.
  intros Hdead Hinvalid.
  destruct (Z.eq_dec (Reachable.event_seq req) (Reachable.last_event_seq fsm ACQUIRED))
    as [Hskip | Hskip].
  - rewrite (check_reachable_skip fsm req w Hskip). now split.
  - pose proof (check_reachable_resolves fsm req w Hskip (or_introl Hinvalid)) as Hrun.
    cbn zeta in Hrun.
    pose proof (Hdead (Reachable.hostname (Reachable.user_data req))
                  (Reachable.family (Reachable.user_data req))
                  (Reachable.address (Reachable.user_data req)) 1 (ext w)) as Hrc.
    destruct (Reachable.ni_resolve_hostname_timed _ _ _ _ _) as [[rc addr] x].
    cbn in Hrc. apply Z.leb_le in Hrc. rewrite Hrun, Hrc. now split.
Qed.

Lemma evaluate_each_unresolved (fsms : list Reachable.ni_objectmodel_fsm_t) req w :
  (forall host af addr timeout x,
     fst (fst (Reachable.ni_resolve_hostname_timed host af addr timeout x)) <= 0) ->
  Reachable.address_valid (Reachable.user_data req) = false ->
  Forall (eq false) (fst (fst (Reachable.evaluate_each fsms req w))).
Proof.
  intros Hdead. revert req w.
  induction fsms as [|fsm later IH]; intros req w Hinvalid; cbn.
  - constructor.
  - unfold bind.
    pose proof (check_reachable_unresolved fsm req w Hdead Hinvalid) as Hone.
    destruct (Reachable.ni_fsm_require_check_reachable fsm req w) as [[b req'] w'].
    destruct Hone as [-> Hinvalid']. cbn.
    specialize (IH req' w' Hinvalid').
    destruct (Reachable.evaluate_each later req' w') as [[bs req''] w''].
    cbn in *. now constructor.
Qed.

(** C8.  The check is a total function to a boolean, and it fails closed:
    whenever a call made by an evaluation (resolver or probe) returns a
    count of zero or less, the evaluation reports FALSE.  On a system where
    resolution never succeeds, a requirement that starts without a valid
    address reports FALSE at every evaluation, whatever event sequences the
    FSM goes through. *)
Theorem check_reachable_fails_closed fsm req w :
  (forall e,
     e ∈ new_events w (snd (Reachable.ni_fsm_require_check_reachable fsm req w)) ->
     Reachable.event_rc e <= 0 ->
     fst (fst (Reachable.ni_fsm_require_check_reachable fsm req w)) = false)
  /\ ((forall host af addr timeout x,
         fst (fst (Reachable.ni_resolve_hostname_timed host af addr timeout x)) <= 0) ->
      Reachable.address_valid (Reachable.user_data req) = false ->
      forall fsms : list Reachable.ni_objectmodel_fsm_t,
        Forall (eq false) (fst (fst (Reachable.evaluate_each fsms req w)))).
Proof.
  split; [|intros Hdead Hinvalid fsms; now apply evaluate_each_unresolved].
  intros e.
  assert (Hresolved :
    Reachable.event_seq req <> Reachable.last_event_seq fsm ACQUIRED ->
    Reachable.address_valid (Reachable.user_data req) = false
    \/ Reachable.event_seq req < Reachable.last_event_seq fsm UPDATED ->
    e ∈ new_events w (snd (Reachable.ni_fsm_require_check_reachable fsm req w)) ->
    Reachable.event_rc e <= 0 ->
    fst (fst (Reachable.ni_fsm_require_check_reachable fsm req w)) = false).
  { intros Hskip Hinvalid.
    pose proof (check_reachable_resolves fsm req w Hskip Hinvalid) as Hrun.
    cbn zeta in Hrun.
    destruct (Reachable.ni_resolve_hostname_timed _ _ _ _ _) as [[rc addr] x].
    rewrite Hrun; destruct (rc <=? 0) eqn:Hrc; [reflexivity|].
    match goal with |- context [Reachable.probe_address ?s ?c ?v] =>
      pose proof (probe_address_spec s c v) as Hprobe end.
    cbn zeta in Hprobe.
    destruct (Reachable.ni_host_is_reachable _ _ _) as [rc' x'].
    rewrite Hprobe; cbn [fst snd].
    rewrite (new_events_app w _ [Reachable.EvResolve _ _ 1 rc;
                                 Reachable.EvReachable _ _ rc'])
      by (cbn; rewrite <- app_assoc; reflexivity).
    intros [-> | ->%list_elem_of_singleton]%elem_of_cons He; cbn in He.
    - apply Z.leb_gt in Hrc; lia.
    - apply Z.ltb_ge; exact He. }
  destruct (Z.eq_dec (Reachable.event_seq req) (Reachable.last_event_seq fsm ACQUIRED))
    as [Hskip | Hskip].
  - now rewrite (check_reachable_skip fsm req w Hskip).
  - destruct (Reachable.address_valid (Reachable.user_data req)) eqn:Hvalid;
      [|now apply Hresolved; [|left]].
    destruct (Z.lt_ge_cases (Reachable.event_seq req)
                (Reachable.last_event_seq fsm UPDATED)) as [Hstale | Hfresh];
      [now apply Hresolved; [|right]|].
    rewrite (check_reachable_cached fsm req w Hskip Hvalid Hfresh).
    pose proof (probe_address_spec (Reachable.fsm_event_seq fsm)
                  (Reachable.user_data req) w) as Hprobe.
    cbn zeta in Hprobe.
    destruct (Reachable.ni_host_is_reachable _ _ _) as [rc' x'].
    rewrite Hprobe. cbn [fst snd].
    rewrite (new_events_app w _ [Reachable.EvReachable _ _ rc']) by reflexivity.
    intros ->%list_elem_of_singleton Hrc. cbn in Hrc.
    apply Z.ltb_ge. exact Hrc.
Qed.

End ReachableProperties.



(** The skip rule looks at the last address-acquired event, while an
    evaluation stores the global sequence.  With the last address acquired
    at event 5 and the FSM at event 7, a fresh requirement for a name that
    does not resolve is evaluated twice with no event in between: both
    evaluations report FALSE, and the second calls the resolver again,
    since the requirement holds 7 after the first, which is not 5. *)
Lemma recheck_after_other_event :
  ~ Reachable.reproduces_without_call (Sim.fsm_at 7 5 0)
      (Sim.requirement 0 "example.invalid" false 0) Sim.dead_world.
Proof.
  unfold Reachable.reproduces_without_call. vm_compute. intros [_ Hnone].
  discriminate Hnone.
Qed.

(** C2.  A resolver update does not force a new lookup while the skip rule
    applies.  The requirement holds a valid address and was last evaluated
    at event 5, at which the address was acquired; the resolver was updated
    at event 6.  The evaluation returns at the skip test: it reports FALSE,
    calls nothing, and leaves the address and its validity flag as they
    are.  So does the evaluation at event 7; the resolver is called only
    once an address is acquired again, at event 8. *)
Theorem resolver_update_skipped :
  let req := Sim.requirement 5 "example.org" true 9 in
  let w := Sim.scripted_world [4; 1] in
  Reachable.address_valid (Reachable.user_data req) = true
  /\ Reachable.event_seq req
     < Reachable.last_event_seq (Sim.fsm_at 6 5 6) Reachable.NI_EVENT_RESOLVER_UPDATED
  /\ Reachable.ni_fsm_require_check_reachable (Sim.fsm_at 6 5 6) req w
     = ((false, req), w)
  /\ ~ Reachable.attempts_resolution (Sim.fsm_at 6 5 6) req w
  /\ Reachable.evaluate_each [Sim.fsm_at 6 5 6; Sim.fsm_at 7 5 6; Sim.fsm_at 8 8 6]
       req w
     = (([false; false; true], Sim.requirement 8 "example.org" true 4),
        World [] [Reachable.EvResolve "example.org" 0 1 4;
                  Reachable.EvReachable "example.org" 4 1]).
Proof.
  cbn zeta. repeat split.
  intros (e & He & _). vm_compute in He. inversion He.
Qed.

(** A stale valid address, first with the skip rule out of the way (last
    evaluation at event 3, address acquired at 5, resolver updated at 6),
    then with the skip rule applying (last evaluation at event 5). *)
Lemma stale_address_resolved_again_witness :
  (let '((_, req'), w') :=
     Reachable.ni_fsm_require_check_reachable (Sim.fsm_at 6 5 6)
       (Sim.requirement 3 "example.org" true 9) (Sim.scripted_world [4; 1]) in
   (exists later,
      new_events (Sim.scripted_world [4; 1]) w'
      = Reachable.EvResolve "example.org" 0 1 4 :: later)
   /\ Reachable.address (Reachable.user_data req') = 4
   /\ Reachable.address_valid (Reachable.user_data req') = true)
  /\ Reachable.ni_fsm_require_check_reachable (Sim.fsm_at 6 5 6)
       (Sim.requirement 5 "example.org" true 9) (Sim.scripted_world [4; 1])
     = ((false, Sim.requirement 5 "example.org" true 9), Sim.scripted_world [4; 1]).
Proof.
  split.
  - refine (proj1 (stale_address_resolved_again (Sim.fsm_at 6 5 6)
                     (Sim.requirement 3 "example.org" true 9)
                     (Sim.scripted_world [4; 1]) eq_refl eq_refl) _).
    vm_compute. discriminate.
  - refine (proj2 (stale_address_resolved_again (Sim.fsm_at 6 5 6)
                     (Sim.requirement 5 "example.org" true 9)
                     (Sim.scripted_world [4; 1]) eq_refl eq_refl) _).
    reflexivity.
Defined.

(** Example 3 of the design document: a name that never resolves, while
    the FSM goes through four states. *)
Lemma check_reachable_fails_closed_witness :
  fst (fst (Reachable.ni_fsm_require_check_reachable (Sim.fsm_at 7 5 0)
              (Sim.requirement 0 "example.invalid" false 0) Sim.dead_world)) = false
  /\ Forall (eq false)
       (fst (fst (Reachable.evaluate_each
                    [Sim.fsm_at 1 0 0; Sim.fsm_at 2 2 0; Sim.fsm_at 3 2 3;
                     Sim.fsm_at 9 8 3]
                    (Sim.requirement 0 "example.invalid" false 0) Sim.dead_world))).
Proof.
  destruct (check_reachable_fails_closed (Sim.fsm_at 7 5 0)
              (Sim.requirement 0 "example.invalid" false 0) Sim.dead_world)
    as [Hone Hall].
  split.
  - apply (Hone (Reachable.EvResolve "example.invalid" 0 1 0)).
    + vm_compute. constructor.
    + vm_compute. discriminate.
  - apply Hall.
    + intros host af addr timeout x. cbn. lia.
    + reflexivity.
Defined.

(** Example 3, run, with an address acquired before each evaluation: every
    evaluation calls the resolver and reports FALSE. *)
Example check_reachable_example_3 :
  Reachable.evaluate_each [Sim.fsm_at 1 1 0; Sim.fsm_at 2 2 0; Sim.fsm_at 4 3 3]
    (Sim.requirement 0 "example.invalid" false 0) Sim.dead_world
  = (([false; false; false], Sim.requirement 4 "example.invalid" false 0),
     World tt [Reachable.EvResolve "example.invalid" 0 1 0;
               Reachable.EvResolve "example.invalid" 0 1 0;
               Reachable.EvResolve "example.invalid" 0 1 0]).
Proof. vm_compute. reflexivity. Qed.

(** ** Extension commands *)

(** Statuses as waitpid reports them: exit code 0, exit code 1, killed by
    signal 9, stopped by signal 19. *)
Example wait_status_examples :
  Extension.WIFEXITED 0 = true /\ Extension.WEXITSTATUS 0 = 0
  /\ Extension.WIFEXITED 0x100 = true /\ Extension.WEXITSTATUS 0x100 = 1
  /\ Extension.WIFEXITED 9 = false
  /\ Extension.WIFSTOPPED 0x137f = true /\ Extension.WIFEXITED 0x137f = false.
Proof. repeat split; reflexivity. Qed.

Section ExtensionProperties.
Context {xpath_format xml_node W : Type} `{!Extension.System xpath_format xml_node W}.
Implicit Types (w : world W (Extension.event xpath_format))
               (ex : Extension.ni_extension_t xpath_format)
               (xml : xml_node).

Lemma eval_trace (fmt : xpath_format) xml w r w' :
  Extension.eval fmt xml w = (r, w') ->
  trace w' = (trace w ++ [Extension.EvXpathEval fmt (fst r) (snd r)])%list.
Proof.
  intros Heval.
  exact (call_trace (fun r => Extension.EvXpathEval fmt (fst r) (snd r)) _ _ _ _ Heval).
Qed.

(** The loop over the environment calls the expression evaluator only. *)
Lemma expand_environment_trace (exprs : list xpath_format) xml env w :
  exists tr,
    trace (snd (Extension.expand_environment exprs xml env w)) = (trace w ++ tr)%list
    /\ Forall (fun e => Extension.is_xpath_eval e = true) tr.
Proof.
  revert env w.
  induction exprs as [|e rest IH]; intros env w;
    cbn [Extension.expand_environment].
  - exists []. split; [now rewrite app_nil_r | constructor].
  - unfold bind. destruct (Extension.eval e xml w) as [r w1] eqn:Heval.
    apply eval_trace in Heval.
    destruct (negb (fst r) || (1 <? length (snd r))%nat).
    + eexists. split; [exact Heval | repeat constructor].
    + match goal with |- context [Extension.expand_environment rest xml ?env' w1] =>
        destruct (IH env' w1) as (tr & Htr & Hall) end.
      exists (Extension.EvXpathEval e (fst r) (snd r) :: tr). split.
      * rewrite Htr, Heval, <- app_assoc. reflexivity.
      * constructor; [reflexivity | exact Hall].
Qed.

Lemma expand_environment_app (before after : list xpath_format) xml env w :
  Extension.expand_environment (before ++ after) xml env w
  = let '(r, w1) := Extension.expand_environment before xml env w in
    match r with
    | Some env1 => Extension.expand_environment after xml env1 w1
    | None => (None, w1)
    end.
Proof.
  revert env w.
  induction before as [|e rest IH]; intros env w;
    cbn [Extension.expand_environment app].
  - reflexivity.
  - unfold bind. destruct (Extension.eval e xml w) as [r w1].
    destruct (negb (fst r) || (1 <? length (snd r))%nat); [reflexivity|].
    apply IH.
Qed.

(** After the wait loop has delivered the status of the child, the run
    returns the verdict of lines 203 to 223. *)
Lemma run_after_wait rounds ex ifname xml command_name (command : xpath_format)
    w w' status :
  Extension.child_exit_status rounds ex xml command w w' status ->
  Extension.__ni_extension_run rounds ex ifname xml command_name (Some command) w
  = let '(rv, w'') := Extension.check_status ex ifname xml command_name status w' in
    (Extension.Returned rv, w'').
Proof.
  intros (env & w1 & command_string & w2 & w3 & pid & w4
          & Henv & Hcmd & Hsig & Hfork & Hpid & Hwait).
  unfold Extension.__ni_extension_run, bind.
  rewrite Henv, Hcmd. cbn. rewrite Hsig, Hfork.
  assert (Hlt : (pid <? 0) = false) by (apply Z.ltb_ge; lia).
  assert (Hne : (pid =? 0) = false) by (apply Z.eqb_neq; lia).
  rewrite Hlt, Hne, Hwait.
  destruct (Extension.check_status ex ifname xml command_name status w').
  reflexivity.
Qed.

(** The verdict on a child that exited with status zero, for an extension
    with a pid file expression, given the answer of the probe. *)
Lemma check_status_exit_zero ex ifname xml command_name (pid_file : xpath_format)
    status w' active w'' :
  Extension.WIFEXITED status = true ->
  Extension.WEXITSTATUS status = 0 ->
  Extension.pid_file_path ex = Some pid_file ->
  Extension.ni_extension_active ex ifname xml w' = (active, w'') ->
  Extension.check_status ex ifname xml command_name status w'
  = (if String.eqb command_name "start" && (active =? 0) then -1
     else if String.eqb command_name "stop" && negb (active =? 0) then -1
     else 0, w'').
Proof.
  intros Hexited Hzero Hpid Hactive.
  unfold Extension.check_status. rewrite Hexited, Hzero, Hpid.
  cbn [negb Z.eqb]. unfold bind. rewrite Hactive.
  destruct (String.eqb command_name "start" && (active =? 0)); [reflexivity|].
  destruct (String.eqb command_name "stop" && negb (active =? 0)); reflexivity.
Qed.

(** C9.  Without a command the run returns 0 and leaves the world as it
    was: no expression is evaluated, no process is forked, no environment
    variable is set.  This holds for the start and for the stop command. *)
Theorem run_without_command rounds ex ifname xml w :
  (forall command_name,
     Extension.__ni_extension_run rounds ex ifname xml command_name None w
     = (Extension.Returned 0, w))
  /\ (Extension.start_command ex = None ->
      Extension.ni_extension_start rounds ex ifname xml w = (Extension.Returned 0, w))
  /\ (Extension.stop_command ex = None ->
      Extension.ni_extension_stop rounds ex ifname xml w = (Extension.Returned 0, w)).
Proof.
  repeat split.
  - unfold Extension.ni_extension_start. now intros ->.
  - unfold Extension.ni_extension_stop. now intros ->.
Qed.

(** C7.  (1) When an expression of the environment does not evaluate, or
    evaluates to more than one string, the run returns -1 in the world that
    evaluation left, in which only expression evaluations have been made:
    no process was forked.  (2) An expression of the environment that
    evaluates to no string is passed over: the loop goes on with the
    environment built so far.  (3) When the command does not evaluate, or
    evaluates to a number of strings that is not one, the run returns -1,
    again with expression evaluations only. *)
Theorem run_expression_failure rounds ex ifname xml command_name
    (command : xpath_format) w :
  (forall before e after env w1 ok values w2,
     Extension.environment ex = (before ++ e :: after)%list ->
     Extension.expand_environment before xml [] w = (Some env, w1) ->
     Extension.eval e xml w1 = ((ok, values), w2) ->
     ok = false \/ (1 < length values)%nat ->
     Extension.__ni_extension_run rounds ex ifname xml command_name (Some command) w
     = (Extension.Returned (-1), w2)
     /\ Forall (fun ev => Extension.is_xpath_eval ev = true) (new_events w w2))
  /\ (forall e rest env w1,
        Extension.eval e xml w = ((true, []), w1) ->
        Extension.expand_environment (e :: rest) xml env w
        = Extension.expand_environment rest xml env w1)
  /\ (forall env w1 ok values w2,
        Extension.expand_environment (Extension.environment ex) xml [] w
        = (Some env, w1) ->
        Extension.eval command xml w1 = ((ok, values), w2) ->
        ok = false \/ length values <> 1%nat ->
        Extension.__ni_extension_run rounds ex ifname xml command_name (Some command) w
        = (Extension.Returned (-1), w2)
        /\ Forall (fun ev => Extension.is_xpath_eval ev = true) (new_events w w2)).
Proof.
  split; [|split].
  - intros before e after env w1 ok values w2 Henv Hbefore Heval Hbad.
    assert (Hcond : negb ok || (1 <? length values)%nat = true).
    { destruct Hbad as [-> | Hmany]; [reflexivity|].
      apply orb_true_iff. right. now apply Nat.ltb_lt. }
    assert (Hloop : Extension.expand_environment (Extension.environment ex) xml [] w
                    = (None, w2)).
    { rewrite Henv, expand_environment_app, Hbefore.
      cbn [Extension.expand_environment]. unfold bind. rewrite Heval.
      cbn [fst snd]. now rewrite Hcond. }
    split.
    + unfold Extension.__ni_extension_run, bind. now rewrite Hloop.
    + destruct (expand_environment_trace (Extension.environment ex) xml [] w)
        as (tr & Htr & Hall).
      rewrite Hloop in Htr. cbn [snd] in Htr.
      now rewrite (new_events_app w w2 tr Htr).
  - intros e rest env w1 Heval.
    cbn [Extension.expand_environment]. unfold bind. now rewrite Heval.
  - intros env w1 ok values w2 Henv Heval Hbad.
    assert (Hcond : negb ok || negb (length values =? 1)%nat = true).
    { destruct Hbad as [-> | Hcount]; [reflexivity|].
      apply orb_true_iff. right. apply negb_true_iff. now apply Nat.eqb_neq. }
    split.
    + unfold Extension.__ni_extension_run, bind. rewrite Henv, Heval.
      cbn [fst snd]. now rewrite Hcond.
    + destruct (expand_environment_trace (Extension.environment ex) xml [] w)
        as (tr & Htr & Hall).
      rewrite Henv in Htr. cbn [snd] in Htr.
      apply eval_trace in Heval. cbn [fst snd] in Heval.
      rewrite (new_events_app w w2 (tr ++ [Extension.EvXpathEval command ok values])).
      * apply Forall_app. split; [exact Hall | repeat constructor].
      * rewrite Heval, Htr, <- app_assoc. reflexivity.
Qed.

(** C3.  The child has exited with status zero and the extension has a pid
    file expression.  If the probe then says the service is not running
    (0), a start returns -1; if it says the service is running, a stop
    returns -1. *)
Theorem exit_zero_probe_mismatch rounds ex ifname xml (command pid_file : xpath_format)
    w w' status active w'' :
  Extension.child_exit_status rounds ex xml command w w' status ->
  Extension.WIFEXITED status = true ->
  Extension.WEXITSTATUS status = 0 ->
  Extension.pid_file_path ex = Some pid_file ->
  Extension.ni_extension_active ex ifname xml w' = (active, w'') ->
  (active = 0 ->
   Extension.__ni_extension_run rounds ex ifname xml "start" (Some command) w
   = (Extension.Returned (-1), w''))
  /\ (active <> 0 ->
      Extension.__ni_extension_run rounds ex ifname xml "stop" (Some command) w
      = (Extension.Returned (-1), w'')).
Proof.
  intros Hchild Hexited Hzero Hpid Hactive.
  split; intros Hmismatch.
  - rewrite (run_after_wait _ _ _ _ _ _ _ _ _ Hchild).
    rewrite (check_status_exit_zero _ _ _ _ _ _ _ _ _ Hexited Hzero Hpid Hactive).
    subst active. reflexivity.
  - rewrite (run_after_wait _ _ _ _ _ _ _ _ _ Hchild).
    rewrite (check_status_exit_zero _ _ _ _ _ _ _ _ _ Hexited Hzero Hpid Hactive).
    apply Z.eqb_neq in Hmismatch. cbn. now rewrite Hmismatch.
Qed.

(** C10.  When the pid file expression does not evaluate, or evaluates to
    a number of strings that is not one, ni_extension_active returns 0,
    the answer it gives for a service that is not running, and does not
    look at the file system.  So, after a child that exited with status
    zero, a stop returns 0 and a start returns -1. *)
Theorem probe_error_reads_not_running rounds ex ifname xml
    (command pid_file : xpath_format) w w' status ok values w'' :
  Extension.pid_file_path ex = Some pid_file ->
  Extension.eval pid_file xml w' = ((ok, values), w'') ->
  ok = false \/ length values <> 1%nat ->
  Extension.ni_extension_active ex ifname xml w' = (0, w'')
  /\ (Extension.child_exit_status rounds ex xml command w w' status ->
      Extension.WIFEXITED status = true ->
      Extension.WEXITSTATUS status = 0 ->
      Extension.__ni_extension_run rounds ex ifname xml "stop" (Some command) w
      = (Extension.Returned 0, w'')
      /\ Extension.__ni_extension_run rounds ex ifname xml "start" (Some command) w
         = (Extension.Returned (-1), w'')).
Proof.
  intros Hpid Heval Hbad.
  assert (Hactive : Extension.ni_extension_active ex ifname xml w' = (0, w'')).
  { unfold Extension.ni_extension_active, bind. rewrite Hpid, Heval. cbn [fst snd].
    destruct Hbad as [-> | Hcount]; [reflexivity|].
    apply Nat.eqb_neq in Hcount. rewrite Hcount. now rewrite orb_true_r. }
  split; [exact Hactive|].
  intros Hchild Hexited Hzero.
  split; rewrite (run_after_wait _ _ _ _ _ _ _ _ _ Hchild);
    rewrite (check_status_exit_zero _ _ _ _ _ _ _ _ _ Hexited Hzero Hpid Hactive);
    reflexivity.
Qed.

End ExtensionProperties.

Ltac child_exit_status_by_running :=
  unfold Extension.child_exit_status; do 7 eexists;
  repeat match goal with |- _ /\ _ => split end; lazy; reflexivity.

(** The extension has an environment and a pid file but no command. *)
Lemma run_without_command_witness :
  Extension.ni_extension_start 5
    (Sim.extension (Some Sim.dhcp_pid_file) None None Sim.dhcp_environment)
    "eth0" tt (Sim.child_exits_zero [])
  = (Extension.Returned 0, Sim.child_exits_zero [])
  /\ Extension.ni_extension_stop 5
       (Sim.extension (Some Sim.dhcp_pid_file) None None Sim.dhcp_environment)
       "eth0" tt (Sim.child_exits_zero [])
     = (Extension.Returned 0, Sim.child_exits_zero []).
Proof.
  destruct (run_without_command 5
              (Sim.extension (Some Sim.dhcp_pid_file) None None Sim.dhcp_environment)
              "eth0" tt (Sim.child_exits_zero [])) as (_ & Hstart & Hstop).
  split; [apply Hstart | apply Hstop]; reflexivity.
Defined.

(** An environment whose second expression yields two strings; an
    expression that yields none; a command that yields no string. *)
Lemma run_expression_failure_witness :
  (fst (Extension.ni_extension_start 5 Sim.dhcp_bad_environment "eth0" tt
          (Sim.child_exits_zero []))
   = Extension.Returned (-1)
   /\ Forall (fun ev => Extension.is_xpath_eval ev = true)
        (trace (snd (Extension.ni_extension_start 5 Sim.dhcp_bad_environment "eth0" tt
                       (Sim.child_exits_zero [])))))
  /\ Extension.expand_environment [Sim.no_string; Sim.dhcp_start] tt ["IFNAME=eth0"]
       (Sim.child_exits_zero [])
     = Extension.expand_environment [Sim.dhcp_start] tt ["IFNAME=eth0"]
         (World (ext (Sim.child_exits_zero []))
                [Extension.EvXpathEval Sim.no_string true []])
  /\ fst (Extension.__ni_extension_run 5 Sim.dhcp "eth0" tt "start"
            (Some Sim.no_string) (Sim.child_exits_zero []))
     = Extension.Returned (-1).
Proof.
  split; [|split].
  - destruct (run_expression_failure 5 Sim.dhcp_bad_environment "eth0" tt "start"
                Sim.dhcp_start (Sim.child_exits_zero [])) as (Henv & _ & _).
    edestruct (Henv [(true, ["IFNAME=eth0"])] (true, ["A=1"; "B=2"])
                 [(true, ["MTU=1500"])]) as [Hrun Hevents].
    + reflexivity.
    + reflexivity.
    + reflexivity.
    + right. cbn. lia.
    + unfold Extension.ni_extension_start. cbn [Extension.start_command
        Sim.dhcp_bad_environment Sim.extension]. rewrite Hrun. split.
      * reflexivity.
      * exact Hevents.
  - destruct (run_expression_failure 5 Sim.dhcp "eth0" tt "start"
                Sim.dhcp_start (Sim.child_exits_zero [])) as (_ & Hnone & _).
    apply Hnone. reflexivity.
  - destruct (run_expression_failure 5 Sim.dhcp "eth0" tt "start"
                Sim.no_string (Sim.child_exits_zero [])) as (_ & _ & Hcmd).
    edestruct Hcmd as [Hrun _].
    + reflexivity.
    + reflexivity.
    + right. cbn. lia.
    + rewrite Hrun. reflexivity.
Defined.

(** Example 4 of the design document: the start command exits with status
    0 and the pid file is not there.  And its mirror: the stop command
    exits with status 0 and the pid file is still there. *)
Lemma exit_zero_probe_mismatch_witness :
  fst (Extension.ni_extension_start 5 Sim.dhcp "eth0" tt (Sim.child_exits_zero []))
  = Extension.Returned (-1)
  /\ fst (Extension.ni_extension_stop 5 Sim.dhcp "eth0" tt
            (Sim.child_exits_zero ["/var/run/dhcpcd-eth0.pid"]))
     = Extension.Returned (-1).
Proof.
  split.
  - edestruct (exit_zero_probe_mismatch 5 Sim.dhcp "eth0" tt Sim.dhcp_start
                 Sim.dhcp_pid_file (Sim.child_exits_zero [])) as [Hstart _].
    + child_exit_status_by_running.
    + lazy; reflexivity.
    + lazy; reflexivity.
    + lazy; reflexivity.
    + lazy; reflexivity.
    + unfold Extension.ni_extension_start.
      cbn [Extension.start_command Sim.dhcp Sim.extension].
      rewrite Hstart; reflexivity.
  - edestruct (exit_zero_probe_mismatch 5 Sim.dhcp "eth0" tt Sim.dhcp_stop
                 Sim.dhcp_pid_file
                 (Sim.child_exits_zero ["/var/run/dhcpcd-eth0.pid"])) as [_ Hstop].
    + child_exit_status_by_running.
    + lazy; reflexivity.
    + lazy; reflexivity.
    + lazy; reflexivity.
    + lazy; reflexivity.
    + unfold Extension.ni_extension_stop.
      cbn [Extension.stop_command Sim.dhcp Sim.extension].
      rewrite Hstop; [reflexivity | discriminate].
Defined.

(** The pid file expression does not evaluate: the stop command is
    reported to have worked, the start command to have failed. *)
Lemma probe_error_reads_not_running_witness :
  fst (Extension.ni_extension_stop 5 Sim.dhcp_bad_pid_file "eth0" tt
         (Sim.child_exits_zero []))
  = Extension.Returned 0
  /\ fst (Extension.ni_extension_start 5 Sim.dhcp_bad_pid_file "eth0" tt
            (Sim.child_exits_zero []))
     = Extension.Returned (-1).
Proof.
  split.
  - edestruct (probe_error_reads_not_running 5 Sim.dhcp_bad_pid_file "eth0" tt
                 Sim.dhcp_stop Sim.unevaluable (Sim.child_exits_zero []))
      as [_ Hruns].
    + lazy; reflexivity.
    + lazy; reflexivity.
    + left. reflexivity.
    + edestruct Hruns as [Hstop _].
      * child_exit_status_by_running.
      * lazy; reflexivity.
      * lazy; reflexivity.
      * unfold Extension.ni_extension_stop.
        cbn [Extension.stop_command Sim.dhcp_bad_pid_file Sim.extension].
        rewrite Hstop. reflexivity.
  - edestruct (probe_error_reads_not_running 5 Sim.dhcp_bad_pid_file "eth0" tt
                 Sim.dhcp_start Sim.unevaluable (Sim.child_exits_zero []))
      as [_ Hruns].
    + lazy; reflexivity.
    + lazy; reflexivity.
    + left. reflexivity.
    + edestruct Hruns as [_ Hstart].
      * child_exit_status_by_running.
      * lazy; reflexivity.
      * lazy; reflexivity.
      * unfold Extension.ni_extension_start.
        cbn [Extension.start_command Sim.dhcp_bad_pid_file Sim.extension].
        rewrite Hstart. reflexivity.
Defined.

(** ** Byte buffers *)

Section RegionFacts.
Context {A : Type}.
Implicit Types (region bytes : list A) (h t n : nat).

Lemma length_region_written region bytes t n :
  (t + n <= length region)%nat -> length bytes = n ->
  length (take t region ++ bytes ++ drop (t + n) region) = length region.
Proof.
  intros Hfit Hlen. rewrite !length_app, length_take, length_drop. lia.
Qed.

Lemma window_drop_take region h t :
  (h <= t)%nat -> take (t - h) (drop h region) = drop h (take t region).
Proof.
  intros Hle. rewrite take_drop_commute. do 2 f_equal. lia.
Qed.

(** Writing [bytes] at [t] lengthens by them the window that starts at [h]
    and ends at [t]. *)
Lemma window_region_written region bytes h t n :
  (h <= t)%nat -> (t + n <= length region)%nat -> length bytes = n ->
  take (t + n - h) (drop h (take t region ++ bytes ++ drop (t + n) region))
  = (take (t - h) (drop h region) ++ bytes)%list.
Proof.
  intros Hle Hfit Hlen.
  rewrite drop_app_le by (rewrite length_take; lia).
  rewrite <- window_drop_take by exact Hle.
  rewrite take_app.
  rewrite (take_ge (take (t - h) (drop h region)))
    by (rewrite length_take, length_drop; lia).
  f_equal.
  rewrite length_take, length_drop.
  replace (t + n - h - Nat.min (t - h) (length region - h))%nat with n by lia.
  rewrite take_app_le by lia. apply take_ge. lia.
Qed.

End RegionFacts.

Lemma size_t_wrap_small (z : Z) : 0 <= z < 2 ^ 64 -> Buffer.size_t_wrap z = z.
Proof. intros Hz. unfold Buffer.size_t_wrap. now apply Z.mod_small. Qed.

Lemma uint_wrap_small (z : Z) : 0 <= z < 2 ^ 32 -> Buffer.uint_wrap z = z.
Proof. intros Hz. unfold Buffer.uint_wrap. now apply Z.mod_small. Qed.

(** A put that fits: the region written and the tail moved. *)
Lemma put_fits (bp : Buffer.ni_buffer_t) (data : list Byte.byte) (len : Z) :
  Buffer.consistent bp -> 0 <= len ->
  Buffer.tail bp + len <= Buffer.size bp ->
  len <= Z.of_nat (length data) ->
  exists bp',
    Buffer.ni_buffer_put bp (Some data) len = Some bp'
    /\ Buffer.content bp' = (Buffer.content bp ++ take (Z.to_nat len) data)%list
    /\ Buffer.head bp' = Buffer.head bp
    /\ Buffer.tail bp' = Buffer.tail bp + len
    /\ Buffer.size bp' = Buffer.size bp
    /\ length (Buffer.base bp') = length (Buffer.base bp)
    /\ Buffer.overflow bp' = Buffer.overflow bp
    /\ Buffer.underflow bp' = Buffer.underflow bp.
Proof.
  intros (Hh & Hht & Hts & Hsz & Hmax) Hlen Hfit Hdata.
  unfold Buffer.ni_buffer_put.
  rewrite size_t_wrap_small by lia.
  destruct (Buffer.tail bp + len >? Buffer.size bp) eqn:Hover;
    [apply Z.gtb_lt in Hover; lia|].
  assert (Hd : (len <=? Z.of_nat (length data)) = true) by (apply Z.leb_le; lia).
  rewrite Hd. unfold Buffer.region_write.
  assert (Htake : length (take (Z.to_nat len) data) = Z.to_nat len)
    by (rewrite length_take; lia).
  assert (Hcond : (0 <=? Buffer.tail bp) && (0 <=? len)
                  && (Buffer.tail bp + len <=? Z.of_nat (length (Buffer.base bp)))
                  && (Z.of_nat (length (take (Z.to_nat len) data)) =? len) = true).
  { rewrite Htake. repeat (apply andb_true_intro; split).
    - apply Z.leb_le; lia.
    - apply Z.leb_le; lia.
    - apply Z.leb_le; lia.
    - apply Z.eqb_eq; lia. }
  rewrite Hcond. eexists. split; [reflexivity|].
  replace (Z.to_nat (Buffer.tail bp + len))
    with (Z.to_nat (Buffer.tail bp) + Z.to_nat len)%nat by lia.
  cbn. repeat split.
  - unfold Buffer.content; cbn.
    replace (Z.to_nat (Buffer.tail bp + len - Buffer.head bp))
      with (Z.to_nat (Buffer.tail bp) + Z.to_nat len - Z.to_nat (Buffer.head bp))%nat
      by lia.
    replace (Z.to_nat (Buffer.tail bp - Buffer.head bp))
      with (Z.to_nat (Buffer.tail bp) - Z.to_nat (Buffer.head bp))%nat by lia.
    apply window_region_written; [lia | lia | exact Htake].
  - apply length_region_written; [lia | exact Htake].
Qed.

(** A get within the content: the bytes read and the head moved. *)
Lemma get_fits (bp : Buffer.ni_buffer_t) (len : Z) :
  Buffer.consistent bp -> 0 <= len ->
  len <= Buffer.tail bp - Buffer.head bp ->
  exists bp',
    Buffer.ni_buffer_get bp len = Some (0, take (Z.to_nat len) (Buffer.content bp), bp')
    /\ Buffer.content bp' = drop (Z.to_nat len) (Buffer.content bp)
    /\ Buffer.head bp' = Buffer.head bp + len
    /\ Buffer.tail bp' = Buffer.tail bp
    /\ Buffer.size bp' = Buffer.size bp
    /\ Buffer.base bp' = Buffer.base bp
    /\ Buffer.overflow bp' = Buffer.overflow bp
    /\ Buffer.underflow bp' = Buffer.underflow bp.
Proof.
  intros (Hh & Hht & Hts & Hsz & Hmax) Hlen Hfit.
  unfold Buffer.ni_buffer_get.
  rewrite size_t_wrap_small by lia.
  destruct (Buffer.head bp + len >? Buffer.tail bp) eqn:Hunder;
    [apply Z.gtb_lt in Hunder; lia|].
  unfold Buffer.region_read.
  assert (Hcond : (0 <=? Buffer.head bp) && (0 <=? len)
                  && (Buffer.head bp + len <=? Z.of_nat (length (Buffer.base bp)))
                  = true).
  { repeat (apply andb_true_intro; split); apply Z.leb_le; lia. }
  rewrite Hcond. eexists. split.
  - unfold Buffer.content. rewrite take_take.
    replace (Z.to_nat len `min` Z.to_nat (Buffer.tail bp - Buffer.head bp))%nat
      with (Z.to_nat len) by lia.
    reflexivity.
  - cbn. repeat split.
    unfold Buffer.content; cbn.
    replace (Z.to_nat (Buffer.head bp + len))
      with (Z.to_nat (Buffer.head bp) + Z.to_nat len)%nat by lia.
    rewrite <- drop_drop.
    replace (Z.to_nat (Buffer.tail bp - (Buffer.head bp + len)))
      with (Z.to_nat (Buffer.tail bp - Buffer.head bp) - Z.to_nat len)%nat by lia.
    generalize (drop (Z.to_nat (Buffer.head bp)) (Buffer.base bp)).
    generalize (Z.to_nat (Buffer.tail bp - Buffer.head bp)).
    generalize (Z.to_nat len).
    intros n m l. revert n m.
    induction l as [|x l IH]; intros n m.
    + now rewrite !drop_nil, !take_nil, drop_nil.
    + destruct n as [|n]; [now rewrite Nat.sub_0_r|].
      destruct m as [|m]; [now rewrite !take_0, drop_nil|].
      cbn. apply IH.
Qed.

(** One checked operation keeps the descriptor consistent and leaves the
    size of the buffer and of its region alone. *)
Lemma perform_consistent (op : Buffer.operation) (bp bp' : Buffer.ni_buffer_t) :
  Buffer.consistent bp ->
  0 <= Buffer.argument op ->
  Buffer.size bp + Buffer.argument op < 2 ^ 64 ->
  Buffer.perform op bp = Some bp' ->
  Buffer.consistent bp' /\ Buffer.size bp' = Buffer.size bp
  /\ length (Buffer.base bp') = length (Buffer.base bp).
Proof.
  intros Hbp Harg Hmax Hop.
  pose proof Hbp as (Hh & Hht & Hts & Hsz & Hlen).
  assert (Hput : forall data len,
            0 <= len -> Buffer.tail bp + len < 2 ^ 64 ->
            Buffer.ni_buffer_put bp data len = Some bp' ->
            Buffer.consistent bp' /\ Buffer.size bp' = Buffer.size bp
            /\ length (Buffer.base bp') = length (Buffer.base bp)).
  { intros data len Hl Hm Hp.
    destruct (Z_le_gt_dec (Buffer.tail bp + len) (Buffer.size bp)) as [Hfit | Hover].
    - destruct data as [bytes|].
      + destruct (Z_le_gt_dec len (Z.of_nat (length bytes))) as [Hd | Hd].
        * destruct (put_fits bp bytes len Hbp Hl Hfit Hd)
            as (bp1 & Hp1 & _ & Hh1 & Ht1 & Hs1 & Hb1 & _).
          rewrite Hp1 in Hp. injection Hp as <-.
          unfold Buffer.consistent. rewrite Hh1, Ht1, Hs1, Hb1. lia.
        * unfold Buffer.ni_buffer_put in Hp.
          rewrite size_t_wrap_small in Hp by lia.
          destruct (Buffer.tail bp + len >? Buffer.size bp);
            [injection Hp as <-; split; [exact Hbp | now split]|].
          apply Z.gt_lt, Z.leb_gt in Hd. rewrite Hd in Hp. discriminate.
      + unfold Buffer.ni_buffer_put in Hp.
        rewrite size_t_wrap_small in Hp by lia.
        destruct (Buffer.tail bp + len >? Buffer.size bp);
          injection Hp as <-; unfold Buffer.consistent; cbn; lia.
    - unfold Buffer.ni_buffer_put in Hp.
      rewrite size_t_wrap_small in Hp by lia.
      apply Z.gt_lt, Z.gtb_lt in Hover. rewrite Hover in Hp.
      injection Hp as <-. split; [exact Hbp | now split]. }
  destruct op as [data len | cc | len | | count | count | count | ];
    cbn [Buffer.perform Buffer.argument] in *.
  - apply (Hput data len); [lia | lia | exact Hop].
  - apply (Hput (Some [cc]) 1); [lia | | exact Hop].
    destruct (Z.eq_dec (Buffer.tail bp) (2 ^ 64 - 1)) as [Htail | Htail]; [|lia].
    exfalso.
    unfold Buffer.ni_buffer_putc, Buffer.ni_buffer_put in Hop.
    rewrite Htail in Hop.
    replace (Buffer.size_t_wrap (2 ^ 64 - 1 + 1)) with 0 in Hop by reflexivity.
    destruct (0 >? Buffer.size bp) eqn:Hneg; [apply Z.gtb_lt in Hneg; lia|].
    cbn [length Z.of_nat Z.leb] in Hop.
    unfold Buffer.region_write in Hop.
    assert (Hout : (2 ^ 64 - 1 + 1 <=? Z.of_nat (length (Buffer.base bp))) = false)
      by (apply Z.leb_gt; lia).
    rewrite Hout in Hop. rewrite !andb_false_r in Hop. cbn in Hop. discriminate.
  - destruct (Buffer.ni_buffer_get bp len) as [[[rc bytes] bp1]|] eqn:Hget;
      [|discriminate].
    cbn in Hop. injection Hop as ->.
    destruct (Z_le_gt_dec len (Buffer.tail bp - Buffer.head bp)) as [Hfit | Hunder].
    + destruct (get_fits bp len Hbp Harg Hfit)
        as (bp1 & Hg1 & _ & Hh1 & Ht1 & Hs1 & Hb1 & _).
      rewrite Hg1 in Hget. injection Hget as _ _ <-.
      unfold Buffer.consistent. rewrite Hh1, Ht1, Hs1, Hb1. lia.
    + unfold Buffer.ni_buffer_get in Hget.
      rewrite size_t_wrap_small in Hget by lia.
      assert (Hu : (Buffer.head bp + len >? Buffer.tail bp) = true)
        by (apply Z.gtb_lt; lia).
      rewrite Hu in Hget. injection Hget as _ _ <-.
      split; [exact Hbp | now split].
  - destruct (Buffer.ni_buffer_getc bp) as [[c bp1]|] eqn:Hgetc; [|discriminate].
    cbn in Hop. injection Hop as ->.
    unfold Buffer.ni_buffer_getc in Hgetc.
    destruct (Buffer.head bp >=? Buffer.tail bp) eqn:Hempty.
    + injection Hgetc as _ <-. split; [exact Hbp | now split].
    + rewrite Z.geb_leb in Hempty. apply Z.leb_gt in Hempty.
      destruct (if 0 <=? Buffer.head bp
                then Buffer.base bp !! Z.to_nat (Buffer.head bp) else None);
        [|discriminate].
      injection Hgetc as _ <-.
      rewrite size_t_wrap_small by lia.
      unfold Buffer.consistent; cbn; lia.
  - injection Hop as <-. unfold Buffer.ni_buffer_push_head.
    destruct (Buffer.head bp <? count) eqn:Hc; cbn.
    + split; [exact Hbp | now split].
    + apply Z.ltb_ge in Hc. rewrite size_t_wrap_small by lia.
      unfold Buffer.consistent; cbn; lia.
  - injection Hop as <-. unfold Buffer.ni_buffer_push_tail.
    rewrite (size_t_wrap_small (Buffer.size bp - Buffer.tail bp)) by lia.
    destruct (Buffer.size bp - Buffer.tail bp <? count) eqn:Hc; cbn.
    + split; [exact Hbp | now split].
    + apply Z.ltb_ge in Hc. rewrite size_t_wrap_small by lia.
      unfold Buffer.consistent; cbn; lia.
  - injection Hop as <-. unfold Buffer.ni_buffer_pull_head.
    rewrite (size_t_wrap_small (Buffer.tail bp - Buffer.head bp)) by lia.
    destruct (Buffer.tail bp - Buffer.head bp <? count) eqn:Hc; cbn.
    + split; [exact Hbp | now split].
    + apply Z.ltb_ge in Hc. rewrite size_t_wrap_small by lia.
      unfold Buffer.consistent; cbn; lia.
  - injection Hop as <-. unfold Buffer.consistent; cbn; lia.
Qed.

(** X1.  ni_buffer_put on a consistent buffer, for a length that does not
    wrap around: when the bytes fit between tail and size they are appended
    to the content and nothing else changes; when they do not fit, the only
    change is the overflow flag, whatever [data] is. *)
Theorem buffer_put_appends_or_flags (bp : Buffer.ni_buffer_t)
    (data : list Byte.byte) (len : Z) :
  Buffer.consistent bp -> 0 <= len ->
  Buffer.tail bp + len < 2 ^ 64 ->
  len <= Z.of_nat (length data) ->
  (Buffer.tail bp + len <= Buffer.size bp ->
   exists bp',
     Buffer.ni_buffer_put bp (Some data) len = Some bp'
     /\ Buffer.content bp' = (Buffer.content bp ++ take (Z.to_nat len) data)%list
     /\ Buffer.head bp' = Buffer.head bp
     /\ Buffer.overflow bp' = Buffer.overflow bp
     /\ Buffer.consistent bp')
  /\ (Buffer.size bp < Buffer.tail bp + len ->
      forall source,
        Buffer.ni_buffer_put bp source len = Some (Buffer.set_overflow bp)).
Proof.
  intros Hbp Hlen Hwrap Hdata. split.
  - intros Hfit.
    destruct (put_fits bp data len Hbp Hlen Hfit Hdata)
      as (bp' & Hput & Hcontent & Hh & Ht & Hs & Hb & Ho & _).
    exists bp'. repeat split; try assumption.
    all: destruct Hbp as (? & ? & ? & ? & ?); rewrite ?Hh, ?Ht, ?Hs, ?Hb; lia.
  - intros Hover source. unfold Buffer.ni_buffer_put.
    destruct Hbp as (? & ? & ? & ? & ?).
    rewrite size_t_wrap_small by lia.
    apply Z.gtb_lt in Hover. now rewrite Hover.
Qed.

Ltac by_computing :=
  vm_compute; repeat split;
  first [reflexivity | discriminate | (let H := fresh in intro H; discriminate H)].

Lemma buffer_put_appends_or_flags_witness :
  (exists bp',
     Buffer.ni_buffer_put
       (Buffer.ni_buffer_init (Sim.zeroed 4) 4)
       (Some (Sim.bytes "abc")) 2 = Some bp'
     /\ Buffer.content bp' = (Sim.bytes "ab"))
  /\ Buffer.ni_buffer_put
       (Buffer.ni_buffer_init (Sim.zeroed 4) 4)
       (Some (Sim.bytes "abcde")) 5
     = Some (Buffer.set_overflow (Buffer.ni_buffer_init (Sim.zeroed 4) 4)).
Proof.
  split.
  - destruct (buffer_put_appends_or_flags
                (Buffer.ni_buffer_init (Sim.zeroed 4) 4)
                (Sim.bytes "abc") 2) as [Hfit _].
    + by_computing.
    + by_computing.
    + by_computing.
    + by_computing.
    + destruct Hfit as (bp' & Hput & Hcontent & _); [by_computing|].
      exists bp'. split; [exact Hput | exact Hcontent].
  - destruct (buffer_put_appends_or_flags
                (Buffer.ni_buffer_init (Sim.zeroed 4) 4)
                (Sim.bytes "abcde") 5) as [_ Hover].
    + by_computing.
    + by_computing.
    + by_computing.
    + by_computing.
    + apply Hover. by_computing.
Defined.

(** X2.  ni_buffer_get on a consistent buffer, for a length that does not
    wrap around: when the content has that many bytes the call returns 0
    and the first [len] bytes of the content, which it removes; otherwise
    it returns -1, copies nothing and only sets the underflow flag. *)
Theorem buffer_get_first_bytes (bp : Buffer.ni_buffer_t) (len : Z) :
  Buffer.consistent bp -> 0 <= len ->
  Buffer.head bp + len < 2 ^ 64 ->
  (len <= Z.of_nat (length (Buffer.content bp)) ->
   exists bp',
     Buffer.ni_buffer_get bp len
     = Some (0, take (Z.to_nat len) (Buffer.content bp), bp')
     /\ Buffer.content bp' = drop (Z.to_nat len) (Buffer.content bp)
     /\ Buffer.underflow bp' = Buffer.underflow bp
     /\ Buffer.consistent bp')
  /\ (Z.of_nat (length (Buffer.content bp)) < len ->
      Buffer.ni_buffer_get bp len = Some (-1, [], Buffer.set_underflow bp)).
Proof.
  intros Hbp Hlen Hwrap.
  pose proof Hbp as (Hh & Hht & Hts & Hsz & Hmax).
  assert (Hcount : Z.of_nat (length (Buffer.content bp))
                   = Buffer.tail bp - Buffer.head bp).
  { unfold Buffer.content. rewrite length_take, length_drop. lia. }
  rewrite Hcount. split.
  - intros Hfit.
    destruct (get_fits bp len Hbp Hlen Hfit)
      as (bp' & Hget & Hcontent & Hh1 & Ht1 & Hs1 & Hb1 & _ & Hu).
    exists bp'. repeat split; try assumption.
    all: rewrite ?Hh1, ?Ht1, ?Hs1, ?Hb1; lia.
  - intros Hunder. unfold Buffer.ni_buffer_get.
    rewrite size_t_wrap_small by lia.
    assert (Hu : (Buffer.head bp + len >? Buffer.tail bp) = true)
      by (apply Z.gtb_lt; lia).
    now rewrite Hu.
Qed.

Lemma buffer_get_first_bytes_witness :
  (exists bp',
     Buffer.ni_buffer_get (Buffer.ni_buffer_init_reader (Sim.bytes "xyz") 3) 2
     = Some (0, (Sim.bytes "xy"), bp')
     /\ Buffer.content bp' = (Sim.bytes "z"))
  /\ Buffer.ni_buffer_get (Buffer.ni_buffer_init_reader (Sim.bytes "xyz") 3) 4
     = Some (-1, [],
             Buffer.set_underflow (Buffer.ni_buffer_init_reader (Sim.bytes "xyz") 3)).
Proof.
  split.
  - destruct (buffer_get_first_bytes
                (Buffer.ni_buffer_init_reader (Sim.bytes "xyz") 3) 2) as [Hfit _].
    + by_computing.
    + by_computing.
    + by_computing.
    + destruct Hfit as (bp' & Hget & Hcontent & _); [by_computing|].
      exists bp'. split; [exact Hget | exact Hcontent].
  - destruct (buffer_get_first_bytes
                (Buffer.ni_buffer_init_reader (Sim.bytes "xyz") 3) 4) as [_ Hunder].
    + by_computing.
    + by_computing.
    + by_computing.
    + apply Hunder. by_computing.
Defined.

Lemma content_init (region : list Byte.byte) (size : Z) :
  Buffer.content (Buffer.ni_buffer_init region size) = [].
Proof. reflexivity. Qed.

(** X3.  Bytes come out in the order they went in: on a buffer initialised
    over a region that has room for both, two puts followed by two gets of
    the same lengths return the first and then the second array, and leave
    the buffer empty. *)
Theorem buffer_put_get_round_trip (region d1 d2 : list Byte.byte) (size : Z) :
  0 <= size <= Z.of_nat (length region) ->
  Z.of_nat (length region) < 2 ^ 64 ->
  Z.of_nat (length d1) + Z.of_nat (length d2) <= size ->
  exists b1 b2 b3 b4,
    Buffer.ni_buffer_put (Buffer.ni_buffer_init region size) (Some d1)
      (Z.of_nat (length d1)) = Some b1
    /\ Buffer.ni_buffer_put b1 (Some d2) (Z.of_nat (length d2)) = Some b2
    /\ Buffer.ni_buffer_get b2 (Z.of_nat (length d1)) = Some (0, d1, b3)
    /\ Buffer.ni_buffer_get b3 (Z.of_nat (length d2)) = Some (0, d2, b4)
    /\ Buffer.content b4 = []
    /\ Buffer.overflow b4 = false /\ Buffer.underflow b4 = false.
Proof.
  intros Hsize Hmax Hroom.
  set (b0 := Buffer.ni_buffer_init region size).
  assert (H0 : Buffer.consistent b0) by (unfold Buffer.consistent; cbn; lia).
  destruct (put_fits b0 d1 (Z.of_nat (length d1)) H0)
    as (b1 & Hp1 & Hc1 & Hh1 & Ht1 & Hs1 & Hb1 & Ho1 & Hu1); [lia | cbn; lia | lia |].
  assert (H1 : Buffer.consistent b1).
  { unfold Buffer.consistent. rewrite Hh1, Ht1, Hs1, Hb1. cbn; lia. }
  destruct (put_fits b1 d2 (Z.of_nat (length d2)) H1)
    as (b2 & Hp2 & Hc2 & Hh2 & Ht2 & Hs2 & Hb2 & Ho2 & Hu2);
    [lia | rewrite Ht1, Hs1; cbn; lia | lia |].
  assert (H2 : Buffer.consistent b2).
  { unfold Buffer.consistent. rewrite Hh2, Ht2, Hs2, Hb2, Hh1, Ht1, Hs1, Hb1.
    cbn; lia. }
  rewrite Nat2Z.id in Hc1, Hc2. rewrite firstn_all in Hc1, Hc2.
  assert (Hc0 : Buffer.content b0 = []) by apply content_init.
  rewrite Hc0 in Hc1. cbn [app] in Hc1. rewrite Hc1 in Hc2.
  destruct (get_fits b2 (Z.of_nat (length d1)) H2)
    as (b3 & Hg3 & Hc3 & Hh3 & Ht3 & Hs3 & Hb3 & Ho3 & Hu3);
    [lia | rewrite Ht2, Hh2, Ht1, Hh1; cbn; lia |].
  assert (H3 : Buffer.consistent b3).
  { unfold Buffer.consistent.
    rewrite Hh3, Ht3, Hs3, Hb3, Hh2, Ht2, Hs2, Hb2, Hh1, Ht1, Hs1, Hb1. cbn; lia. }
  rewrite Nat2Z.id, Hc2 in Hg3, Hc3.
  rewrite take_app_length in Hg3. rewrite drop_app_length in Hc3.
  destruct (get_fits b3 (Z.of_nat (length d2)) H3)
    as (b4 & Hg4 & Hc4 & Hh4 & Ht4 & Hs4 & Hb4 & Ho4 & Hu4);
    [lia | rewrite Ht3, Hh3, Ht2, Hh2, Ht1, Hh1; cbn; lia |].
  rewrite Nat2Z.id, Hc3 in Hg4, Hc4.
  rewrite firstn_all in Hg4. rewrite drop_all in Hc4.
  exists b1, b2, b3, b4. repeat split; try assumption.
  - now rewrite Ho4, Ho3, Ho2, Ho1.
  - now rewrite Hu4, Hu3, Hu2, Hu1.
Qed.

Lemma buffer_put_get_round_trip_witness :
  exists b1 b2 b3 b4,
    Buffer.ni_buffer_put (Buffer.ni_buffer_init (Sim.zeroed 8) 8)
      (Some (Sim.bytes "dhcp")) 4 = Some b1
    /\ Buffer.ni_buffer_put b1 (Some (Sim.bytes "arp")) 3 = Some b2
    /\ Buffer.ni_buffer_get b2 4 = Some (0, Sim.bytes "dhcp", b3)
    /\ Buffer.ni_buffer_get b3 3 = Some (0, Sim.bytes "arp", b4)
    /\ Buffer.content b4 = []
    /\ Buffer.overflow b4 = false /\ Buffer.underflow b4 = false.
Proof.
  apply (buffer_put_get_round_trip (Sim.zeroed 8) (Sim.bytes "dhcp")
           (Sim.bytes "arp") 8); by_computing.
Defined.

(** X4.  ni_buffer_getc on a consistent buffer: with no content it returns
    EOF and leaves the buffer as it is (the underflow flag is not set);
    otherwise it returns the first byte of the content, a value from 0 to
    255, and removes it. *)
Theorem buffer_getc_first_byte (bp : Buffer.ni_buffer_t) :
  Buffer.consistent bp ->
  (Buffer.content bp = [] -> Buffer.ni_buffer_getc bp = Some (Buffer.EOF, bp))
  /\ (forall b rest,
        Buffer.content bp = b :: rest ->
        exists bp',
          Buffer.ni_buffer_getc bp = Some (Z.of_N (Byte.to_N b), bp')
          /\ 0 <= Z.of_N (Byte.to_N b) <= 255
          /\ Buffer.content bp' = rest
          /\ Buffer.underflow bp' = Buffer.underflow bp
          /\ Buffer.consistent bp').
Proof.
  intros (Hh & Hht & Hts & Hsz & Hmax).
  assert (Hcount : length (Buffer.content bp)
                   = Z.to_nat (Buffer.tail bp - Buffer.head bp)).
  { unfold Buffer.content. rewrite length_take, length_drop. lia. }
  split.
  - intros Hempty. rewrite Hempty in Hcount. cbn in Hcount.
    unfold Buffer.ni_buffer_getc.
    assert (Hge : (Buffer.head bp >=? Buffer.tail bp) = true)
      by (rewrite Z.geb_leb; apply Z.leb_le; lia).
    now rewrite Hge.
  - intros b rest Hcontent. rewrite Hcontent in Hcount. cbn in Hcount.
    unfold Buffer.ni_buffer_getc.
    assert (Hlt : (Buffer.head bp >=? Buffer.tail bp) = false)
      by (rewrite Z.geb_leb; apply Z.leb_gt; lia).
    assert (Hpos : (0 <=? Buffer.head bp) = true) by (apply Z.leb_le; lia).
    rewrite Hlt, Hpos.
    unfold Buffer.content in Hcontent.
    destruct (drop (Z.to_nat (Buffer.head bp)) (Buffer.base bp)) as [|b' l] eqn:Hdrop;
      [now rewrite take_nil in Hcontent|].
    replace (Z.to_nat (Buffer.tail bp - Buffer.head bp))
      with (S (Z.to_nat (Buffer.tail bp - (Buffer.head bp + 1)))) in Hcontent by lia.
    cbn in Hcontent. injection Hcontent as -> Hrest.
    assert (Hlookup : Buffer.base bp !! Z.to_nat (Buffer.head bp) = Some b).
    { pose proof (lookup_drop (Buffer.base bp) (Z.to_nat (Buffer.head bp)) 0) as Hl.
      rewrite Hdrop, Nat.add_0_r in Hl. now rewrite <- Hl. }
    rewrite Hlookup. eexists. split; [reflexivity|].
    rewrite size_t_wrap_small by lia.
    repeat split.
    + lia.
    + pose proof (Byte.to_N_bounded b). lia.
    + unfold Buffer.content; cbn.
      replace (Z.to_nat (Buffer.head bp + 1)) with (S (Z.to_nat (Buffer.head bp))) by lia.
      pose proof (drop_drop (Buffer.base bp) 1 (Z.to_nat (Buffer.head bp))) as Hdd.
      rewrite Nat.add_1_r in Hdd. rewrite <- Hdd, Hdrop. cbn. exact Hrest.
    + cbn; lia.
    + cbn; lia.
    + cbn; lia.
    + cbn; lia.
    + cbn; lia.
Qed.

Lemma buffer_getc_first_byte_witness :
  Buffer.ni_buffer_getc (Buffer.ni_buffer_init (Sim.zeroed 4) 4)
  = Some (Buffer.EOF, Buffer.ni_buffer_init (Sim.zeroed 4) 4)
  /\ exists bp',
       Buffer.ni_buffer_getc (Buffer.ni_buffer_init_reader (Sim.bytes "ok") 2)
       = Some (111, bp')
       /\ Buffer.content bp' = Sim.bytes "k".
Proof.
  split.
  - apply (buffer_getc_first_byte (Buffer.ni_buffer_init (Sim.zeroed 4) 4));
      by_computing.
  - destruct (buffer_getc_first_byte
                (Buffer.ni_buffer_init_reader (Sim.bytes "ok") 2)) as [_ Hfirst];
      [by_computing|].
    destruct (Hfirst Byte.x6f (Sim.bytes "k")) as (bp' & Hgetc & _ & Hrest & _);
      [by_computing|].
    exists bp'. split; [exact Hgetc | exact Hrest].
Defined.

(** X5.  The checked operations (put, putc, get, getc, push_head,
    push_tail, pull_head and clear) keep a buffer consistent: after any
    sequence of them that stays inside the region, head is at most tail,
    tail at most size, and the size of the buffer and of its region are
    what they were.  The size_t arguments are taken not to wrap around when
    added to the size. *)
Theorem buffer_operations_keep_consistent (ops : list Buffer.operation)
    (bp bp' : Buffer.ni_buffer_t) :
  Buffer.consistent bp ->
  Forall (fun op => 0 <= Buffer.argument op
                    /\ Buffer.size bp + Buffer.argument op < 2 ^ 64) ops ->
  Buffer.perform_all ops bp = Some bp' ->
  Buffer.consistent bp' /\ Buffer.size bp' = Buffer.size bp
  /\ length (Buffer.base bp') = length (Buffer.base bp).
Proof.
  revert bp. induction ops as [|op later IH]; intros bp Hbp Hargs Hall; cbn in Hall.
  - injection Hall as <-. split; [exact Hbp | split; reflexivity].
  - apply Forall_cons in Hargs. destruct Hargs as [[Hpos Hmax] Hlater].
    destruct (Buffer.perform op bp) as [bp1|] eqn:Hop; [|discriminate].
    destruct (perform_consistent op bp bp1 Hbp Hpos Hmax Hop) as (Hbp1 & Hs1 & Hb1).
    destruct (IH bp1 Hbp1) as (Hbp' & Hs' & Hb'); [|exact Hall|].
    + rewrite Hs1. exact Hlater.
    + split; [exact Hbp' | split; congruence].
Qed.

Lemma buffer_operations_keep_consistent_witness :
  exists bp',
    Buffer.perform_all Sim.buffer_script (Buffer.ni_buffer_init (Sim.zeroed 8) 8)
    = Some bp'
    /\ Buffer.consistent bp' /\ Buffer.size bp' = 8
    /\ length (Buffer.base bp') = 8%nat.
Proof.
  eexists. split; [by_computing|].
  apply (buffer_operations_keep_consistent Sim.buffer_script
           (Buffer.ni_buffer_init (Sim.zeroed 8) 8)).
  - by_computing.
  - unfold Sim.buffer_script. repeat constructor; by_computing.
  - by_computing.
Defined.

Lemma perform_flags (op : Buffer.operation) (bp bp' : Buffer.ni_buffer_t) :
  Buffer.perform op bp = Some bp' ->
  (Buffer.overflow bp = true -> Buffer.overflow bp' = true)
  /\ (Buffer.underflow bp = true -> Buffer.underflow bp' = true).
Proof.
  assert (Hput : forall data len,
            Buffer.ni_buffer_put bp data len = Some bp' ->
            (Buffer.overflow bp = true -> Buffer.overflow bp' = true)
            /\ (Buffer.underflow bp = true -> Buffer.underflow bp' = true)).
  { intros data len. unfold Buffer.ni_buffer_put.
    destruct (Buffer.size_t_wrap (Buffer.tail bp + len) >? Buffer.size bp).
    - intros [= <-]. cbn. auto.
    - destruct data as [bytes|].
      + destruct (len <=? Z.of_nat (length bytes)); [|discriminate].
        destruct (Buffer.region_write _ _ _ _); [|discriminate].
        intros [= <-]. cbn. auto.
      + intros [= <-]. cbn. auto. }
  destruct op as [data len | cc | len | | count | count | count | ];
    cbn [Buffer.perform].
  - apply Hput.
  - apply Hput.
  - unfold Buffer.ni_buffer_get.
    destruct (Buffer.size_t_wrap (Buffer.head bp + len) >? Buffer.tail bp).
    + intros [= <-]. cbn. auto.
    + destruct (Buffer.region_read _ _ _); [|discriminate].
      intros [= <-]. cbn. auto.
  - unfold Buffer.ni_buffer_getc.
    destruct (Buffer.head bp >=? Buffer.tail bp).
    + intros [= <-]. auto.
    + destruct (if 0 <=? Buffer.head bp
                then Buffer.base bp !! Z.to_nat (Buffer.head bp) else None);
        [|discriminate].
      intros [= <-]. cbn. auto.
  - unfold Buffer.ni_buffer_push_head.
    destruct (Buffer.head bp <? count); intros [= <-]; cbn; auto.
  - unfold Buffer.ni_buffer_push_tail.
    destruct (Buffer.size_t_wrap (Buffer.size bp - Buffer.tail bp) <? count);
      intros [= <-]; cbn; auto.
  - unfold Buffer.ni_buffer_pull_head.
    destruct (Buffer.size_t_wrap (Buffer.tail bp - Buffer.head bp) <? count);
      intros [= <-]; cbn; auto.
  - intros [= <-]. cbn. auto.
Qed.

(** X6.  The overflow and underflow flags stay set: no sequence of put,
    putc, get, getc, push_head, push_tail, pull_head and clear resets a
    flag that was raised; ni_buffer_clear in particular empties the buffer
    without clearing them. *)
Theorem buffer_flags_stay_set (ops : list Buffer.operation)
    (bp bp' : Buffer.ni_buffer_t) :
  Buffer.perform_all ops bp = Some bp' ->
  (Buffer.overflow bp = true -> Buffer.overflow bp' = true)
  /\ (Buffer.underflow bp = true -> Buffer.underflow bp' = true).
Proof.
  revert bp. induction ops as [|op later IH]; intros bp Hall; cbn in Hall.
  - injection Hall as <-. now split.
  - destruct (Buffer.perform op bp) as [bp1|] eqn:Hop; [|discriminate].
    destruct (perform_flags op bp bp1 Hop) as [Ho Hu].
    destruct (IH bp1 Hall) as [Ho' Hu']. split; auto.
Qed.

Lemma buffer_flags_stay_set_witness :
  exists bp',
    Buffer.perform_all [Buffer.Clear; Buffer.Putc Byte.x21; Buffer.Getc]
      (Buffer.set_overflow (Buffer.set_underflow
                              (Buffer.ni_buffer_init (Sim.zeroed 2) 2))) = Some bp'
    /\ Buffer.overflow bp' = true /\ Buffer.underflow bp' = true.
Proof.
  eexists. split; [by_computing|].
  split;
    apply (buffer_flags_stay_set
             [Buffer.Clear; Buffer.Putc Byte.x21; Buffer.Getc]
             (Buffer.set_overflow (Buffer.set_underflow
                                     (Buffer.ni_buffer_init (Sim.zeroed 2) 2)))
             _ eq_refl);
    reflexivity.
Defined.

(** X7.  On a consistent buffer of less than 2^32 bytes, ni_buffer_count is
    the number of bytes of the content, ni_buffer_tailroom the room left
    behind tail, and head, count and tailroom add up to the size. *)
Theorem buffer_count_and_tailroom (bp : Buffer.ni_buffer_t) :
  Buffer.consistent bp -> Buffer.size bp < 2 ^ 32 ->
  Buffer.ni_buffer_count bp = Z.of_nat (length (Buffer.content bp))
  /\ Buffer.ni_buffer_tailroom bp = Buffer.size bp - Buffer.tail bp
  /\ Buffer.head bp + Buffer.ni_buffer_count bp + Buffer.ni_buffer_tailroom bp
     = Buffer.size bp.
Proof.
  intros (Hh & Hht & Hts & Hsz & Hmax) Hsmall.
  assert (Hcount : Buffer.ni_buffer_count bp = Buffer.tail bp - Buffer.head bp).
  { unfold Buffer.ni_buffer_count.
    destruct (Buffer.tail bp >? Buffer.head bp) eqn:Hgt.
    - rewrite size_t_wrap_small, uint_wrap_small; lia.
    - rewrite Z.gtb_ltb in Hgt. apply Z.ltb_ge in Hgt. lia. }
  assert (Hroom : Buffer.ni_buffer_tailroom bp = Buffer.size bp - Buffer.tail bp).
  { unfold Buffer.ni_buffer_tailroom.
    destruct (Buffer.size bp >? Buffer.tail bp) eqn:Hgt.
    - rewrite size_t_wrap_small, uint_wrap_small; lia.
    - rewrite Z.gtb_ltb in Hgt. apply Z.ltb_ge in Hgt. lia. }
  repeat split.
  - rewrite Hcount. unfold Buffer.content. rewrite length_take, length_drop. lia.
  - exact Hroom.
  - lia.
Qed.

Lemma buffer_count_and_tailroom_witness :
  Buffer.ni_buffer_count (Buffer.ni_buffer_init_reader (Sim.bytes "packet") 6) = 6
  /\ Buffer.ni_buffer_tailroom (Buffer.ni_buffer_init (Sim.zeroed 8) 8) = 8.
Proof.
  split.
  - destruct (buffer_count_and_tailroom
                (Buffer.ni_buffer_init_reader (Sim.bytes "packet") 6)) as (Hc & _);
      [by_computing | by_computing | exact Hc].
  - destruct (buffer_count_and_tailroom (Buffer.ni_buffer_init (Sim.zeroed 8) 8))
      as (_ & Hr & _); [by_computing | by_computing | exact Hr].
Defined.

(** X8.  Reserving head room and claiming it back: on a consistent buffer
    with no content and room for [headroom] bytes, ni_buffer_reserve_head
    returns 0 and leaves the buffer empty; a later ni_buffer_push_head of
    the same count returns the place head was at before and makes the
    reserved bytes the content.  On a buffer with content the reservation
    returns -1 and changes nothing. *)
Theorem buffer_reserve_then_push_head (bp : Buffer.ni_buffer_t) (headroom : Z) :
  Buffer.consistent bp -> 0 <= headroom ->
  (Buffer.head bp = Buffer.tail bp ->
   Buffer.tail bp + headroom <= Buffer.size bp ->
   let '(rc, bp1) := Buffer.ni_buffer_reserve_head bp headroom in
   let '(place, bp2) := Buffer.ni_buffer_push_head bp1 headroom in
   rc = 0 /\ Buffer.content bp1 = []
   /\ place = Some (Buffer.head bp)
   /\ Z.of_nat (length (Buffer.content bp2)) = headroom
   /\ Buffer.head bp2 = Buffer.head bp
   /\ Buffer.overflow bp2 = Buffer.overflow bp
   /\ Buffer.consistent bp2)
  /\ (Buffer.head bp <> Buffer.tail bp ->
      Buffer.ni_buffer_reserve_head bp headroom = (-1, bp)).
Proof.
  intros (Hh & Hht & Hts & Hsz & Hmax) Hroom. split.
  - intros Hempty Hfit.
    unfold Buffer.ni_buffer_reserve_head.
    apply Z.eqb_eq in Hempty. rewrite Hempty. cbn [negb].
    apply Z.eqb_eq in Hempty.
    rewrite size_t_wrap_small by lia.
    unfold Buffer.ni_buffer_push_head. cbn [Buffer.head Buffer.set_head Buffer.set_tail].
    assert (Hge : (Buffer.tail bp + headroom <? headroom) = false)
      by (apply Z.ltb_ge; lia).
    rewrite Hge.
    rewrite size_t_wrap_small by lia.
    repeat split.
    + unfold Buffer.content; cbn. now rewrite Z.sub_diag.
    + f_equal. lia.
    + unfold Buffer.content; cbn. rewrite length_take, length_drop. lia.
    + cbn; lia.
    + cbn; lia.
    + cbn; lia.
    + cbn; lia.
    + cbn; lia.
    + cbn; lia.
  - intros Hcontent. unfold Buffer.ni_buffer_reserve_head.
    apply Z.eqb_neq in Hcontent. now rewrite Hcontent.
Qed.

Lemma buffer_reserve_then_push_head_witness :
  (let '(rc, bp1) := Buffer.ni_buffer_reserve_head (Buffer.ni_buffer_init (Sim.zeroed 8) 8) 3 in
   let '(place, bp2) := Buffer.ni_buffer_push_head bp1 3 in
   rc = 0 /\ Buffer.content bp1 = []
   /\ place = Some 0
   /\ Z.of_nat (length (Buffer.content bp2)) = 3
   /\ Buffer.head bp2 = 0
   /\ Buffer.overflow bp2 = false
   /\ Buffer.consistent bp2)
  /\ Buffer.ni_buffer_reserve_head (Buffer.ni_buffer_init_reader (Sim.bytes "xy") 2) 3
     = (-1, Buffer.ni_buffer_init_reader (Sim.bytes "xy") 2).
Proof.
  split.
  - refine (proj1 (buffer_reserve_then_push_head
                     (Buffer.ni_buffer_init (Sim.zeroed 8) 8) 3 _ _) _ _);
      by_computing.
  - refine (proj2 (buffer_reserve_then_push_head
                     (Buffer.ni_buffer_init_reader (Sim.bytes "xy") 2) 3 _ _) _);
      by_computing.
Defined.

(** X9.  ni_buffer_pad on a consistent buffer.  With tail at or past
    [min_size] nothing changes.  With tail before [min_size] and [min_size]
    within the size, the content grows by copies of the pad byte until tail
    is [min_size].  The function compares [min_size] with tail only: a
    [min_size] past the size but inside the region moves tail past the size
    without raising the overflow flag, and a [min_size] past the region is
    a write outside it. *)
Theorem buffer_pad_fills (bp : Buffer.ni_buffer_t) (min_size : Z)
    (padbyte : Byte.byte) :
  Buffer.consistent bp -> 0 <= min_size < 2 ^ 64 ->
  (min_size <= Buffer.tail bp -> Buffer.ni_buffer_pad bp min_size padbyte = Some bp)
  /\ (Buffer.tail bp < min_size -> min_size <= Z.of_nat (length (Buffer.base bp)) ->
      exists bp',
        Buffer.ni_buffer_pad bp min_size padbyte = Some bp'
        /\ Buffer.content bp'
           = (Buffer.content bp
              ++ replicate (Z.to_nat (min_size - Buffer.tail bp)) padbyte)%list
        /\ Buffer.tail bp' = min_size
        /\ Buffer.overflow bp' = Buffer.overflow bp
        /\ (min_size <= Buffer.size bp -> Buffer.consistent bp'))
  /\ (Buffer.tail bp < min_size -> Z.of_nat (length (Buffer.base bp)) < min_size ->
      Buffer.ni_buffer_pad bp min_size padbyte = None).
Proof.
  intros (Hh & Hht & Hts & Hsz & Hmax) Hmin. repeat split.
  - intros Hfull. unfold Buffer.ni_buffer_pad.
    assert (Hge : (Buffer.tail bp >=? min_size) = true)
      by (rewrite Z.geb_leb; apply Z.leb_le; lia).
    now rewrite Hge.
  - intros Hshort Hregion. unfold Buffer.ni_buffer_pad.
    assert (Hlt : (Buffer.tail bp >=? min_size) = false)
      by (rewrite Z.geb_leb; apply Z.leb_gt; lia).
    rewrite Hlt. rewrite size_t_wrap_small by lia.
    unfold Buffer.region_write.
    assert (Hcond : (0 <=? Buffer.tail bp) && (0 <=? min_size - Buffer.tail bp)
              && (Buffer.tail bp + (min_size - Buffer.tail bp)
                  <=? Z.of_nat (length (Buffer.base bp)))
              && (Z.of_nat (length (replicate (Z.to_nat (min_size - Buffer.tail bp))
                                      padbyte))
                  =? min_size - Buffer.tail bp) = true).
    { rewrite length_replicate.
      repeat (apply andb_true_intro; split);
        first [apply Z.leb_le; lia | apply Z.eqb_eq; lia]. }
    rewrite Hcond. eexists. split; [reflexivity|].
    cbn. repeat split.
    + unfold Buffer.content; cbn.
      replace (Z.to_nat (Buffer.tail bp + (min_size - Buffer.tail bp)))
        with (Z.to_nat (Buffer.tail bp) + Z.to_nat (min_size - Buffer.tail bp))%nat
        by lia.
      replace (Z.to_nat (min_size - Buffer.head bp))
        with (Z.to_nat (Buffer.tail bp) + Z.to_nat (min_size - Buffer.tail bp)
              - Z.to_nat (Buffer.head bp))%nat by lia.
      replace (Z.to_nat (Buffer.tail bp - Buffer.head bp))
        with (Z.to_nat (Buffer.tail bp) - Z.to_nat (Buffer.head bp))%nat by lia.
      apply window_region_written; [lia | lia | apply length_replicate].
    + cbn; lia.
    + cbn; lia.
    + cbn; lia.
    + cbn. replace (Z.to_nat (Buffer.tail bp + (min_size - Buffer.tail bp)))
        with (Z.to_nat (Buffer.tail bp) + Z.to_nat (min_size - Buffer.tail bp))%nat
        by lia.
      rewrite length_region_written; [lia | lia | apply length_replicate].
    + cbn. replace (Z.to_nat (Buffer.tail bp + (min_size - Buffer.tail bp)))
        with (Z.to_nat (Buffer.tail bp) + Z.to_nat (min_size - Buffer.tail bp))%nat
        by lia.
      rewrite length_region_written; [lia | lia | apply length_replicate].
  - intros Hshort Hout. unfold Buffer.ni_buffer_pad.
    assert (Hlt : (Buffer.tail bp >=? min_size) = false)
      by (rewrite Z.geb_leb; apply Z.leb_gt; lia).
    rewrite Hlt. rewrite size_t_wrap_small by lia.
    unfold Buffer.region_write.
    assert (Hbound : (Buffer.tail bp + (min_size - Buffer.tail bp)
                      <=? Z.of_nat (length (Buffer.base bp))) = false)
      by (apply Z.leb_gt; lia).
    rewrite Hbound. now rewrite andb_false_r.
Qed.

Lemma buffer_pad_fills_witness :
  (exists bp',
     Buffer.ni_buffer_pad (Buffer.ni_buffer_init (Sim.zeroed 8) 4) 3 Byte.xff = Some bp'
     /\ Buffer.content bp' = [Byte.xff; Byte.xff; Byte.xff])
  /\ (exists bp',
        Buffer.ni_buffer_pad (Buffer.ni_buffer_init (Sim.zeroed 8) 4) 6 Byte.xff
        = Some bp'
        /\ Buffer.tail bp' = 6 /\ Buffer.size bp' = 4 /\ Buffer.overflow bp' = false)
  /\ Buffer.ni_buffer_pad (Buffer.ni_buffer_init (Sim.zeroed 8) 4) 9 Byte.xff = None.
Proof.
  destruct (buffer_pad_fills (Buffer.ni_buffer_init (Sim.zeroed 8) 4) 3 Byte.xff)
    as (_ & Hin & _); [by_computing | by_computing |].
  destruct (buffer_pad_fills (Buffer.ni_buffer_init (Sim.zeroed 8) 4) 6 Byte.xff)
    as (_ & Hpast & _); [by_computing | by_computing |].
  destruct (buffer_pad_fills (Buffer.ni_buffer_init (Sim.zeroed 8) 4) 9 Byte.xff)
    as (_ & _ & Hout); [by_computing | by_computing |].
  split; [|split].
  - destruct Hin as (bp' & Hpad & Hcontent & _); [by_computing | by_computing |].
    exists bp'. split; [exact Hpad | exact Hcontent].
  - destruct Hpast as (bp' & Hpad & _ & Htail & Hover & _);
      [by_computing | by_computing |].
    exists bp'. repeat split; try assumption.
    vm_compute in Hpad. injection Hpad as <-. reflexivity.
  - apply Hout; by_computing.
Defined.

(** X10.  ni_buffer_pull_head on a consistent buffer: when the content has
    [count] bytes the call returns the place of the first of them, where
    the region holds the first [count] bytes of the content, and removes
    them from the content; otherwise it returns NULL and raises the
    overflow flag, leaving the underflow flag as it was. *)
Theorem buffer_pull_head_takes (bp : Buffer.ni_buffer_t) (count : Z) :
  Buffer.consistent bp -> 0 <= count ->
  (count <= Z.of_nat (length (Buffer.content bp)) ->
   exists bp',
     Buffer.ni_buffer_pull_head bp count = (Some (Buffer.head bp), bp')
     /\ Buffer.region_read (Buffer.base bp) (Buffer.head bp) count
        = Some (take (Z.to_nat count) (Buffer.content bp))
     /\ Buffer.content bp' = drop (Z.to_nat count) (Buffer.content bp)
     /\ Buffer.consistent bp')
  /\ (Z.of_nat (length (Buffer.content bp)) < count ->
      Buffer.ni_buffer_pull_head bp count = (None, Buffer.set_overflow bp)
      /\ Buffer.underflow (Buffer.set_overflow bp) = Buffer.underflow bp).
Proof.
  intros Hbp Hcount.
  pose proof Hbp as (Hh & Hht & Hts & Hsz & Hmax).
  assert (Hlen : Z.of_nat (length (Buffer.content bp))
                 = Buffer.tail bp - Buffer.head bp).
  { unfold Buffer.content. rewrite length_take, length_drop. lia. }
  rewrite Hlen. unfold Buffer.ni_buffer_pull_head.
  rewrite (size_t_wrap_small (Buffer.tail bp - Buffer.head bp)) by lia.
  split.
  - intros Hfit.
    assert (Hge : (Buffer.tail bp - Buffer.head bp <? count) = false)
      by (apply Z.ltb_ge; lia).
    rewrite Hge.
    destruct (get_fits bp count Hbp Hcount Hfit)
      as (bp' & Hget & Hcontent & Hh1 & Ht1 & Hs1 & Hb1 & Ho1 & Hu1).
    unfold Buffer.ni_buffer_get in Hget.
    rewrite size_t_wrap_small in Hget by lia.
    destruct (Buffer.head bp + count >? Buffer.tail bp); [discriminate|].
    destruct (Buffer.region_read (Buffer.base bp) (Buffer.head bp) count)
      as [bytes|]; [|discriminate].
    injection Hget as -> <-.
    rewrite size_t_wrap_small by lia.
    eexists. repeat split; try reflexivity; try exact Hcontent.
    all: cbn; lia.
  - intros Hunder.
    assert (Hlt : (Buffer.tail bp - Buffer.head bp <? count) = true)
      by (apply Z.ltb_lt; lia).
    rewrite Hlt. now split.
Qed.

Lemma buffer_pull_head_takes_witness :
  (exists bp',
     Buffer.ni_buffer_pull_head (Buffer.ni_buffer_init_reader (Sim.bytes "header") 6) 4
     = (Some 0, bp')
     /\ Buffer.content bp' = Sim.bytes "er")
  /\ fst (Buffer.ni_buffer_pull_head
            (Buffer.ni_buffer_init_reader (Sim.bytes "header") 6) 7) = None.
Proof.
  destruct (buffer_pull_head_takes
              (Buffer.ni_buffer_init_reader (Sim.bytes "header") 6) 4)
    as [Hfit _]; [by_computing | by_computing |].
  destruct (buffer_pull_head_takes
              (Buffer.ni_buffer_init_reader (Sim.bytes "header") 6) 7)
    as [_ Hunder]; [by_computing | by_computing |].
  split.
  - destruct Hfit as (bp' & Hpull & _ & Hcontent & _); [by_computing|].
    exists bp'. split; [exact Hpull | exact Hcontent].
  - destruct Hunder as [Hpull _]; [by_computing|]. now rewrite Hpull.
Defined.

(** ** The registry of extensions *)

Section RegistryProperties.
Context {xpath_format : Type}.
Variables NI_AF_MASK_IPV4 NI_AF_MASK_IPV6 : Z.
Implicit Types (registry : list (Extension.ni_extension_t xpath_format))
               (ex : Extension.ni_extension_t xpath_format).

Lemma first_match_spec (mask type : Z) registry :
  match Extension.first_match mask type registry with
  | Some ex =>
      exists before after,
        registry = (before ++ ex :: after)%list
        /\ Extension.matches mask type ex = true
        /\ Forall (fun ex' => Extension.matches mask type ex' = false) before
  | None => Forall (fun ex' => Extension.matches mask type ex' = false) registry
  end.
Proof.
  induction registry as [|ex next IH]; cbn.
  - constructor.
  - destruct (Extension.matches mask type ex) eqn:Hex.
    + exists [], next. repeat split; [exact Hex | constructor].
    + destruct (Extension.first_match mask type next) as [found|].
      * destruct IH as (before & after & -> & Hfound & Hbefore).
        exists (ex :: before), after. repeat split; [exact Hfound|].
        now constructor.
      * now constructor.
Qed.

(** X11.  ni_extension_list_find returns the first extension, in
    declaration order, that has the type asked for and supports the
    address family: every extension declared before the one returned fails
    that test.  It returns NULL when no extension passes it, and for every
    address family other than AF_UNSPEC, AF_INET and AF_INET6. *)
Theorem extension_find_first_declared registry (type af : Z) :
  match Extension.ni_extension_list_find NI_AF_MASK_IPV4 NI_AF_MASK_IPV6
          registry type af with
  | Some ex =>
      exists mask before after,
        Extension.af_mask NI_AF_MASK_IPV4 NI_AF_MASK_IPV6 af = Some mask
        /\ registry = (before ++ ex :: after)%list
        /\ Extension.matches mask type ex = true
        /\ Forall (fun ex' => Extension.matches mask type ex' = false) before
  | None =>
      (af <> Extension.AF_UNSPEC /\ af <> Extension.AF_INET
       /\ af <> Extension.AF_INET6)
      \/ exists mask,
           Extension.af_mask NI_AF_MASK_IPV4 NI_AF_MASK_IPV6 af = Some mask
           /\ Forall (fun ex' => Extension.matches mask type ex' = false) registry
  end.
Proof.
  unfold Extension.ni_extension_list_find.
  destruct (Extension.af_mask NI_AF_MASK_IPV4 NI_AF_MASK_IPV6 af) as [mask|] eqn:Hmask.
  - pose proof (first_match_spec mask type registry) as Hfirst.
    destruct (Extension.first_match mask type registry) as [ex|].
    + destruct Hfirst as (before & after & Hsplit & Hex & Hbefore).
      now exists mask, before, after.
    + right. now exists mask.
  - left. unfold Extension.af_mask in Hmask.
    destruct (af =? Extension.AF_UNSPEC) eqn:H0; [discriminate|].
    destruct (af =? Extension.AF_INET) eqn:H4; [discriminate|].
    destruct (af =? Extension.AF_INET6) eqn:H6; [discriminate|].
    apply Z.eqb_neq in H0, H4, H6. now repeat split.
Qed.

Lemma first_match_app (mask type : Z) registry1 registry2 :
  Extension.first_match mask type (registry1 ++ registry2)
  = match Extension.first_match mask type registry1 with
    | Some ex => Some ex
    | None => Extension.first_match mask type registry2
    end.
Proof.
  induction registry1 as [|ex next IH]; cbn; [reflexivity|].
  now destruct (Extension.matches mask type ex).
Qed.

(** X12.  ni_extension_new links the new descriptor behind all the others
    and leaves every lookup as it was: the new extension supports no
    address family yet, so ni_extension_list_find does not return it for
    any type and family, and the extensions declared before keep their
    rank. *)
Theorem extension_new_keeps_lookups registry (name : string) (type : Z) :
  let '(registry', ex) := Extension.ni_extension_new registry name type in
  registry' = (registry ++ [ex])%list
  /\ Extension.name ex = name /\ Extension.type ex = type
  /\ forall wanted af,
       Extension.ni_extension_list_find NI_AF_MASK_IPV4 NI_AF_MASK_IPV6
         registry' wanted af
       = Extension.ni_extension_list_find NI_AF_MASK_IPV4 NI_AF_MASK_IPV6
           registry wanted af.
Proof.
  cbn. repeat split. intros wanted af.
  unfold Extension.ni_extension_list_find.
  destruct (Extension.af_mask NI_AF_MASK_IPV4 NI_AF_MASK_IPV6 af) as [mask|];
    [|reflexivity].
  rewrite first_match_app.
  destruct (Extension.first_match mask wanted registry); [reflexivity|].
  cbn. unfold Extension.matches. cbn. now rewrite Z.land_0_l.
Qed.

(** X13.  A lookup for any address family (AF_UNSPEC) finds an extension
    whenever the lookup for IPv4 or for IPv6 finds one, the family masks
    being unsigned int values. *)
Theorem extension_find_unspec_finds registry (type af : Z)
    (ex : Extension.ni_extension_t xpath_format) :
  0 <= NI_AF_MASK_IPV4 < 2 ^ 32 -> 0 <= NI_AF_MASK_IPV6 < 2 ^ 32 ->
  Extension.ni_extension_list_find NI_AF_MASK_IPV4 NI_AF_MASK_IPV6 registry type af
  = Some ex ->
  exists ex',
    Extension.ni_extension_list_find NI_AF_MASK_IPV4 NI_AF_MASK_IPV6 registry type
      Extension.AF_UNSPEC = Some ex'.
Proof.
  intros H4 H6.
  assert (Hbits : forall a mask,
            0 <= mask < 2 ^ 32 -> Z.land a mask <> 0 -> Z.land a 0xffffffff <> 0).
  { intros a mask Hmask Hland Hzero. apply Hland.
    replace mask with (Z.land 0xffffffff mask).
    - now rewrite Z.land_assoc, Hzero, Z.land_0_l.
    - change 0xffffffff with (Z.ones 32). rewrite Z.land_comm, Z.land_ones by lia.
      apply Z.mod_small. exact Hmask. }
  assert (Hfirst : forall mask,
            0 <= mask < 2 ^ 32 ->
            Extension.first_match mask type registry = Some ex ->
            exists ex', Extension.first_match 0xffffffff type registry = Some ex').
  { intros mask Hmask. induction registry as [|e next IH]; cbn; [discriminate|].
    destruct (Extension.matches mask type e) eqn:He.
    - intros _. unfold Extension.matches in *.
      apply andb_prop in He. destruct He as [Hsup Htype].
      apply negb_true_iff, Z.eqb_neq in Hsup.
      apply (Hbits _ _ Hmask) in Hsup. apply Z.eqb_neq in Hsup.
      rewrite Hsup, Htype. cbn. now exists e.
    - intros Hnext. destruct (Extension.matches 0xffffffff type e);
        [now exists e | now apply IH]. }
  unfold Extension.ni_extension_list_find, Extension.af_mask.
  cbn [Z.eqb Extension.AF_UNSPEC].
  destruct (af =? Extension.AF_UNSPEC); [intros Hfound; now exists ex|].
  destruct (af =? Extension.AF_INET); [now apply Hfirst|].
  destruct (af =? Extension.AF_INET6); [now apply Hfirst | discriminate].
Qed.

End RegistryProperties.

(** The registry of a host with a DHCPv4 client (type 1, IPv4), a DHCPv6
    client (type 1, IPv6) and a second DHCPv4 client. *)
Lemma extension_find_unspec_finds_witness :
  exists ex',
    Extension.ni_extension_list_find 1 2 Sim.registry 1 Extension.AF_UNSPEC = Some ex'.
Proof.
  apply (extension_find_unspec_finds 1 2 Sim.registry 1 Extension.AF_INET6
           (Sim.client "dhcp6" 2)); by_computing.
Defined.

(** ** More on extension commands *)

Section ExtensionRunProperties.
Context {xpath_format xml_node W : Type} `{!Extension.System xpath_format xml_node W}.
Implicit Types (w : world W (Extension.event xpath_format))
               (ex : Extension.ni_extension_t xpath_format)
               (xml : xml_node).

(** What ni_extension_active does, by cases on the expression. *)
Lemma extension_active_cases ex ifname xml w :
  match Extension.pid_file_path ex with
  | None => Extension.ni_extension_active ex ifname xml w = (0, w)
  | Some pid_file =>
      let '((ok, values), x) := Extension.xpath_format_eval pid_file xml (ext w) in
      let w1 := World x (trace w ++ [Extension.EvXpathEval pid_file ok values]) in
      match ok, values with
      | true, [path] =>
          let '(rc, x') := Extension.access path x in
          Extension.ni_extension_active ex ifname xml w
          = (if rc =? 0 then 1 else 0,
             World x' (trace w1 ++ [Extension.EvAccess path rc]))
      | _, _ => Extension.ni_extension_active ex ifname xml w = (0, w1)
      end
  end.
Proof.
  unfold Extension.ni_extension_active.
  destruct (Extension.pid_file_path ex) as [pid_file|]; [|reflexivity].
  unfold bind, Extension.eval, call; cbn.
  destruct (Extension.xpath_format_eval pid_file xml (ext w)) as [[ok values] x]; cbn.
  destruct ok; [|reflexivity].
  destruct values as [|path [|more rest]]; cbn; try reflexivity.
  destruct (Extension.access path x) as [rc x']; cbn.
  now destruct (rc =? 0).
Qed.

(** X14.  ni_extension_active answers 0 or 1, and it answers 1 only when
    the pid file expression evaluated to exactly one path and access found
    that path: its calls were that evaluation and that access, which
    returned 0. *)
Theorem extension_active_means_file_found ex ifname xml w :
  let '(rv, w') := Extension.ni_extension_active ex ifname xml w in
  (rv = 0 \/ rv = 1)
  /\ (rv = 1 ->
      exists pid_file path,
        Extension.pid_file_path ex = Some pid_file
        /\ new_events w w'
           = [Extension.EvXpathEval pid_file true [path]; Extension.EvAccess path 0]).
Proof.
  pose proof (extension_active_cases ex ifname xml w) as Hcases.
  destruct (Extension.pid_file_path ex) as [pid_file|].
  - cbn zeta in Hcases.
    destruct (Extension.xpath_format_eval pid_file xml (ext w)) as [[ok values] x].
    destruct ok; [destruct values as [|path [|more rest]]|]; try rewrite Hcases.
    2:{ destruct (Extension.access path x) as [rc x']. rewrite Hcases.
        destruct (rc =? 0) eqn:Hrc.
        - split; [now right|]. intros _. exists pid_file, path. split; [reflexivity|].
          apply Z.eqb_eq in Hrc. subst rc.
          apply new_events_app. cbn. now rewrite <- app_assoc.
        - split; [now left | discriminate]. }
    all: split; [now left | discriminate].
  - rewrite Hcases. split; [now left | discriminate].
Qed.

Lemma check_status_range ex ifname xml command_name status w :
  fst (Extension.check_status ex ifname xml command_name status w) = 0
  \/ fst (Extension.check_status ex ifname xml command_name status w) = -1.
Proof.
  unfold Extension.check_status.
  destruct (negb (Extension.WIFEXITED status)); [now right|].
  destruct (negb (Extension.WEXITSTATUS status =? 0)); [now right|].
  destruct (Extension.pid_file_path ex); [|now left].
  unfold bind.
  destruct (Extension.ni_extension_active ex ifname xml w) as [active w'].
  destruct (String.eqb command_name "start" && (active =? 0)); [now right|].
  destruct (String.eqb command_name "stop" && negb (active =? 0)); [now right|].
  now left.
Qed.

(** X15.  Whatever happens, a run that returns returns 0 or -1. *)
Theorem extension_run_returns_0_or_minus_1 rounds ex ifname xml command_name
    (command : option xpath_format) w :
  match fst (Extension.__ni_extension_run rounds ex ifname xml command_name command w)
  with
  | Extension.Returned rv => rv = 0 \/ rv = -1
  | Extension.NoReturn | Extension.StillWaiting => True
  end.
Proof.
  unfold Extension.__ni_extension_run, bind, ret.
  destruct command as [command|]; [|now left].
  destruct (Extension.expand_environment _ _ _ w) as [[env|] w1]; [|now right].
  destruct (Extension.eval command xml w1) as [r w2].
  destruct (negb (fst r) || negb (length (snd r) =? 1)%nat); [now right|].
  destruct (call _ Extension.signal_dfl w2) as [[] w3].
  destruct (call Extension.EvFork Extension.fork w3) as [pid w4].
  destruct (pid <? 0); [now right|].
  destruct (pid =? 0).
  - destruct (Extension.putenv_each env w4) as [[] w5].
    now destruct (call _ _ w5) as [[] w6].
  - destruct (Extension.wait_for_child rounds pid w4) as [[status| |] w5];
      [|now right | exact I].
    pose proof (check_status_range ex ifname xml command_name status w5) as Hrange.
    now destruct (Extension.check_status ex ifname xml command_name status w5).
Qed.

(** The loop over the environment, event by event: one evaluation per
    expression, in order, each giving at most one string, and the
    environment grows by those strings. *)
Lemma expand_environment_values (exprs : list xpath_format) xml env w env' w' :
  Extension.expand_environment exprs xml env w = (Some env', w') ->
  exists tr,
    trace w' = (trace w ++ tr)%list
    /\ Forall2 (fun e ev => exists values,
                  ev = Extension.EvXpathEval e true values
                  /\ (length values <= 1)%nat) exprs tr
    /\ env' = (env ++ flat_map Extension.event_values tr)%list.
Proof.
  revert env w. induction exprs as [|e rest IH]; intros env w;
    cbn [Extension.expand_environment].
  - intros [= <- <-]. exists []. repeat split.
    + now rewrite app_nil_r.
    + constructor.
    + now rewrite app_nil_r.
  - unfold bind. destruct (Extension.eval e xml w) as [[ok values] w1] eqn:Heval.
    apply eval_trace in Heval. cbn [fst snd] in *.
    destruct (negb ok || (1 <? length values)%nat) eqn:Hbad; [discriminate|].
    apply orb_false_iff in Hbad. destruct Hbad as [Hok Hone].
    apply negb_false_iff in Hok. subst ok. apply Nat.ltb_ge in Hone.
    intros Hrest. apply IH in Hrest. destruct Hrest as (tr & Htr & Hall & Henv).
    exists (Extension.EvXpathEval e true values :: tr). repeat split.
    + rewrite Htr, Heval, <- app_assoc. reflexivity.
    + constructor; [now exists values | exact Hall].
    + rewrite Henv. cbn [flat_map Extension.event_values].
      destruct values as [|v [|v' more]]; cbn in *; try lia.
      * reflexivity.
      * now rewrite <- app_assoc.
Qed.

Lemma putenv_each_trace (env : list string) w :
  trace (snd (Extension.putenv_each env w))
  = (trace w ++ map Extension.EvPutenv env)%list.
Proof.
  revert w. induction env as [|s rest IH]; intros w; cbn.
  - now rewrite app_nil_r.
  - unfold bind, call. destruct (Extension.putenv s (ext w)) as [[] x]. cbn.
    rewrite IH. cbn. now rewrite <- app_assoc.
Qed.

(** X16.  The child of a run.  When the expressions evaluate and fork
    returns 0, the run does not return to its caller: the process calls
    putenv with the strings that the expressions of the environment
    evaluated to, one per expression that gave a string, in the order of
    the expressions, and then execl of /bin/sh with -c and the command
    line. *)
Theorem extension_child_environment rounds ex ifname xml command_name
    (command : xpath_format) w env w1 command_string w2 w3 w4 :
  Extension.expand_environment (Extension.environment ex) xml [] w = (Some env, w1) ->
  Extension.eval command xml w1 = ((true, [command_string]), w2) ->
  call (fun _ => Extension.EvSignal) Extension.signal_dfl w2 = (tt, w3) ->
  call Extension.EvFork Extension.fork w3 = (0, w4) ->
  let '(outcome, w') :=
    Extension.__ni_extension_run rounds ex ifname xml command_name (Some command) w in
  outcome = Extension.NoReturn
  /\ new_events w4 w'
     = (map Extension.EvPutenv env
        ++ [Extension.EvExecl "/bin/sh" ["sh"; "-c"; command_string]])%list
  /\ env = flat_map Extension.event_values (new_events w w1)
  /\ Forall2 (fun e ev => exists values,
                ev = Extension.EvXpathEval e true values /\ (length values <= 1)%nat)
       (Extension.environment ex) (new_events w w1).
Proof.
  intros Henv Hcmd Hsig Hfork.
  unfold Extension.__ni_extension_run, bind.
  rewrite Henv, Hcmd. cbn [fst snd length Nat.eqb negb orb hd].
  rewrite Hsig, Hfork. cbn [Z.ltb Z.eqb Z.compare].
  pose proof (putenv_each_trace env w4) as Hput.
  destruct (Extension.putenv_each env w4) as [[] w5]. cbn [snd] in Hput.
  destruct (call _ _ w5) as [[] w6] eqn:Hexec.
  apply call_trace in Hexec.
  destruct (expand_environment_values _ _ _ _ _ _ Henv) as (tr & Htr & Hall & Hvalues).
  rewrite (new_events_app w w1 tr Htr).
  repeat split.
  - apply new_events_app. rewrite Hexec, Hput. now rewrite <- app_assoc.
  - exact Hvalues.
  - exact Hall.
Qed.

(** X17.  A child that did not exit, or exited with a status other than
    zero, makes the run return -1 at once: the pid file expression is not
    evaluated and the file system is not looked at. *)
Theorem extension_unclean_exit_fails rounds ex ifname xml command_name
    (command : xpath_format) w w' status :
  Extension.child_exit_status rounds ex xml command w w' status ->
  Extension.WIFEXITED status = false \/ Extension.WEXITSTATUS status <> 0 ->
  Extension.__ni_extension_run rounds ex ifname xml command_name (Some command) w
  = (Extension.Returned (-1), w').
Proof.
  intros Hchild Hunclean.
  rewrite (run_after_wait _ _ _ _ _ _ _ _ _ Hchild).
  unfold Extension.check_status.
  destruct Hunclean as [-> | Hcode]; [reflexivity|].
  destruct (Extension.WIFEXITED status); [|reflexivity].
  apply Z.eqb_neq in Hcode. now rewrite Hcode.
Qed.

(** X18.  A child that exited with status zero makes the run return 0 when
    the extension has no pid file expression, with no further call; and,
    with a pid file expression, when the probe agrees with the command: a
    start with the service running, a stop with the service not running,
    and any command of another name. *)
Theorem extension_clean_exit_succeeds rounds ex ifname xml command_name
    (command : xpath_format) w w' status :
  Extension.child_exit_status rounds ex xml command w w' status ->
  Extension.WIFEXITED status = true ->
  Extension.WEXITSTATUS status = 0 ->
  (Extension.pid_file_path ex = None ->
   Extension.__ni_extension_run rounds ex ifname xml command_name (Some command) w
   = (Extension.Returned 0, w'))
  /\ (forall pid_file active w'',
        Extension.pid_file_path ex = Some pid_file ->
        Extension.ni_extension_active ex ifname xml w' = (active, w'') ->
        (command_name = "start" /\ active <> 0)
        \/ (command_name = "stop" /\ active = 0)
        \/ (command_name <> "start" /\ command_name <> "stop") ->
        Extension.__ni_extension_run rounds ex ifname xml command_name (Some command) w
        = (Extension.Returned 0, w'')).
Proof.
  intros Hchild Hexited Hzero. split.
  - intros Hnone. rewrite (run_after_wait _ _ _ _ _ _ _ _ _ Hchild).
    unfold Extension.check_status. now rewrite Hexited, Hzero, Hnone.
  - intros pid_file active w'' Hpid Hactive Hagree.
    rewrite (run_after_wait _ _ _ _ _ _ _ _ _ Hchild).
    rewrite (check_status_exit_zero _ _ _ _ _ _ _ _ _ Hexited Hzero Hpid Hactive).
    destruct Hagree as [[-> Hrun] | [[-> Hrun] | [Hstart Hstop]]].
    + apply Z.eqb_neq in Hrun. cbn. now rewrite Hrun.
    + subst active. reflexivity.
    + apply String.eqb_neq in Hstart, Hstop. now rewrite Hstart, Hstop.
Qed.

Lemma wait_round_again rounds pid w answer w1 :
  call (fun r => Extension.EvWaitpid pid (fst (fst r)) (snd (fst r)) (snd r))
       (Extension.waitpid pid) w = (answer, w1) ->
  Extension.keeps_waiting pid answer = true ->
  Extension.wait_for_child (S rounds) pid w = Extension.wait_for_child rounds pid w1.
Proof.
  intros Hcall Hkeep. cbn [Extension.wait_for_child]. unfold bind. rewrite Hcall.
  unfold Extension.keeps_waiting in Hkeep.
  destruct (fst (fst answer) <? 0); [now rewrite Hkeep|].
  destruct (negb (fst (fst answer) =? pid)); [reflexivity|].
  now rewrite Hkeep.
Qed.

(** X19.  The wait loop looks through every answer of waitpid that is an
    interrupted call (EINTR), another process, or a child that is stopped
    but has not ended.  After any number [n] of such answers: the status
    of the child itself, not stopped, ends the loop with that status; an
    error other than EINTR ends it with a failure; and each of these
    results is the same for every bound on the rounds above [n], while [n]
    rounds or fewer are not enough. *)
Theorem wait_loop_looks_through (pid : Z) (n : nat) w w1 :
  Extension.waited_in_vain pid n w w1 -> 0 <= pid ->
  (forall status errno w2,
     call (fun r => Extension.EvWaitpid pid (fst (fst r)) (snd (fst r)) (snd r))
          (Extension.waitpid pid) w1 = ((pid, status, errno), w2) ->
     Extension.WIFSTOPPED status = false ->
     forall rounds, (n < rounds)%nat ->
       Extension.wait_for_child rounds pid w = (Extension.WaitStatus status, w2))
  /\ (forall reaped status errno w2,
        call (fun r => Extension.EvWaitpid pid (fst (fst r)) (snd (fst r)) (snd r))
             (Extension.waitpid pid) w1 = ((reaped, status, errno), w2) ->
        reaped < 0 -> errno <> Extension.EINTR ->
        forall rounds, (n < rounds)%nat ->
          Extension.wait_for_child rounds pid w = (Extension.WaitError, w2))
  /\ (forall rounds, (rounds <= n)%nat ->
        fst (Extension.wait_for_child rounds pid w) = Extension.WaitPending).
Proof.
  intros Hvain Hpid.
  induction Hvain as [w | n w answer w1 w2 Hcall Hkeep _ IH].
  - repeat split.
    + intros status errno w2 Hcall Hrun rounds Hrounds.
      destruct rounds as [|rounds]; [lia|].
      cbn [Extension.wait_for_child]. unfold bind. rewrite Hcall. cbn [fst snd].
      assert (Hneg : (pid <? 0) = false) by (apply Z.ltb_ge; lia).
      now rewrite Hneg, Z.eqb_refl, Hrun.
    + intros reaped status errno w2 Hcall Hneg Herrno rounds Hrounds.
      destruct rounds as [|rounds]; [lia|].
      cbn [Extension.wait_for_child]. unfold bind. rewrite Hcall. cbn [fst snd].
      apply Z.ltb_lt in Hneg. apply Z.eqb_neq in Herrno.
      now rewrite Hneg, Herrno.
    + intros rounds Hrounds. now replace rounds with 0%nat by lia.
  - destruct IH as (Hstatus & Herror & Hpending). repeat split.
    + intros status errno w3 Hlast Hrun rounds Hrounds.
      destruct rounds as [|rounds]; [lia|].
      rewrite (wait_round_again _ _ _ _ _ Hcall Hkeep).
      apply (Hstatus status errno); [exact Hlast | exact Hrun | lia].
    + intros reaped status errno w3 Hlast Hneg Herrno rounds Hrounds.
      destruct rounds as [|rounds]; [lia|].
      rewrite (wait_round_again _ _ _ _ _ Hcall Hkeep).
      apply (Herror reaped status errno); [exact Hlast | exact Hneg | exact Herrno | lia].
    + intros rounds Hrounds. destruct rounds as [|rounds]; [reflexivity|].
      rewrite (wait_round_again _ _ _ _ _ Hcall Hkeep). apply Hpending. lia.
Qed.

Lemma wait_for_child_trace rounds pid w :
  exists tr,
    trace (snd (Extension.wait_for_child rounds pid w)) = (trace w ++ tr)%list
    /\ Forall (fun e => Extension.waited_pid e = Some pid) tr.
Proof.
  revert w. induction rounds as [|rounds IH]; intros w; cbn [Extension.wait_for_child].
  - exists []. split; [now rewrite app_nil_r | constructor].
  - unfold bind.
    destruct (call _ (Extension.waitpid pid) w) as [r w1] eqn:Hcall.
    apply (call_trace (fun r => Extension.EvWaitpid pid (fst (fst r)) (snd (fst r))
                                  (snd r))) in Hcall.
    destruct (IH w1) as (tr & Htr & Hall).
    assert (Hmore : exists tr',
              trace (snd (Extension.wait_for_child rounds pid w1))
              = (trace w ++ tr')%list
              /\ Forall (fun e => Extension.waited_pid e = Some pid) tr').
    { eexists. split; [rewrite Htr, Hcall, <- app_assoc; reflexivity|].
      constructor; [reflexivity | exact Hall]. }
    assert (Hstop : forall result : Extension.waited,
              exists tr',
                trace (snd (ret result w1)) = (trace w ++ tr')%list
                /\ Forall (fun e => Extension.waited_pid e = Some pid) tr').
    { intros result. eexists. split; [exact Hcall|]. now repeat constructor. }
    destruct (fst (fst r) <? 0); [destruct (snd r =? Extension.EINTR)|];
      [exact Hmore | apply Hstop |].
    destruct (negb (fst (fst r) =? pid)); [exact Hmore|].
    destruct (Extension.WIFSTOPPED (snd (fst r))); [exact Hmore | apply Hstop].
Qed.

Lemma check_status_trace ex ifname xml command_name status w :
  exists tr,
    trace (snd (Extension.check_status ex ifname xml command_name status w))
    = (trace w ++ tr)%list
    /\ Forall (fun e => Extension.waited_pid e = None) tr.
Proof.
  assert (Hnone : forall rv : Z,
            exists tr, trace (snd (ret rv w)) = (trace w ++ tr)%list
                       /\ Forall (fun e => Extension.waited_pid e = None) tr).
  { intros rv. exists []. split; [now rewrite app_nil_r | constructor]. }
  unfold Extension.check_status.
  destruct (negb (Extension.WIFEXITED status)); [apply Hnone|].
  destruct (negb (Extension.WEXITSTATUS status =? 0)); [apply Hnone|].
  pose proof (extension_active_cases ex ifname xml w) as Hcases.
  destruct (Extension.pid_file_path ex) as [pid_file|]; [|apply Hnone].
  unfold bind. cbn zeta in Hcases.
  assert (Hafter : forall active w',
            Extension.ni_extension_active ex ifname xml w = (active, w') ->
            (exists tr, trace w' = (trace w ++ tr)%list
                        /\ Forall (fun e => Extension.waited_pid e = None) tr) ->
            exists tr,
              trace (snd (let (a, s') := Extension.ni_extension_active ex ifname xml w in
                          (if String.eqb command_name "start" && (a =? 0)
                           then ret (-1)
                           else if String.eqb command_name "stop" && negb (a =? 0)
                                then ret (-1) else ret 0) s'))
              = (trace w ++ tr)%list
              /\ Forall (fun e => Extension.waited_pid e = None) tr).
  { intros active w' -> Htr.
    destruct (String.eqb command_name "start" && (active =? 0)); [exact Htr|].
    destruct (String.eqb command_name "stop" && negb (active =? 0)); exact Htr. }
  destruct (Extension.xpath_format_eval pid_file xml (ext w)) as [[ok values] x].
  destruct ok; [destruct values as [|path [|more rest]]|].
  2:{ destruct (Extension.access path x) as [rc x'].
      eapply Hafter; [exact Hcases|].
      eexists. split; [cbn; rewrite <- app_assoc; reflexivity|].
      now repeat constructor. }
  all: eapply Hafter; [exact Hcases|].
  all: eexists; split; [reflexivity | now repeat constructor].
Qed.

(** X20.  A run waits for no process but its own child: every call of
    waitpid it makes names a positive pid that a fork of the same run
    returned. *)
Theorem extension_waits_for_own_child_only rounds ex ifname xml command_name
    (command : option xpath_format) w :
  let w' := snd (Extension.__ni_extension_run rounds ex ifname xml command_name
                   command w) in
  forall e pid,
    e ∈ new_events w w' -> Extension.waited_pid e = Some pid ->
    0 < pid /\ Extension.EvFork pid ∈ new_events w w'.
Proof.
  cbn zeta.
  assert (Hquiet : forall w' tr,
            trace w' = (trace w ++ tr)%list ->
            Forall (fun e => Extension.waited_pid e = None) tr ->
            forall e pid,
              e ∈ new_events w w' -> Extension.waited_pid e = Some pid ->
              0 < pid /\ Extension.EvFork pid ∈ new_events w w').
  { intros w' tr Htr Hall e pid He Hwaited.
    rewrite (new_events_app w w' tr Htr) in He.
    rewrite Forall_forall in Hall. rewrite (Hall e He) in Hwaited. discriminate. }
  unfold Extension.__ni_extension_run, bind, ret.
  destruct command as [command|];
    [|apply (Hquiet w []); [now rewrite app_nil_r | constructor]].
  destruct (expand_environment_trace (Extension.environment ex) xml [] w)
    as (tr0 & Htr0 & Hall0).
  assert (Hquiet0 : Forall (fun e => Extension.waited_pid e = None) tr0).
  { eapply Forall_impl; [exact Hall0|]. intros [] Hev; try discriminate; reflexivity. }
  destruct (Extension.expand_environment _ _ _ w) as [[env|] w1]; cbn [snd] in *;
    [|now apply (Hquiet w1 tr0)].
  destruct (Extension.eval command xml w1) as [r w2] eqn:Heval.
  apply eval_trace in Heval.
  destruct (negb (fst r) || negb (length (snd r) =? 1)%nat); cbn [snd].
  { apply (Hquiet w2 (tr0 ++ [Extension.EvXpathEval command (fst r) (snd r)])%list).
    - rewrite Heval, Htr0, <- app_assoc. reflexivity.
    - apply Forall_app. split; [exact Hquiet0 | now repeat constructor]. }
  destruct (call _ Extension.signal_dfl w2) as [[] w3] eqn:Hsig.
  apply (call_trace (fun _ => Extension.EvSignal)) in Hsig.
  destruct (call Extension.EvFork Extension.fork w3) as [pid w4] eqn:Hfork.
  apply call_trace in Hfork.
  set (pre := (tr0 ++ [Extension.EvXpathEval command (fst r) (snd r);
                       Extension.EvSignal])%list).
  assert (Hpre : trace w4 = (trace w ++ pre ++ [Extension.EvFork pid])%list).
  { rewrite Hfork, Hsig, Heval, Htr0. unfold pre.
    rewrite <- !app_assoc. reflexivity. }
  assert (Hquiet_pre : Forall (fun e => Extension.waited_pid e = None)
                         (pre ++ [Extension.EvFork pid])%list).
  { unfold pre. apply Forall_app. split; [|now repeat constructor].
    apply Forall_app. split; [exact Hquiet0 | now repeat constructor]. }
  destruct (pid <? 0) eqn:Hneg; cbn [snd].
  { now apply (Hquiet w4 (pre ++ [Extension.EvFork pid])%list). }
  destruct (pid =? 0) eqn:Hzero.
  { pose proof (putenv_each_trace env w4) as Hput.
    destruct (Extension.putenv_each env w4) as [[] w5]. cbn [snd] in Hput.
    destruct (call _ _ w5) as [[] w6] eqn:Hexec.
    apply (call_trace (fun _ => Extension.EvExecl "/bin/sh"
                                  ["sh"; "-c"; hd ""%string (snd r)])) in Hexec.
    cbn [snd].
    apply (Hquiet w6 ((pre ++ [Extension.EvFork pid])
                      ++ map Extension.EvPutenv env
                      ++ [Extension.EvExecl "/bin/sh"
                            ["sh"; "-c"; hd ""%string (snd r)]])%list).
    - rewrite Hexec, Hput, Hpre. rewrite <- !app_assoc. reflexivity.
    - apply Forall_app. split; [exact Hquiet_pre|].
      apply Forall_app. split; [|now repeat constructor].
      apply Forall_forall. intros e [s [-> _]]%list_elem_of_fmap. reflexivity. }
  apply Z.ltb_ge in Hneg. apply Z.eqb_neq in Hzero.
  destruct (wait_for_child_trace rounds pid w4) as (waits & Hwaits & Hall_waits).
  assert (Hfinish : forall w' post,
            trace w' = ((trace w4 ++ waits) ++ post)%list ->
            Forall (fun e => Extension.waited_pid e = None) post ->
            forall e p,
              e ∈ new_events w w' -> Extension.waited_pid e = Some p ->
              0 < p /\ Extension.EvFork p ∈ new_events w w').
  { intros w' post Htr Hpost e p He Hwaited.
    assert (Hall : trace w'
                   = (trace w ++ (pre ++ [Extension.EvFork pid]) ++ waits ++ post)%list).
    { rewrite Htr, Hpre. rewrite <- !app_assoc. reflexivity. }
    rewrite (new_events_app w w' _ Hall) in *.
    rewrite !elem_of_app in He.
    rewrite Forall_forall in Hquiet_pre, Hall_waits, Hpost.
    destruct He as [He | [He | He]].
    - rewrite (Hquiet_pre e) in Hwaited; [discriminate|].
      now apply elem_of_app.
    - rewrite (Hall_waits e He) in Hwaited. injection Hwaited as <-.
      split; [lia|]. rewrite !elem_of_app. left. right. now left.
    - rewrite (Hpost e He) in Hwaited. discriminate. }
  destruct (Extension.wait_for_child rounds pid w4) as [[status| |] w5];
    cbn [snd] in *.
  - destruct (check_status_trace ex ifname xml command_name status w5)
      as (post & Hpost & Hall_post).
    destruct (Extension.check_status ex ifname xml command_name status w5)
      as [rv w6]. cbn [snd] in *.
    apply (Hfinish w6 post); [now rewrite Hpost, Hwaits | exact Hall_post].
  - apply (Hfinish w5 []); [now rewrite app_nil_r | constructor].
  - apply (Hfinish w5 []); [now rewrite app_nil_r | constructor].
Qed.

End ExtensionRunProperties.

Lemma extension_active_means_file_found_witness :
  exists pid_file path,
    Extension.pid_file_path Sim.dhcp = Some pid_file
    /\ new_events (Sim.child_exits_zero ["/var/run/dhcpcd-eth0.pid"])
         (snd (Extension.ni_extension_active Sim.dhcp "eth0" tt
                 (Sim.child_exits_zero ["/var/run/dhcpcd-eth0.pid"])))
       = [Extension.EvXpathEval pid_file true [path]; Extension.EvAccess path 0].
Proof.
  pose proof (extension_active_means_file_found Sim.dhcp "eth0" tt
                (Sim.child_exits_zero ["/var/run/dhcpcd-eth0.pid"])) as Hfound.
  destruct (Extension.ni_extension_active Sim.dhcp "eth0" tt
              (Sim.child_exits_zero ["/var/run/dhcpcd-eth0.pid"])) as [rv w'] eqn:Hrun.
  vm_compute in Hrun. injection Hrun as <- <-.
  destruct Hfound as [_ Hfound]. apply Hfound. reflexivity.
Defined.

Lemma extension_child_environment_witness :
  exists env command_string w1 w4,
    (let '(outcome, w') :=
       Extension.__ni_extension_run 5 Sim.dhcp "eth0" tt "start"
         (Some Sim.dhcp_start) Sim.in_child in
     outcome = Extension.NoReturn
     /\ new_events w4 w'
        = (map Extension.EvPutenv env
           ++ [Extension.EvExecl "/bin/sh" ["sh"; "-c"; command_string]])%list
     /\ env = flat_map Extension.event_values (new_events Sim.in_child w1)
     /\ Forall2 (fun e ev => exists values,
                   ev = Extension.EvXpathEval e true values
                   /\ (length values <= 1)%nat)
          (Extension.environment Sim.dhcp) (new_events Sim.in_child w1))
    /\ env = ["IFNAME=eth0"; "MTU=1500"]
    /\ command_string = "dhcpcd eth0".
Proof.
  do 4 eexists. split; [|split].
  - eapply (extension_child_environment 5 Sim.dhcp "eth0" tt "start" Sim.dhcp_start
              Sim.in_child); lazy; reflexivity.
  - reflexivity.
  - reflexivity.
Defined.

Lemma extension_unclean_exit_fails_witness :
  fst (Extension.ni_extension_start 5 Sim.dhcp "eth0" tt Sim.child_exits_one)
  = Extension.Returned (-1)
  /\ fst (Extension.ni_extension_stop 5 Sim.dhcp "eth0" tt Sim.child_killed)
     = Extension.Returned (-1).
Proof.
  split.
  - unfold Extension.ni_extension_start.
    cbn [Extension.start_command Sim.dhcp Sim.extension].
    erewrite (extension_unclean_exit_fails 5 Sim.dhcp "eth0" tt "start" Sim.dhcp_start
                Sim.child_exits_one).
    + reflexivity.
    + child_exit_status_by_running.
    + right. by_computing.
  - unfold Extension.ni_extension_stop.
    cbn [Extension.stop_command Sim.dhcp Sim.extension].
    erewrite (extension_unclean_exit_fails 5 Sim.dhcp "eth0" tt "stop" Sim.dhcp_stop
                Sim.child_killed).
    + reflexivity.
    + child_exit_status_by_running.
    + left. by_computing.
Defined.

Lemma extension_clean_exit_succeeds_witness :
  fst (Extension.ni_extension_start 5 Sim.dhcp_no_pid_file "eth0" tt
         (Sim.child_exits_zero []))
  = Extension.Returned 0
  /\ fst (Extension.ni_extension_start 5 Sim.dhcp "eth0" tt
            (Sim.child_exits_zero ["/var/run/dhcpcd-eth0.pid"]))
     = Extension.Returned 0.
Proof.
  split.
  - edestruct (extension_clean_exit_succeeds 5 Sim.dhcp_no_pid_file "eth0" tt "start"
                 Sim.dhcp_start (Sim.child_exits_zero [])) as [Hnone _].
    + child_exit_status_by_running.
    + lazy; reflexivity.
    + lazy; reflexivity.
    + unfold Extension.ni_extension_start.
      cbn [Extension.start_command Sim.dhcp_no_pid_file Sim.extension].
      rewrite Hnone; reflexivity.
  - edestruct (extension_clean_exit_succeeds 5 Sim.dhcp "eth0" tt "start"
                 Sim.dhcp_start (Sim.child_exits_zero ["/var/run/dhcpcd-eth0.pid"]))
      as [_ Hprobe].
    + child_exit_status_by_running.
    + lazy; reflexivity.
    + lazy; reflexivity.
    + unfold Extension.ni_extension_start.
      cbn [Extension.start_command Sim.dhcp Sim.extension].
      erewrite Hprobe.
      * reflexivity.
      * reflexivity.
      * lazy; reflexivity.
      * left. split; [reflexivity | discriminate].
Defined.

(** Another process is reaped, then the child is reported stopped, then it
    is killed by signal 9. *)
Lemma wait_loop_looks_through_witness :
  fst (Extension.wait_for_child 5 77 Sim.child_killed) = Extension.WaitStatus 9
  /\ fst (Extension.wait_for_child 2 77 Sim.child_killed) = Extension.WaitPending.
Proof.
  edestruct (wait_loop_looks_through 77 2 Sim.child_killed) as (Hstatus & _ & Hpending).
  - econstructor; [lazy; reflexivity | reflexivity |].
    econstructor; [lazy; reflexivity | reflexivity |].
    constructor.
  - lia.
  - split.
    + erewrite Hstatus; [reflexivity | lazy; reflexivity | reflexivity | lia].
    + apply Hpending. lia.
Defined.

Lemma extension_waits_for_own_child_only_witness :
  0 < 77
  /\ Extension.EvFork 77
     ∈ new_events (Sim.child_exits_zero [])
         (snd (Extension.__ni_extension_run 5 Sim.dhcp "eth0" tt "start"
                 (Some Sim.dhcp_start) (Sim.child_exits_zero []))).
Proof.
  apply (extension_waits_for_own_child_only 5 Sim.dhcp "eth0" tt "start"
           (Some Sim.dhcp_start) (Sim.child_exits_zero [])
           (Extension.EvWaitpid 77 77 0 0) 77).
  - vm_compute. repeat constructor.
  - reflexivity.
Defined.

(** ** More on the reachability requirement *)

Section ReachableMoreProperties.
Context {sockaddr W : Type} `{!Reachable.Network sockaddr W}.
Implicit Types (w : world W (Reachable.event sockaddr))
               (req : Reachable.ni_fsm_require_t sockaddr)
               (fsm : Reachable.ni_objectmodel_fsm_t).

Local Abbreviation ACQUIRED := Reachable.NI_EVENT_ADDRESS_ACQUIRED.
Local Abbreviation UPDATED := Reachable.NI_EVENT_RESOLVER_UPDATED.

(** X21.  An evaluation that is not skipped stores the global event
    sequence in the requirement.  So, when the event acquired last is the
    last event of all, a second evaluation with the FSM unchanged is
    skipped: it reports FALSE and calls nothing. *)
Theorem evaluation_records_event_seq fsm req w :
  Reachable.event_seq req <> Reachable.last_event_seq fsm ACQUIRED ->
  let '((_, req'), w') := Reachable.ni_fsm_require_check_reachable fsm req w in
  Reachable.event_seq req' = Reachable.fsm_event_seq fsm
  /\ (Reachable.fsm_event_seq fsm = Reachable.last_event_seq fsm ACQUIRED ->
      Reachable.ni_fsm_require_check_reachable fsm req' w' = ((false, req'), w')).
Proof.
  intros Hskip.
  pose proof (check_reachable_marks fsm req w Hskip) as Hmark.
  destruct (Reachable.ni_fsm_require_check_reachable fsm req w) as [[b req'] w'].
  cbn [fst snd] in Hmark. split; [exact Hmark|].
  intros Hlast. apply check_reachable_skip. congruence.
Qed.

Lemma cached_address_probe fsm req w :
  Reachable.event_seq req <> Reachable.last_event_seq fsm ACQUIRED ->
  Reachable.address_valid (Reachable.user_data req) = true ->
  Reachable.last_event_seq fsm UPDATED <= Reachable.event_seq req ->
  let check := Reachable.user_data req in
  let '(rc, _) :=
    Reachable.ni_host_is_reachable (Reachable.hostname check)
      (Reachable.address check) (ext w) in
  let '((b, req'), w') := Reachable.ni_fsm_require_check_reachable fsm req w in
  new_events w w'
  = [Reachable.EvReachable (Reachable.hostname check) (Reachable.address check) rc]
  /\ b = (0 <? rc)
  /\ Reachable.address (Reachable.user_data req') = Reachable.address check
  /\ Reachable.address_valid (Reachable.user_data req') = true.
Proof.
  intros Hskip Hvalid Hfresh. cbn zeta.
  rewrite (check_reachable_cached fsm req w Hskip Hvalid Hfresh).
  pose proof (probe_address_spec (Reachable.fsm_event_seq fsm)
                (Reachable.user_data req) w) as Hprobe.
  cbn zeta in Hprobe.
  destruct (Reachable.ni_host_is_reachable _ _ _) as [rc x].
  rewrite Hprobe. repeat split.
  now apply new_events_app.
Qed.

(** X22.  A cached address is used as it is: with a valid address, no
    resolver update since the last evaluation and the skip rule not
    applying, the evaluation makes one call, the probe of the cached
    address; its count decides the verdict, and the address stays cached
    whatever the verdict. *)
Theorem cached_address_is_probed fsm req w :
  Reachable.event_seq req <> Reachable.last_event_seq fsm ACQUIRED ->
  Reachable.address_valid (Reachable.user_data req) = true ->
  Reachable.last_event_seq fsm UPDATED <= Reachable.event_seq req ->
  let check := Reachable.user_data req in
  let '(rc, _) :=
    Reachable.ni_host_is_reachable (Reachable.hostname check)
      (Reachable.address check) (ext w) in
  let '((b, req'), w') := Reachable.ni_fsm_require_check_reachable fsm req w in
  new_events w w'
  = [Reachable.EvReachable (Reachable.hostname check) (Reachable.address check) rc]
  /\ b = (0 <? rc)
  /\ Reachable.address (Reachable.user_data req') = Reachable.address check
  /\ Reachable.address_valid (Reachable.user_data req') = true.
Proof. apply cached_address_probe. Qed.

(** The possible runs of an evaluation that is not skipped. *)
Lemma check_reachable_runs fsm req w :
  Reachable.event_seq req <> Reachable.last_event_seq fsm ACQUIRED ->
  let check := Reachable.user_data req in
  let host := Reachable.hostname check in
  let '((b, req'), w') := Reachable.ni_fsm_require_check_reachable fsm req w in
  Reachable.hostname (Reachable.user_data req') = host
  /\ Reachable.family (Reachable.user_data req') = Reachable.family check
  /\ ((b = false
       /\ exists rc, rc <= 0
            /\ new_events w w' = [Reachable.EvResolve host (Reachable.family check) 1 rc])
      \/ (Reachable.address_valid (Reachable.user_data req') = true
          /\ exists before rc,
               b = (0 <? rc)
               /\ Forall (fun e => Reachable.is_resolve e = true
                                   /\ 0 < Reachable.event_rc e) before
               /\ new_events w w'
                  = (before
                     ++ [Reachable.EvReachable host
                           (Reachable.address (Reachable.user_data req')) rc])%list)).
Proof.
  intros Hskip. cbn zeta.
  assert (Hresolved :
    Reachable.address_valid (Reachable.user_data req) = false
    \/ Reachable.event_seq req < Reachable.last_event_seq fsm UPDATED ->
    let '((b, req'), w') := Reachable.ni_fsm_require_check_reachable fsm req w in
    Reachable.hostname (Reachable.user_data req')
    = Reachable.hostname (Reachable.user_data req)
    /\ Reachable.family (Reachable.user_data req')
       = Reachable.family (Reachable.user_data req)
    /\ ((b = false
         /\ exists rc, rc <= 0
              /\ new_events w w'
                 = [Reachable.EvResolve (Reachable.hostname (Reachable.user_data req))
                      (Reachable.family (Reachable.user_data req)) 1 rc])
        \/ (Reachable.address_valid (Reachable.user_data req') = true
            /\ exists before rc,
                 b = (0 <? rc)
                 /\ Forall (fun e => Reachable.is_resolve e = true
                                     /\ 0 < Reachable.event_rc e) before
                 /\ new_events w w'
                    = (before
                       ++ [Reachable.EvReachable
                             (Reachable.hostname (Reachable.user_data req))
                             (Reachable.address (Reachable.user_data req')) rc])%list))).
  { intros Hinvalid.
    pose proof (check_reachable_resolves fsm req w Hskip Hinvalid) as Hrun.
    cbn zeta in Hrun.
    destruct (Reachable.ni_resolve_hostname_timed _ _ _ _ _) as [[rc addr] x].
    rewrite Hrun. destruct (rc <=? 0) eqn:Hrc.
    - repeat split. left. split; [reflexivity|]. exists rc.
      split; [now apply Z.leb_le | now apply new_events_app].
    - match goal with |- context [Reachable.probe_address ?s ?c ?v] =>
        pose proof (probe_address_spec s c v) as Hprobe end.
      cbn zeta in Hprobe.
      destruct (Reachable.ni_host_is_reachable _ _ _) as [rc' x'].
      rewrite Hprobe. repeat split. right. split; [reflexivity|].
      exists [Reachable.EvResolve (Reachable.hostname (Reachable.user_data req))
                (Reachable.family (Reachable.user_data req)) 1 rc], rc'.
      repeat split.
      + repeat constructor. cbn. apply Z.leb_gt in Hrc. lia.
      + apply new_events_app. cbn. now rewrite <- app_assoc. }
  destruct (Reachable.address_valid (Reachable.user_data req)) eqn:Hvalid;
    [|apply Hresolved; now left].
  destruct (Z.lt_ge_cases (Reachable.event_seq req)
              (Reachable.last_event_seq fsm UPDATED)) as [Hstale | Hfresh];
    [apply Hresolved; now right|].
  rewrite (check_reachable_cached fsm req w Hskip Hvalid Hfresh).
  pose proof (probe_address_spec (Reachable.fsm_event_seq fsm)
                (Reachable.user_data req) w) as Hprobe.
  cbn zeta in Hprobe.
  destruct (Reachable.ni_host_is_reachable _ _ _) as [rc x].
  rewrite Hprobe. repeat split. right. split; [reflexivity|].
  exists [], rc. repeat split; [constructor | now apply new_events_app].
Qed.

(** X23.  The verdict TRUE is earned: an evaluation reports TRUE only when
    its last call was the probe of the address the requirement then holds
    as valid, and that probe returned a positive count; a resolver call
    before it, if any, returned a positive count too. *)
Theorem verdict_true_means_probe_answered fsm req w :
  let '((b, req'), w') := Reachable.ni_fsm_require_check_reachable fsm req w in
  b = true ->
  Reachable.address_valid (Reachable.user_data req') = true
  /\ exists before rc,
       0 < rc
       /\ Forall (fun e => 0 < Reachable.event_rc e) before
       /\ new_events w w'
          = (before
             ++ [Reachable.EvReachable (Reachable.hostname (Reachable.user_data req))
                   (Reachable.address (Reachable.user_data req')) rc])%list.
Proof.
  destruct (Z.eq_dec (Reachable.event_seq req) (Reachable.last_event_seq fsm ACQUIRED))
    as [Hskip | Hskip].
  - rewrite (check_reachable_skip fsm req w Hskip). discriminate.
  - pose proof (check_reachable_runs fsm req w Hskip) as Hruns. cbn zeta in Hruns.
    destruct (Reachable.ni_fsm_require_check_reachable fsm req w) as [[b req'] w'].
    destruct Hruns as (_ & _ & [[-> _] | (Hvalid & before & rc & Hb & Hbefore & Hev)]);
      [discriminate|].
    intros ->. split; [exact Hvalid|].
    exists before, rc. repeat split.
    + now apply Z.ltb_lt.
    + eapply Forall_impl; [exact Hbefore|]. now intros e [_ He].
    + exact Hev.
Qed.

(** X24.  A resolution that succeeded is kept even when the probe then
    fails: if an evaluation resolves the name (positive count), the next
    evaluation that is not skipped and sees no later resolver update goes
    to the probe at once, with the address the resolver wrote, and does not
    call the resolver again. *)
Theorem resolved_address_is_kept fsm1 fsm2 req w :
  Reachable.event_seq req <> Reachable.last_event_seq fsm1 ACQUIRED ->
  Reachable.address_valid (Reachable.user_data req) = false
  \/ Reachable.event_seq req < Reachable.last_event_seq fsm1 UPDATED ->
  Reachable.fsm_event_seq fsm1 <> Reachable.last_event_seq fsm2 ACQUIRED ->
  Reachable.last_event_seq fsm2 UPDATED <= Reachable.fsm_event_seq fsm1 ->
  let check := Reachable.user_data req in
  let '((rc, addr), _) :=
    Reachable.ni_resolve_hostname_timed (Reachable.hostname check)
      (Reachable.family check) (Reachable.address check) 1 (ext w) in
  0 < rc ->
  let '((_, req1), w1) := Reachable.ni_fsm_require_check_reachable fsm1 req w in
  let '((b2, _), w2) := Reachable.ni_fsm_require_check_reachable fsm2 req1 w1 in
  exists rc2,
    new_events w1 w2 = [Reachable.EvReachable (Reachable.hostname check) addr rc2]
    /\ b2 = (0 <? rc2).
Proof.
  intros Hskip1 Hinvalid Hskip2 Hfresh2. cbn zeta.
  pose proof (check_reachable_resolves fsm1 req w Hskip1 Hinvalid) as Hrun.
  cbn zeta in Hrun.
  destruct (Reachable.ni_resolve_hostname_timed _ _ _ _ _) as [[rc addr] x].
  intros Hrc. apply Z.leb_gt in Hrc. rewrite Hrc in Hrun. rewrite Hrun.
  match goal with |- context [Reachable.probe_address ?s ?c ?v] =>
    pose proof (probe_address_spec s c v) as Hprobe end.
  cbn zeta in Hprobe.
  destruct (Reachable.ni_host_is_reachable _ _ _) as [rc1 x1].
  rewrite Hprobe.
  match goal with |- context [Reachable.ni_fsm_require_check_reachable fsm2 ?r ?v] =>
    pose proof (cached_address_probe fsm2 r v Hskip2 eq_refl Hfresh2) as Hsecond;
    cbn zeta in Hsecond;
    destruct (Reachable.ni_host_is_reachable
                (Reachable.hostname (Reachable.user_data r))
                (Reachable.address (Reachable.user_data r)) (ext v)) as [rc2 x2];
    destruct (Reachable.ni_fsm_require_check_reachable fsm2 r v) as [[b2 req2] w2]
  end.
  exists rc2. destruct Hsecond as (Hev & Hb & _). split; [exact Hev | exact Hb].
Qed.

(** X25.  No evaluation changes the host name or the address family of a
    requirement, however many evaluations the FSM asks for. *)
Theorem evaluations_keep_host_and_family (fsms : list Reachable.ni_objectmodel_fsm_t)
    req w :
  let req' := snd (fst (Reachable.evaluate_each fsms req w)) in
  Reachable.hostname (Reachable.user_data req')
  = Reachable.hostname (Reachable.user_data req)
  /\ Reachable.family (Reachable.user_data req')
     = Reachable.family (Reachable.user_data req).
Proof.
  cbn zeta. revert req w.
  induction fsms as [|fsm later IH]; intros req w; cbn; [now split|].
  unfold bind, ret.
  assert (Hone : let '((_, req1), _) :=
                   Reachable.ni_fsm_require_check_reachable fsm req w in
                 Reachable.hostname (Reachable.user_data req1)
                 = Reachable.hostname (Reachable.user_data req)
                 /\ Reachable.family (Reachable.user_data req1)
                    = Reachable.family (Reachable.user_data req)).
  { destruct (Z.eq_dec (Reachable.event_seq req)
                (Reachable.last_event_seq fsm ACQUIRED)) as [Hskip | Hskip].
    - rewrite (check_reachable_skip fsm req w Hskip). now split.
    - pose proof (check_reachable_runs fsm req w Hskip) as Hruns. cbn zeta in Hruns.
      destruct (Reachable.ni_fsm_require_check_reachable fsm req w) as [[b req1] w1].
      destruct Hruns as (Hhost & Hfamily & _). now split. }
  destruct (Reachable.ni_fsm_require_check_reachable fsm req w) as [[b req1] w1].
  cbn [snd fst]. specialize (IH req1 w1).
  destruct (Reachable.evaluate_each later req1 w1) as [[bs req2] w2].
  cbn [fst snd] in *. destruct Hone as [Hh Hf], IH as [Hh' Hf']. split; congruence.
Qed.

(** X26.  A requirement built by ni_ifworker_reachability_check_new starts
    without an address: it carries the character data of the node as host
    name and the address family named by the node (AF_UNSPEC without the
    attribute), and its first evaluation that is not skipped begins with a
    call of the resolver for that name and family, with a timeout of 1.
    No requirement is built from a node without character data or with an
    address family name that is not known. *)
Theorem new_requirement_resolves_first {xml_node_t : Type}
    (cdata : xml_node_t -> option string)
    (xml_node_get_attr : xml_node_t -> string -> option string)
    (ni_addrfamily_name_to_type : string -> Z)
    (new_event_seq : Z) (zero_address : sockaddr) (node : xml_node_t) fsm w :
  match Reachable.ni_ifworker_reachability_check_new cdata xml_node_get_attr
          ni_addrfamily_name_to_type new_event_seq zero_address node with
  | Some req =>
      exists host,
        cdata node = Some host
        /\ Reachable.hostname (Reachable.user_data req) = host
        /\ Reachable.family (Reachable.user_data req)
           = match xml_node_get_attr node "address-family" with
             | Some attr => ni_addrfamily_name_to_type attr
             | None => Reachable.AF_UNSPEC
             end
        /\ 0 <= Reachable.family (Reachable.user_data req)
        /\ (Reachable.event_seq req <> Reachable.last_event_seq fsm ACQUIRED ->
            exists rc later,
              new_events w (snd (Reachable.ni_fsm_require_check_reachable fsm req w))
              = Reachable.EvResolve host (Reachable.family (Reachable.user_data req))
                  1 rc :: later)
  | None =>
      cdata node = None
      \/ exists attr,
           xml_node_get_attr node "address-family" = Some attr
           /\ ni_addrfamily_name_to_type attr < 0
  end.
Proof.
  unfold Reachable.ni_ifworker_reachability_check_new.
  destruct (cdata node) as [host|]; [|now left].
  assert (Hbuilt : forall af,
            0 <= af ->
            af = match xml_node_get_attr node "address-family" with
                 | Some attr => ni_addrfamily_name_to_type attr
                 | None => Reachable.AF_UNSPEC
                 end ->
            let req := {| Reachable.event_seq := new_event_seq;
                          Reachable.user_data :=
                            {| Reachable.hostname := host; Reachable.family := af;
                               Reachable.address_valid := false;
                               Reachable.address := zero_address |} |} in
            exists host',
              Some host = Some host'
              /\ Reachable.hostname (Reachable.user_data req) = host'
              /\ Reachable.family (Reachable.user_data req)
                 = match xml_node_get_attr node "address-family" with
                   | Some attr => ni_addrfamily_name_to_type attr
                   | None => Reachable.AF_UNSPEC
                   end
              /\ 0 <= Reachable.family (Reachable.user_data req)
              /\ (Reachable.event_seq req <> Reachable.last_event_seq fsm ACQUIRED ->
                  exists rc later,
                    new_events w
                      (snd (Reachable.ni_fsm_require_check_reachable fsm req w))
                    = Reachable.EvResolve host'
                        (Reachable.family (Reachable.user_data req)) 1 rc :: later)).
  { intros af Hpos Haf req. exists host. repeat split; try assumption.
    intros Hskip.
    pose proof (check_reachable_resolves fsm req w Hskip (or_introl eq_refl)) as Hrun.
    cbn zeta in Hrun.
    destruct (Reachable.ni_resolve_hostname_timed _ _ _ _ _) as [[rc addr] x].
    rewrite Hrun. exists rc. destruct (rc <=? 0).
    - eexists. now apply new_events_app.
    - match goal with |- context [Reachable.probe_address ?s ?c ?v] =>
        pose proof (probe_address_spec s c v) as Hprobe end.
      cbn zeta in Hprobe.
      destruct (Reachable.ni_host_is_reachable _ _ _) as [rc' x'].
      rewrite Hprobe. eexists. apply new_events_app. cbn.
      now rewrite <- app_assoc. }
  destruct (xml_node_get_attr node "address-family") as [attr|] eqn:Hattr.
  - destruct (ni_addrfamily_name_to_type attr <? 0) eqn:Hneg.
    + right. exists attr. split; [reflexivity | now apply Z.ltb_lt].
    + apply Hbuilt; [now apply Z.ltb_ge | reflexivity].
  - apply Hbuilt; [unfold Reachable.AF_UNSPEC; lia | reflexivity].
Qed.

End ReachableMoreProperties.

Lemma evaluation_records_event_seq_witness :
  let '((_, req'), w') :=
    Reachable.ni_fsm_require_check_reachable (Sim.fsm_at 5 5 0)
      (Sim.requirement 3 "example.org" false 0) (Sim.scripted_world [1; 1]) in
  Reachable.event_seq req' = 5
  /\ (5 = 5 ->
      Reachable.ni_fsm_require_check_reachable (Sim.fsm_at 5 5 0) req' w'
      = ((false, req'), w')).
Proof.
  apply (evaluation_records_event_seq (Sim.fsm_at 5 5 0)
           (Sim.requirement 3 "example.org" false 0) (Sim.scripted_world [1; 1])).
  discriminate.
Defined.

Lemma cached_address_is_probed_witness :
  let '((b, req'), w') :=
    Reachable.ni_fsm_require_check_reachable (Sim.fsm_at 7 5 2)
      (Sim.requirement 6 "example.org" true 9) (Sim.scripted_world [3]) in
  new_events (Sim.scripted_world [3]) w' = [Reachable.EvReachable "example.org" 9 3]
  /\ b = true
  /\ Reachable.address (Reachable.user_data req') = 9
  /\ Reachable.address_valid (Reachable.user_data req') = true.
Proof.
  refine (cached_address_is_probed (Sim.fsm_at 7 5 2)
            (Sim.requirement 6 "example.org" true 9) (Sim.scripted_world [3]) _ _ _);
    by_computing.
Defined.

Lemma verdict_true_means_probe_answered_witness :
  exists before rc,
    0 < rc
    /\ Forall (fun e => 0 < Reachable.event_rc e) before
    /\ new_events (Sim.scripted_world [4; 1])
         (snd (Reachable.ni_fsm_require_check_reachable (Sim.fsm_at 7 5 2)
                 (Sim.requirement 3 "example.org" false 0)
                 (Sim.scripted_world [4; 1])))
       = (before ++ [Reachable.EvReachable "example.org" 4 rc])%list.
Proof.
  pose proof (verdict_true_means_probe_answered (Sim.fsm_at 7 5 2)
                (Sim.requirement 3 "example.org" false 0)
                (Sim.scripted_world [4; 1])) as Htrue.
  destruct (Reachable.ni_fsm_require_check_reachable (Sim.fsm_at 7 5 2)
              (Sim.requirement 3 "example.org" false 0)
              (Sim.scripted_world [4; 1])) as [[b req'] w'] eqn:Hrun.
  vm_compute in Hrun. injection Hrun as <- <- <-.
  destruct Htrue as [_ Hprobe]; [reflexivity|]. exact Hprobe.
Defined.

(** The name resolves to address 4, the probe of it fails, and at the next
    event the probe is tried again without a resolver call. *)
Lemma resolved_address_is_kept_witness :
  let '((_, req1), w1) :=
    Reachable.ni_fsm_require_check_reachable (Sim.fsm_at 7 5 2)
      (Sim.requirement 3 "example.org" false 0) (Sim.scripted_world [4; 0; 1]) in
  let '((b2, _), w2) :=
    Reachable.ni_fsm_require_check_reachable (Sim.fsm_at 8 5 2) req1 w1 in
  exists rc2,
    new_events w1 w2 = [Reachable.EvReachable "example.org" 4 rc2]
    /\ b2 = (0 <? rc2).
Proof.
  refine (resolved_address_is_kept (Sim.fsm_at 7 5 2) (Sim.fsm_at 8 5 2)
            (Sim.requirement 3 "example.org" false 0)
            (Sim.scripted_world [4; 0; 1]) _ _ _ _ _).
  - by_computing.
  - left. reflexivity.
  - by_computing.
  - by_computing.
  - reflexivity.
Defined.

Lemma new_requirement_resolves_first_witness :
  exists req rc later,
    Reachable.ni_ifworker_reachability_check_new Sim.node_cdata Sim.node_attr
      Sim.family_of_name 0 0 Sim.reachable_node = Some req
    /\ new_events Sim.dead_world
         (snd (Reachable.ni_fsm_require_check_reachable (Sim.fsm_at 7 5 2) req
                 Sim.dead_world))
       = Reachable.EvResolve "example.org" 10 1 rc :: later.
Proof.
  pose proof (new_requirement_resolves_first Sim.node_cdata Sim.node_attr
                Sim.family_of_name 0 0 Sim.reachable_node (Sim.fsm_at 7 5 2)
                Sim.dead_world) as Hnew.
  destruct (Reachable.ni_ifworker_reachability_check_new Sim.node_cdata Sim.node_attr
              Sim.family_of_name 0 0 Sim.reachable_node) as [req|] eqn:Hreq;
    [|discriminate Hreq].
  vm_compute in Hreq. injection Hreq as <-.
  destruct Hnew as (host & Hhost & _ & _ & _ & Hfirst).
  injection Hhost as <-.
  destruct Hfirst as (rc & later & Hev); [discriminate|].
  eexists. exists rc, later. split; [reflexivity | exact Hev].
Defined.

(** ** More on sysfs files *)

Lemma string_forall_app (p : ascii -> bool) (s1 s2 : string) :
  Sysfs.string_forall p (s1 ++ s2)%string
  = Sysfs.string_forall p s1 && Sysfs.string_forall p s2.
Proof.
  induction s1 as [|c s1 IH]; [reflexivity|].
  change (String c s1 ++ s2)%string with (String c (s1 ++ s2)%string).
  cbn [Sysfs.string_forall]. now rewrite IH, andb_assoc.
Qed.

Lemma c_str_no_nul (s : string) :
  Sysfs.string_forall (fun c => negb (Ascii.eqb c "000")) (Sysfs.c_str s) = true.
Proof.
  induction s as [|c s IH]; cbn; [reflexivity|].
  destruct (Ascii.eqb c "000") eqn:Hc; cbn; [reflexivity|].
  now rewrite Hc, IH.
Qed.

Lemma c_str_clean (s : string) :
  Sysfs.string_forall (fun c => negb (Ascii.eqb c "000")) s = true ->
  Sysfs.c_str s = s.
Proof.
  induction s as [|c s IH]; cbn; [reflexivity|].
  intros [Hc Hs]%andb_prop. apply negb_true_iff in Hc. rewrite Hc.
  now rewrite IH.
Qed.

Lemma strtok_all_tokens (s tok : string) :
  Sysfs.string_forall (fun c => negb (Ascii.eqb c "000")) s = true ->
  Sysfs.string_forall Sysfs.token_byte tok = true ->
  Forall Sysfs.good_token (Sysfs.strtok_all s tok).
Proof.
  revert tok. induction s as [|c s IH]; intros tok Hs Htok; cbn.
  - destruct (String.eqb tok "") eqn:Hempty; [constructor|].
    apply String.eqb_neq in Hempty. repeat constructor; assumption.
  - cbn in Hs. apply andb_prop in Hs. destruct Hs as [Hc Hs].
    destruct (Sysfs.is_delim c) eqn:Hdelim.
    + destruct (String.eqb tok "") eqn:Hempty; [now apply IH|].
      apply String.eqb_neq in Hempty.
      constructor; [now split | now apply IH].
    + apply IH; [exact Hs|].
      rewrite string_forall_app, Htok. cbn.
      unfold Sysfs.token_byte. now rewrite Hdelim, Hc.
Qed.

Lemma read_list_loop_tokens (rounds : nat) (stream : string) (result : list string) :
  exists new,
    Sysfs.read_list_loop rounds stream result = (result ++ new)%list
    /\ Forall Sysfs.good_token new.
Proof.
  revert stream result.
  induction rounds as [|rounds IH]; intros stream result; cbn [Sysfs.read_list_loop].
  - exists []. split; [now rewrite app_nil_r | constructor].
  - destruct (String.eqb stream "");
      [exists []; split; [now rewrite app_nil_r | constructor]|].
    destruct (Sysfs.fgets_bytes 255 stream) as [buffer rest].
    destruct (IH rest (result ++ Sysfs.strtok_all (Sysfs.c_str buffer) "")%list)
      as (new & Hnew & Hgood).
    exists (Sysfs.strtok_all (Sysfs.c_str buffer) "" ++ new)%list. split.
    + now rewrite Hnew, <- app_assoc.
    + apply Forall_app. split; [|exact Hgood].
      apply strtok_all_tokens; [apply c_str_no_nul | reflexivity].
Qed.

Lemma strtok_all_app_delim (a rest tok : string) :
  Sysfs.ends_with_delim a = true ->
  Sysfs.strtok_all (a ++ rest)%string tok
  = (Sysfs.strtok_all a tok ++ Sysfs.strtok_all rest "")%list.
Proof.
  revert tok. induction a as [|c a IH]; intros tok Hends; [discriminate|].
  change (String c a ++ rest)%string with (String c (a ++ rest)%string).
  destruct a as [|c' a].
  - cbn in Hends. cbn. rewrite Hends.
    now destruct (String.eqb tok "").
  - assert (Hends' : Sysfs.ends_with_delim (String c' a) = true) by exact Hends.
    cbn [Sysfs.strtok_all].
    destruct (Sysfs.is_delim c); [destruct (String.eqb tok "")|];
      rewrite (IH _ Hends'); reflexivity.
Qed.

Lemma fgets_bytes_fit (left : nat) (s : string) :
  Sysfs.lines_fit left s = true ->
  let '(line, rest) := Sysfs.fgets_bytes left s in
  s = (line ++ rest)%string
  /\ Sysfs.lines_fit 255 rest = true
  /\ (Sysfs.ends_with_delim line = true \/ rest = ""%string).
Proof.
  revert left. induction s as [|c s IH]; intros left Hfit.
  - destruct left; cbn; repeat split; now right.
  - destruct left as [|left]; [discriminate|].
    cbn in Hfit. cbn [Sysfs.fgets_bytes].
    destruct (Ascii.eqb c "010") eqn:Hc.
    + repeat split; [exact Hfit|]. left. cbn.
      unfold Sysfs.is_delim. rewrite Hc. now rewrite !orb_true_r.
    + specialize (IH left Hfit).
      destruct (Sysfs.fgets_bytes left s) as [line rest].
      destruct IH as (-> & Hrest & Hends). repeat split; [exact Hrest|].
      destruct Hends as [Hends | ->]; [left | now right].
      destruct line; [discriminate | exact Hends].
Qed.

Lemma string_append_nil_r (s : string) : (s ++ "")%string = s.
Proof.
  induction s as [|c s IH]; [reflexivity|].
  change (String c s ++ "")%string with (String c (s ++ "")%string).
  now rewrite IH.
Qed.

Lemma read_list_loop_whole (rounds : nat) (stream : string) (result : list string) :
  (String.length stream <= rounds)%nat ->
  Sysfs.lines_fit 255 stream = true ->
  Sysfs.string_forall (fun c => negb (Ascii.eqb c "000")) stream = true ->
  Sysfs.read_list_loop rounds stream result
  = (result ++ Sysfs.strtok_all stream "")%list.
Proof.
  revert stream result.
  induction rounds as [|rounds IH]; intros stream result Hlen Hfit Hclean.
  - destruct stream; [|cbn in Hlen; lia]. cbn. now rewrite app_nil_r.
  - destruct stream as [|c s]; [cbn; now rewrite app_nil_r|].
    cbn [Sysfs.read_list_loop String.eqb].
    pose proof (fgets_bytes_fit 255 (String c s) Hfit) as Hline.
    pose proof (fgets_bytes_progress 254 c s) as Hshorter.
    destruct (Sysfs.fgets_bytes 255 (String c s)) as [line rest].
    cbn [snd] in Hshorter. destruct Hline as (Hsplit & Hrest & Hends).
    rewrite Hsplit in Hclean. rewrite string_forall_app in Hclean.
    apply andb_prop in Hclean. destruct Hclean as [Hline Hcleanrest].
    rewrite (c_str_clean line Hline).
    rewrite IH; [|lia | exact Hrest | exact Hcleanrest].
    rewrite <- app_assoc. f_equal. rewrite Hsplit.
    destruct Hends as [Hends | ->].
    + now rewrite strtok_all_app_delim.
    + cbn [Sysfs.strtok_all String.eqb]. now rewrite app_nil_r, string_append_nil_r.
Qed.

Lemma fgets_bytes_line (room : nat) (line rest : string) :
  (String.length line < room)%nat ->
  Sysfs.string_forall Sysfs.line_byte line = true ->
  Sysfs.fgets_bytes room (line ++ Sysfs.LF ++ rest)%string
  = ((line ++ Sysfs.LF)%string, rest).
Proof.
  revert room. induction line as [|c line IH]; intros room Hlen Hclean.
  - destruct room; [cbn in Hlen; lia | reflexivity].
  - destruct room as [|room]; [cbn in Hlen; lia|].
    cbn in Hclean. apply andb_prop in Hclean. destruct Hclean as [Hc Hline].
    unfold Sysfs.line_byte in Hc. apply andb_prop in Hc. destruct Hc as [Hlf _].
    apply negb_true_iff in Hlf.
    change (String c line ++ Sysfs.LF ++ rest)%string
      with (String c (line ++ Sysfs.LF ++ rest)%string).
    cbn [Sysfs.fgets_bytes]. rewrite Hlf.
    rewrite IH; [reflexivity | cbn in Hlen; lia | exact Hline].
Qed.

Lemma first_line_short (line rest : string) :
  (String.length line < 255)%nat ->
  Sysfs.string_forall Sysfs.line_byte line = true ->
  Sysfs.first_line (line ++ Sysfs.LF ++ rest)%string = Some line.
Proof.
  intros Hlen Hclean. unfold Sysfs.first_line.
  assert (Hnonempty : String.eqb (line ++ Sysfs.LF ++ rest)%string "" = false).
  { now destruct line. }
  rewrite Hnonempty, (fgets_bytes_line 255 line rest Hlen Hclean). cbn [fst].
  f_equal. clear Hlen Hnonempty.
  induction line as [|c line IH]; [reflexivity|].
  cbn in Hclean. apply andb_prop in Hclean. destruct Hclean as [Hc Hline].
  unfold Sysfs.line_byte in Hc. apply andb_prop in Hc. destruct Hc as [Hlf Hnul].
  apply negb_true_iff in Hlf, Hnul.
  change (String c line ++ Sysfs.LF)%string with (String c (line ++ Sysfs.LF)%string).
  cbn [Sysfs.c_str]. rewrite Hnul. cbn [Sysfs.cut_at_newline]. rewrite Hlf.
  now rewrite IH.
Qed.

Section SysfsMoreProperties.
Context {W : Type} `{!Sysfs.Stdio W}.
Variables ni_debug NI_TRACE_IFCONFIG : Z.
Implicit Types w : world W Sysfs.event.

(** X27.  When the attribute file cannot be opened for reading, the update
    of a list attribute returns -1 and has made no call but that fopen:
    nothing is written. *)
Theorem set_list_attr_read_failure ifname attr_name (list : list string) w x :
  Sysfs.fopen_read (Sysfs.attr_path ifname attr_name) (ext w) = (None, x) ->
  Sysfs.ni_sysfs_bonding_set_list_attr ni_debug NI_TRACE_IFCONFIG
    ifname attr_name list w
  = (Sysfs.Returned (-1),
     World x (trace w ++ [Sysfs.EvFopenRead (Sysfs.attr_path ifname attr_name) None])).
Proof.
  intros Hopen.
  unfold Sysfs.ni_sysfs_bonding_set_list_attr, Sysfs.__ni_sysfs_read_list, bind, call.
  now rewrite Hopen.
Qed.

(** X28.  __ni_sysfs_read_list returns 0 or -1 and only appends to the
    array it is given; every string it appends is a token: it is not
    empty and holds no space, tab, newline or NUL.  When it returns -1 the
    array is as it was. *)
Theorem read_list_appends_tokens pathname (result : list string) w :
  let '((rc, list), _) := Sysfs.__ni_sysfs_read_list pathname result w in
  (rc = 0 \/ rc = -1)
  /\ exists new,
       list = (result ++ new)%list
       /\ Forall (fun t => t <> ""%string
                           /\ Sysfs.string_forall Sysfs.token_byte t = true) new
       /\ (rc = -1 -> new = []).
Proof.
  unfold Sysfs.__ni_sysfs_read_list, bind, ret.
  destruct (call _ _ w) as [[stream|] w1].
  - destruct (call _ _ w1) as [rc w2].
    split; [now left|].
    destruct (read_list_loop_tokens (String.length stream) stream result)
      as (new & Hnew & Hgood).
    exists new. repeat split; [exact Hnew | exact Hgood | discriminate].
  - split; [now right|]. exists []. repeat split;
      [now rewrite app_nil_r | constructor].
Qed.

(** X29.  Reading a list line by line gives the words of the whole file:
    when every line of the file, its newline included, has at most 255
    bytes (so that one fgets into the 256 byte buffer takes it whole) and
    the file holds no NUL, __ni_sysfs_read_list returns 0 and appends what
    one strtok pass over the whole file, with the delimiters space, tab and
    newline, gives, in that order: line ends and the buffer play no part. *)
Theorem read_list_gives_words pathname (result : list string) w stream x :
  Sysfs.fopen_read pathname (ext w) = (Some stream, x) ->
  Sysfs.lines_fit 255 stream = true ->
  Sysfs.string_forall (fun c => negb (Ascii.eqb c "000")) stream = true ->
  fst (Sysfs.__ni_sysfs_read_list pathname result w)
  = (0, (result ++ Sysfs.strtok_all stream "")%list).
Proof.
  intros Hopen Hfit Hclean.
  unfold Sysfs.__ni_sysfs_read_list, bind, ret, call. rewrite Hopen. cbn.
  destruct (Sysfs.fclose pathname x) as [rc x']. cbn.
  now rewrite (read_list_loop_whole _ _ _ (le_n _) Hfit Hclean).
Qed.

(** X30.  Reading one string from a sysfs file.  When the file starts with
    a line of fewer than 255 bytes, ni_sysfs_netif_get_string and
    ni_sysfs_bonding_get_attr return 0 and store that line without its
    newline.  When the file cannot be opened both return -1 and leave the
    string as it was.  On an empty file they differ:
    ni_sysfs_netif_get_string returns -1 and leaves the string, while
    ni_sysfs_bonding_get_attr returns 0 and has freed the string. *)
Theorem sysfs_string_is_first_line
    (ni_string_dup : option string -> string -> option string)
    (ni_string_free : option string -> option string)
    ifname attr_name (result : option string) w :
  let netif := fst (Sysfs.fopen_read (Sysfs.__ni_sysfs_netif_attrpath ifname attr_name)
                      (ext w)) in
  let bonding := fst (Sysfs.fopen_read (Sysfs.attr_path ifname attr_name) (ext w)) in
  let get_string :=
    fst (Sysfs.ni_sysfs_netif_get_string ni_string_dup ifname attr_name result w) in
  let get_attr :=
    fst (Sysfs.ni_sysfs_bonding_get_attr ni_string_dup ni_string_free ifname attr_name
           result w) in
  (forall line rest,
     (String.length line < 255)%nat ->
     Sysfs.string_forall Sysfs.line_byte line = true ->
     (netif = Some (line ++ Sysfs.LF ++ rest)%string ->
      get_string = (0, ni_string_dup result line))
     /\ (bonding = Some (line ++ Sysfs.LF ++ rest)%string ->
         get_attr = (0, ni_string_dup (ni_string_free result) line)))
  /\ (netif = None -> get_string = (-1, result))
  /\ (bonding = None -> get_attr = (-1, result))
  /\ (netif = Some ""%string -> get_string = (-1, result))
  /\ (bonding = Some ""%string -> get_attr = (0, ni_string_free result)).
Proof.
  cbn zeta.
  unfold Sysfs.ni_sysfs_netif_get_string, Sysfs.__ni_sysfs_netif_get_attr,
    Sysfs.ni_sysfs_bonding_get_attr, Sysfs.__ni_sysfs_read_string, bind, ret, call.
  destruct (Sysfs.fopen_read (Sysfs.__ni_sysfs_netif_attrpath ifname attr_name) (ext w))
    as [netif x1].
  destruct (Sysfs.fopen_read (Sysfs.attr_path ifname attr_name) (ext w))
    as [bonding x2].
  cbn [fst snd ext].
  repeat split; intros ->; cbn;
    repeat match goal with
           | |- context [Sysfs.fclose ?p ?x] => destruct (Sysfs.fclose p x); cbn
           end;
    rewrite ?first_line_short by assumption; reflexivity.
Qed.

End SysfsMoreProperties.

Lemma set_list_attr_read_failure_witness :
  fst (Sysfs.ni_sysfs_bonding_set_list_attr Sim.debug_ifconfig Sim.trace_ifconfig
         "bond0" "slaves" ["eth0"]
         (World 0%nat [] : world nat Sysfs.event)) = Sysfs.Returned (-1).
Proof.
  erewrite (set_list_attr_read_failure Sim.debug_ifconfig Sim.trace_ifconfig
              "bond0" "slaves" ["eth0"]
              (World 0%nat [] : world nat Sysfs.event)); reflexivity.
Defined.

Lemma read_list_gives_words_witness :
  fst (Sysfs.__ni_sysfs_read_list (Sysfs.attr_path "bond0" "slaves") ["lo"]
         (Sim.sysfs_world ("eth0 eth1" ++ Sysfs.LF ++ "  eth2") []))
  = (0, ["lo"; "eth0"; "eth1"; "eth2"]).
Proof.
  rewrite (read_list_gives_words (Sysfs.attr_path "bond0" "slaves") ["lo"]
             (Sim.sysfs_world ("eth0 eth1" ++ Sysfs.LF ++ "  eth2") [])
             ("eth0 eth1" ++ Sysfs.LF ++ "  eth2")
             (ext (Sim.sysfs_world ("eth0 eth1" ++ Sysfs.LF ++ "  eth2") [])));
    reflexivity.
Defined.

Lemma sysfs_string_is_first_line_witness :
  fst (Sysfs.ni_sysfs_netif_get_string (fun _ s => Some s) "bond0" "bonding/mode" None
         (Sim.sysfs_world ("balance-rr 0" ++ Sysfs.LF) []))
  = (0, Some "balance-rr 0")
  /\ fst (Sysfs.ni_sysfs_bonding_get_attr (fun _ s => Some s) (fun _ => None)
            "bond0" "mode" (Some "stale")
            (Sim.sysfs_world ("balance-rr 0" ++ Sysfs.LF) []))
     = (0, Some "balance-rr 0").
Proof.
  split.
  - pose proof (sysfs_string_is_first_line (fun _ s => Some s) (fun _ => None)
                  "bond0" "bonding/mode" None
                  (Sim.sysfs_world ("balance-rr 0" ++ Sysfs.LF) [])) as Hread.
    cbv zeta in Hread. destruct Hread as [Hline _].
    apply (Hline "balance-rr 0" ""); [vm_compute; lia | reflexivity | reflexivity].
  - pose proof (sysfs_string_is_first_line (fun _ s => Some s) (fun _ => None)
                  "bond0" "mode" (Some "stale")
                  (Sim.sysfs_world ("balance-rr 0" ++ Sysfs.LF) [])) as Hread.
    cbv zeta in Hread. destruct Hread as [Hline _].
    apply (Hline "balance-rr 0" ""); [vm_compute; lia | reflexivity | reflexivity].
Defined.
